(** * Nine Men's Morris: rule engine and adversarial search

    A shallow embedding of the repository's two Python files:

    - [new.py]: the generic search layer ([minmax_decision],
      [expect_minmax], [alpha_beta_search], [alpha_beta_cutoff_search]),
      the [Game] interface and the [NMensMorris] game class;
    - [nMensMorrisGame.py]: the [BoardGui] rule implementation
      ([on_click], [move], [check3inRow], [chooseRandomToRemove], ...).

    Python exceptions are modelled by the [res] type, mutable objects by
    explicit state passing, unbounded recursion and [while] loops by a
    fuel argument, and calls to [random] by an explicit list of the values
    the generator hands out. *)

From Stdlib Require Import ZArith QArith Qreduction Lia ZifyBool.
From stdpp Require Import gmap strings list.

Local Open Scope Z_scope.

(** ** Python outcomes *)

(** The exception classes the modelled code can raise. *)
Inductive exn :=
| AttributeError (attr : string)
| ValueError
| IndexError
| TypeError
| AssertionError
| ZeroDivisionError.

(** Outcome of a Python call: a value, a raised exception, or (model
    only) exhausted fuel, standing for a computation that has not
    returned yet. *)
Inductive res (A : Type) :=
| Ok (a : A)
| Raise (e : exn)
| OutOfFuel.
Arguments Ok {A} a.
Arguments Raise {A} e.
Arguments OutOfFuel {A}.

Definition rbind {A B} (m : res A) (k : A -> res B) : res B :=
  match m with
  | Ok a => k a
  | Raise e => Raise e
  | OutOfFuel => OutOfFuel
  end.

Notation "'do' x <- m ; k" := (rbind m (fun x => k))
  (at level 10, x name, m at level 100, k at level 200).

(** The two marks used throughout: ['X'] (first / human player) and
    ['O'] (second / AI player). *)
Inductive player := X | O.

Global Instance player_eq_dec : EqDecision player := ltac:(solve_decision).

Definition other (p : player) : player :=
  match p with X => O | O => X end.

(** Board coordinates: Python pairs / two-element lists of ints. *)
Abbreviation pos := (Z * Z)%type.

(** [list.remove(x)]: drops the first occurrence, [ValueError] if absent. *)
Fixpoint list_remove (x : pos) (l : list pos) : res (list pos) :=
  match l with
  | [] => Raise ValueError
  | y :: l' =>
      if decide (y = x) then Ok l'
      else do r <- list_remove x l'; Ok (y :: r)
  end.

(** ** Extended integers: ints together with [np.inf] and [-np.inf] *)

Inductive ext := NInf | Fin (z : Z) | PInf.

(** [a > b] *)
Definition ext_gtb (a b : ext) : bool :=
  match a, b with
  | NInf, _ => false
  | Fin _, NInf => true
  | Fin x, Fin y => y <? x
  | Fin _, PInf => false
  | PInf, PInf => false
  | PInf, _ => true
  end.

(** [a >= b] and [a <= b], [a < b] *)
Definition ext_geb (a b : ext) : bool :=
  match a, b with
  | _, NInf => true
  | NInf, _ => false
  | Fin x, Fin y => y <=? x
  | Fin _, PInf => false
  | PInf, _ => true
  end.
Definition ext_ltb (a b : ext) : bool := ext_gtb b a.
Definition ext_leb (a b : ext) : bool := ext_geb b a.

(** Python's two-argument [max(a, b)] keeps [a] unless [b > a];
    [min(a, b)] keeps [a] unless [b < a]. *)
Definition py_max (a b : ext) : ext := if ext_gtb b a then b else a.
Definition py_min (a b : ext) : ext := if ext_ltb b a then b else a.

(** [max(iterable, key=f)] and [max(iterable, key=f, default=None)]:
    the key of every item is evaluated in order, the first item with the
    greatest key is returned; an empty iterable gives [ValueError], or
    [None] when [default=None] was passed. *)
Section MaxKey.
Context {A K : Type} (gt : K -> K -> bool) (key : A -> res K).

Fixpoint max_key_loop (l : list A) (best : A) (bestk : K) : res A :=
  match l with
  | [] => Ok best
  | a :: l' =>
      do k <- key a;
      if gt k bestk then max_key_loop l' a k else max_key_loop l' best bestk
  end.

Definition max_key (has_default : bool) (l : list A) : res (option A) :=
  match l with
  | [] => if has_default then Ok None else Raise ValueError
  | a :: l' =>
      do k <- key a;
      do b <- max_key_loop l' a k;
      Ok (Some b)
  end.
End MaxKey.

(** ** The [Game] interface of new.py

    [actions], [utility], [terminal_test] and [to_move] are the methods a
    subclass provides; [result] may raise. *)
Record Game (State Action : Type) := {
  actions : State -> list Action;
  result : State -> Action -> res State;
  utility : State -> player -> Z;
  terminal_test : State -> bool;
  to_move : State -> player
}.
Arguments actions {State Action}.
Arguments result {State Action}.
Arguments utility {State Action}.
Arguments terminal_test {State Action}.
Arguments to_move {State Action}.

(** ** minmax_decision (new.py, lines 37-60) *)
Module MinMax.
Section MinMax.
Context {State Action : Type} (game : Game State Action).
(** [player = game.to_move(state)] of the enclosing call. *)
Variable player : player.

(** [for a in game.actions(state): v = pick(v, child(game.result(state, a)))] *)
Fixpoint value_loop (child : State -> res ext) (pick : ext -> ext -> ext)
    (state : State) (acts : list Action) (v : ext) : res ext :=
  match acts with
  | [] => Ok v
  | a :: rest =>
      do s' <- result game state a;
      do c <- child s';
      value_loop child pick state rest (pick v c)
  end.

Fixpoint max_value (fuel : nat) (state : State) : res ext :=
  match fuel with
  | 0%nat => OutOfFuel
  | S fuel' =>
      if terminal_test game state then Ok (Fin (utility game state player))
      else value_loop (min_value fuel') py_max state (actions game state) NInf
  end
with min_value (fuel : nat) (state : State) : res ext :=
  match fuel with
  | 0%nat => OutOfFuel
  | S fuel' =>
      if terminal_test game state then Ok (Fin (utility game state player))
      else value_loop (max_value fuel') py_min state (actions game state) PInf
  end.
End MinMax.

(** Body of [minmax_decision]: [max] without a [default]. *)
Definition minmax_decision {State Action : Type} (fuel : nat) (state : State)
    (game : Game State Action) : res (option Action) :=
  let player := to_move game state in
  max_key ext_gtb
    (fun a => do s' <- result game state a; min_value game player fuel s')
    false (actions game state).
End MinMax.

(** ** alpha_beta_search (new.py, lines 106-144) *)
Module AlphaBeta.
Section AlphaBeta.
Context {State Action : Type} (game : Game State Action).
Variable player : player.

(** Loop of [max_value]: returns early once [v >= beta]. *)
Fixpoint max_loop (child : State -> ext -> ext -> res ext) (state : State)
    (acts : list Action) (v alpha beta : ext) : res ext :=
  match acts with
  | [] => Ok v
  | a :: rest =>
      do s' <- result game state a;
      do c <- child s' alpha beta;
      let v := py_max v c in
      if ext_geb v beta then Ok v
      else max_loop child state rest v (py_max alpha v) beta
  end.

(** Loop of [min_value]: returns early once [v <= alpha]. *)
Fixpoint min_loop (child : State -> ext -> ext -> res ext) (state : State)
    (acts : list Action) (v alpha beta : ext) : res ext :=
  match acts with
  | [] => Ok v
  | a :: rest =>
      do s' <- result game state a;
      do c <- child s' alpha beta;
      let v := py_min v c in
      if ext_leb v alpha then Ok v
      else min_loop child state rest v alpha (py_min beta v)
  end.

Fixpoint max_value (fuel : nat) (state : State) (alpha beta : ext) : res ext :=
  match fuel with
  | 0%nat => OutOfFuel
  | S fuel' =>
      if terminal_test game state then Ok (Fin (utility game state player))
      else max_loop (min_value fuel') state (actions game state) NInf alpha beta
  end
with min_value (fuel : nat) (state : State) (alpha beta : ext) : res ext :=
  match fuel with
  | 0%nat => OutOfFuel
  | S fuel' =>
      if terminal_test game state then Ok (Fin (utility game state player))
      else min_loop (max_value fuel') state (actions game state) PInf alpha beta
  end.

(** Root loop: [best_action] changes only on a strictly better score. *)
Fixpoint root_loop (fuel : nat) (state : State) (acts : list Action)
    (best_score beta : ext) (best_action : option Action) : res (option Action) :=
  match acts with
  | [] => Ok best_action
  | a :: rest =>
      do s' <- result game state a;
      do v <- min_value fuel s' best_score beta;
      if ext_gtb v best_score then root_loop fuel state rest v beta (Some a)
      else root_loop fuel state rest best_score beta best_action
  end.
End AlphaBeta.

Definition alpha_beta_search {State Action : Type} (fuel : nat) (state : State)
    (game : Game State Action) : res (option Action) :=
  let player := to_move game state in
  root_loop game player fuel state (actions game state) NInf PInf None.
End AlphaBeta.

(** ** alpha_beta_cutoff_search (new.py, lines 147-188) *)
Module AlphaBetaCutoff.
Section AlphaBetaCutoff.
Context {State Action : Type} (game : Game State Action).
Variable cutoff_test : State -> Z -> bool.
Variable eval_fn : State -> ext.

Fixpoint max_loop (child : State -> ext -> ext -> Z -> res ext) (state : State)
    (acts : list Action) (v alpha beta : ext) (depth : Z) : res ext :=
  match acts with
  | [] => Ok v
  | a :: rest =>
      do s' <- result game state a;
      do c <- child s' alpha beta (depth + 1);
      let v := py_max v c in
      if ext_geb v beta then Ok v
      else max_loop child state rest v (py_max alpha v) beta depth
  end.

Fixpoint min_loop (child : State -> ext -> ext -> Z -> res ext) (state : State)
    (acts : list Action) (v alpha beta : ext) (depth : Z) : res ext :=
  match acts with
  | [] => Ok v
  | a :: rest =>
      do s' <- result game state a;
      do c <- child s' alpha beta (depth + 1);
      let v := py_min v c in
      if ext_leb v alpha then Ok v
      else min_loop child state rest v alpha (py_min beta v) depth
  end.

Fixpoint max_value (fuel : nat) (state : State) (alpha beta : ext) (depth : Z)
    : res ext :=
  match fuel with
  | 0%nat => OutOfFuel
  | S fuel' =>
      if cutoff_test state depth then Ok (eval_fn state)
      else max_loop (min_value fuel') state (actions game state) NInf alpha beta depth
  end
with min_value (fuel : nat) (state : State) (alpha beta : ext) (depth : Z)
    : res ext :=
  match fuel with
  | 0%nat => OutOfFuel
  | S fuel' =>
      if cutoff_test state depth then Ok (eval_fn state)
      else min_loop (max_value fuel') state (actions game state) PInf alpha beta depth
  end.

Fixpoint root_loop (fuel : nat) (state : State) (acts : list Action)
    (best_score beta : ext) (best_action : option Action) : res (option Action) :=
  match acts with
  | [] => Ok best_action
  | a :: rest =>
      do s' <- result game state a;
      do v <- min_value fuel s' best_score beta 1;
      if ext_gtb v best_score then root_loop fuel state rest v beta (Some a)
      else root_loop fuel state rest best_score beta best_action
  end.
End AlphaBetaCutoff.

(** [d], [cutoff_test] and [eval_fn] are the keyword arguments; [None]
    selects the default built in the body ([d] defaults to 4 at the call). *)
Definition alpha_beta_cutoff_search {State Action : Type} (fuel : nat)
    (state : State) (game : Game State Action) (d : Z)
    (cutoff_test : option (State -> Z -> bool)) (eval_fn : option (State -> ext))
    : res (option Action) :=
  let player := to_move game state in
  let cutoff_test :=
    match cutoff_test with
    | Some f => f
    | None => fun state depth => (d <? depth) || terminal_test game state
    end in
  let eval_fn :=
    match eval_fn with
    | Some f => f
    | None => fun state => Fin (utility game state player)
    end in
  root_loop game cutoff_test eval_fn fuel state (actions game state) NInf PInf None.
End AlphaBetaCutoff.

(** ** Numbers of expect_minmax

    [expect_minmax] multiplies, adds and divides its values, so they are
    Python floats; they are modelled by exact rationals together with
    [inf], [-inf] and [nan] (comparisons with [nan] are false). *)
Inductive num := NaN | MInf | Rat (q : Q) | Inf.

(** [a > b] *)
Definition num_gtb (a b : num) : bool :=
  match a, b with
  | NaN, _ | _, NaN => false
  | MInf, _ => false
  | Rat _, MInf => true
  | Rat x, Rat y => negb (Qle_bool x y)
  | Rat _, Inf => false
  | Inf, Inf => false
  | Inf, _ => true
  end.
Definition num_ltb (a b : num) : bool := num_gtb b a.
Definition num_max (a b : num) : num := if num_gtb b a then b else a.
Definition num_min (a b : num) : num := if num_ltb b a then b else a.

Definition num_neg (a : num) : num :=
  match a with NaN => NaN | MInf => Inf | Inf => MInf | Rat q => Rat (Qred (- q)) end.

(** [inf * q] *)
Definition inf_times (q : Q) : num :=
  match Qcompare q 0 with Gt => Inf | Lt => MInf | Eq => NaN end.

Definition num_mul (a b : num) : num :=
  match a, b with
  | NaN, _ | _, NaN => NaN
  | Rat x, Rat y => Rat (Qred (x * y))
  | Inf, Rat y => inf_times y
  | Rat x, Inf => inf_times x
  | MInf, Rat y => num_neg (inf_times y)
  | Rat x, MInf => num_neg (inf_times x)
  | Inf, Inf | MInf, MInf => Inf
  | Inf, MInf | MInf, Inf => MInf
  end.

Definition num_add (a b : num) : num :=
  match a, b with
  | NaN, _ | _, NaN => NaN
  | Rat x, Rat y => Rat (Qred (x + y))
  | Inf, MInf | MInf, Inf => NaN
  | Inf, _ | _, Inf => Inf
  | MInf, _ | _, MInf => MInf
  end.

(** [a / n] for a list length [n]: [ZeroDivisionError] when [n = 0]. *)
Definition num_div (a : num) (n : nat) : res num :=
  match n with
  | 0%nat => Raise ZeroDivisionError
  | _ =>
      match a with
      | Rat x => Ok (Rat (Qred (x / inject_Z (Z.of_nat n))))
      | other => Ok other
      end
  end.

(** A game with chance nodes: the [Game] methods plus [chances],
    [outcome], [probability], and the [to_move] attribute that
    [chance_node] reads directly from a state. *)
Record StochasticGame (State Action Chance : Type) := {
  base : Game State Action;
  chances : State -> list Chance;
  outcome : State -> Chance -> State;
  probability : Chance -> Q;
  state_to_move : State -> player
}.
Arguments base {State Action Chance}.
Arguments chances {State Action Chance}.
Arguments outcome {State Action Chance}.
Arguments probability {State Action Chance}.
Arguments state_to_move {State Action Chance}.

(** ** expect_minmax (new.py, lines 66-103) *)
Module ExpectMinMax.
Section ExpectMinMax.
Context {State Action Chance : Type} (game : StochasticGame State Action Chance).
Variable player : player.

(** [for a in game.actions(state): v = pick(v, chance_node(state, a))] *)
Fixpoint action_loop (chance_node : State -> Action -> res num)
    (pick : num -> num -> num) (state : State) (acts : list Action) (v : num)
    : res num :=
  match acts with
  | [] => Ok v
  | a :: rest =>
      do c <- chance_node state a;
      action_loop chance_node pick state rest (pick v c)
  end.

(** The loop over [game.chances(res_state)]: [res_state] is rebound to
    the outcome on every iteration, and [sum_chances] accumulates
    [util * game.probability(chance)]. *)
Fixpoint chance_loop (max_value min_value : State -> res num)
    (chs : list Chance) (res_state : State) (sum_chances : num) : res num :=
  match chs with
  | [] => Ok sum_chances
  | chance :: rest =>
      let res_state := outcome game res_state chance in
      do util <- (if decide (state_to_move game res_state = player)
                  then max_value res_state else min_value res_state);
      chance_loop max_value min_value rest res_state
        (num_add sum_chances (num_mul util (Rat (probability game chance))))
  end.

Fixpoint max_value (fuel : nat) (state : State) : res num :=
  match fuel with
  | 0%nat => OutOfFuel
  | S fuel' =>
      action_loop (chance_node fuel') num_max state (actions (base game) state) MInf
  end
with min_value (fuel : nat) (state : State) : res num :=
  match fuel with
  | 0%nat => OutOfFuel
  | S fuel' =>
      action_loop (chance_node fuel') num_min state (actions (base game) state) Inf
  end
with chance_node (fuel : nat) (state : State) (action : Action) : res num :=
  match fuel with
  | 0%nat => OutOfFuel
  | S fuel' =>
      do res_state <- result (base game) state action;
      if terminal_test (base game) res_state
      then Ok (Rat (inject_Z (utility (base game) res_state player)))
      else
        let num_chances := length (chances game res_state) in
        do sum_chances <- chance_loop (max_value fuel') (min_value fuel')
                            (chances game res_state) res_state (Rat 0);
        num_div sum_chances num_chances
  end.
End ExpectMinMax.

(** Body of [expect_minmax]: [max] with [default=None]. *)
Definition expect_minmax {State Action Chance : Type} (fuel : nat) (state : State)
    (game : StochasticGame State Action Chance) : res (option Action) :=
  let player := to_move (base game) state in
  max_key num_gtb (fun a => chance_node game player fuel state a)
    true (actions (base game) state).
End ExpectMinMax.

(** ** GameState and NMensMorris (new.py) *)

(** [GameState = namedtuple('GameState', 'to_move, utility, board, moves')].
    [board] is a dict from squares to marks; [moves] is the collection of
    squares still open, iterated in order. *)
Record GameState := {
  gs_to_move : player;
  gs_utility : Z;
  gs_board : gmap pos player;
  gs_moves : list pos
}.

(** The value of a [GameState] attribute. *)
Inductive attr_value :=
| AToMove (p : player)
| AUtility (u : Z)
| ABoard (b : gmap pos player)
| AMoves (m : list pos).

(** Attribute access [state.name]: a namedtuple has exactly its declared
    fields as data attributes; any other name raises [AttributeError]. *)
Definition GameState_fields : list string := ["to_move"; "utility"; "board"; "moves"].

Definition getattr (state : GameState) (name : string) : res attr_value :=
  if decide (name = "to_move") then Ok (AToMove (gs_to_move state))
  else if decide (name = "utility") then Ok (AUtility (gs_utility state))
  else if decide (name = "board") then Ok (ABoard (gs_board state))
  else if decide (name = "moves") then Ok (AMoves (gs_moves state))
  else Raise (AttributeError name).

(** The instance attributes set by [NMensMorris.__init__(h=3, v=3, k=3)]. *)
Record NMensMorris := { h : Z; v : Z; k : Z }.

Definition NMensMorris_default : NMensMorris := {| h := 3; v := 3; k := 3 |}.

(** [self.initial = GameState(to_move='X', utility=0, board={}, moves={})] *)
Definition initial (self : NMensMorris) : GameState :=
  {| gs_to_move := X; gs_utility := 0; gs_board := ∅; gs_moves := [] |}.

Module NMM.
(** One [while board.get((x, y)) == player] loop of [k_in_row]: counts
    the run starting at [(x, y)] in direction [(dx, dy)]. For a direction
    other than (0,0) the run visits each occupied square at most once,
    so the board size bounds the iterations. (For the direction (0,0),
    which the code never passes, the loop of the source does not end on
    a square of [player]; the model is meant for the other directions
    only.) *)
Fixpoint run_length (fuel : nat) (board : gmap pos player) (player : player)
    (x y dx dy : Z) : Z :=
  match fuel with
  | 0%nat => 0
  | S fuel' =>
      if decide (board !! (x, y) = Some player)
      then 1 + run_length fuel' board player (x + dx) (y + dy) dx dy
      else 0
  end.

Definition k_in_row (self : NMensMorris) (board : gmap pos player) (move : pos)
    (player : player) (delta_x_y : pos) : bool :=
  let '(delta_x, delta_y) := delta_x_y in
  let '(x, y) := move in
  let fuel := S (size board) in
  let n := run_length fuel board player x y delta_x delta_y in
  let n := n + run_length fuel board player x y (- delta_x) (- delta_y) in
  let n := n - 1 in
  k self <=? n.

Definition compute_utility (self : NMensMorris) (board : gmap pos player)
    (move : pos) (player : player) : Z :=
  if k_in_row self board move player (0, 1)
     || k_in_row self board move player (1, 0)
     || k_in_row self board move player (1, -1)
     || k_in_row self board move player (1, 1)
  then (if decide (player = X) then 1 else -1)
  else 0.

Definition actions (self : NMensMorris) (state : GameState) : list pos :=
  gs_moves state.

(** [result]: an illegal move returns [state] itself; a legal one
    starts with [board = state.game.copy()]. *)
Definition result (self : NMensMorris) (state : GameState) (move : pos)
    : res GameState :=
  if negb (bool_decide (move ∈ gs_moves state)) then Ok state
  else
    do game <- getattr state "game";
    match game with
    | ABoard board =>
        let board := <[move := gs_to_move state]> board in
        do moves <- list_remove move (gs_moves state);
        Ok {| gs_to_move := (if decide (gs_to_move state = X) then O else X);
              gs_utility := compute_utility self board move (gs_to_move state);
              gs_board := board;
              gs_moves := moves |}
    | _ => Raise (AttributeError "copy")
    end.

Definition utility (self : NMensMorris) (state : GameState) (player : player) : Z :=
  if decide (player = X) then gs_utility state else - gs_utility state.

Definition terminal_test (self : NMensMorris) (state : GameState) : bool :=
  negb (gs_utility state =? 0) || (Z.of_nat (length (gs_moves state)) =? 0).

(** Inherited from [Game]. *)
Definition to_move (self : NMensMorris) (state : GameState) : player :=
  gs_to_move state.

End NMM.

(** The [NMensMorris] object as seen by the search functions. *)
Definition NMensMorris_game (self : NMensMorris) : Game GameState pos :=
  {| actions := NMM.actions self;
     result := NMM.result self;
     utility := NMM.utility self;
     terminal_test := NMM.terminal_test self;
     to_move := NMM.to_move self |}.

(** ** BoardGui (nMensMorrisGame.py) *)

(** Python indexing [l[i]]: negative indices count from the end. *)
Definition norm_index (len : nat) (i : Z) : option nat :=
  if (0 <=? i) && (i <? Z.of_nat len) then Some (Z.to_nat i)
  else if (- Z.of_nat len <=? i) && (i <? 0) then Some (Z.to_nat (Z.of_nat len + i))
  else None.

Definition py_index {A} (l : list A) (i : Z) : res A :=
  match norm_index (length l) i with
  | Some n => match l !! n with Some a => Ok a | None => Raise IndexError end
  | None => Raise IndexError
  end.

(** [random.choice(seq)] when the generator hands out [r]. *)
Definition choice {A} (l : list A) (r : nat) : res A :=
  match l with
  | [] => Raise IndexError
  | _ => match l !! (r mod length l)%nat with
         | Some a => Ok a
         | None => Raise IndexError
         end
  end.

Module Gui.

(** [GameSteps = ['Setup', 'Move', 'Remove']] *)
Inductive GameStep := Setup | Move | Remove.

Global Instance GameStep_eq_dec : EqDecision GameStep := ltac:(solve_decision).

(** [NMMPlayer]: the attributes the rule code reads or writes. *)
Record NMMPlayer := {
  step : GameStep;
  poses : list pos;
  numWin : Z;
  picked : option pos
}.

(** [NMMPlayer.__init__] *)
Definition new_player : NMMPlayer :=
  {| step := Setup; poses := []; numWin := 0; picked := None |}.

(** A [Cell]: its [pos] and the text of its button ([""], ["X"] or ["O"]). *)
Record Cell := { cpos : pos; text : option player }.

Global Instance Cell_eq_dec : EqDecision Cell := ltac:(solve_decision).

(** The [BoardGui] object. A button is identified by its place
    [(row, index)] in [cells]. *)
Record BoardGui := {
  cells : list (list Cell);
  to_move : player;
  player1 : NMMPlayer;
  player2 : NMMPlayer;
  player1tokens : Z;
  player2tokens : Z
}.

Definition set_step (st : GameStep) (p : NMMPlayer) : NMMPlayer :=
  {| step := st; poses := poses p; numWin := numWin p; picked := picked p |}.
Definition set_poses (l : list pos) (p : NMMPlayer) : NMMPlayer :=
  {| step := step p; poses := l; numWin := numWin p; picked := picked p |}.
Definition set_numWin (n : Z) (p : NMMPlayer) : NMMPlayer :=
  {| step := step p; poses := poses p; numWin := n; picked := picked p |}.
Definition set_picked (o : option pos) (p : NMMPlayer) : NMMPlayer :=
  {| step := step p; poses := poses p; numWin := numWin p; picked := o |}.

Definition set_cells (c : list (list Cell)) (s : BoardGui) : BoardGui :=
  {| cells := c; to_move := to_move s; player1 := player1 s; player2 := player2 s;
     player1tokens := player1tokens s; player2tokens := player2tokens s |}.
Definition set_to_move (p : player) (s : BoardGui) : BoardGui :=
  {| cells := cells s; to_move := p; player1 := player1 s; player2 := player2 s;
     player1tokens := player1tokens s; player2tokens := player2tokens s |}.
Definition set_player1 (p : NMMPlayer) (s : BoardGui) : BoardGui :=
  {| cells := cells s; to_move := to_move s; player1 := p; player2 := player2 s;
     player1tokens := player1tokens s; player2tokens := player2tokens s |}.
Definition set_player2 (p : NMMPlayer) (s : BoardGui) : BoardGui :=
  {| cells := cells s; to_move := to_move s; player1 := player1 s; player2 := p;
     player1tokens := player1tokens s; player2tokens := player2tokens s |}.
Definition set_player1tokens (n : Z) (s : BoardGui) : BoardGui :=
  {| cells := cells s; to_move := to_move s; player1 := player1 s; player2 := player2 s;
     player1tokens := n; player2tokens := player2tokens s |}.
Definition set_player2tokens (n : Z) (s : BoardGui) : BoardGui :=
  {| cells := cells s; to_move := to_move s; player1 := player1 s; player2 := player2 s;
     player1tokens := player1tokens s; player2tokens := n |}.

(** The condition of [__init__] under which square [(i, j)] of the 7 x 7
    grid gets a button. *)
Definition has_button (i j : Z) : bool :=
  ((i mod 6 =? 0) && (j mod 3 =? 0))
  || ((i mod 4 =? 1) && (j mod 2 =? 1))
  || (((i =? 2) || (i =? 4)) && ((j =? 2) || (j =? 3) || (j =? 4)))
  || ((i =? 3) && negb (j =? 3)).

Definition dims : Z := 7.

(** The state built by [BoardGui.__init__]. *)
Definition init_cells : list (list Cell) :=
  (fun i =>
     (fun j => {| cpos := (i, j); text := None |})
       <$> filter (fun j => has_button i j = true) (seqZ 0 dims))
    <$> seqZ 0 dims.

Definition init : BoardGui :=
  {| cells := init_cells; to_move := X;
     player1 := new_player; player2 := new_player;
     player1tokens := 9; player2tokens := 9 |}.

(** [cell.button.config(text=t)] on the cell at [(row, index)]. *)
Definition set_text (r i : nat) (t : option player) (s : BoardGui) : BoardGui :=
  set_cells
    (alter (alter (fun c => {| cpos := cpos c; text := t |}) i) r (cells s)) s.

(** Toggling [self.to_move]. *)
Definition toggle (s : BoardGui) : BoardGui :=
  set_to_move (if decide (to_move s = X) then O else X) s.

(** The table of [check3inRow]. *)
Definition plausible_matches : list (list pos) :=
  [ (* diagonals *)
    [(0, 0); (1, 1); (2, 2)];
    [(0, 6); (1, 5); (2, 4)];
    [(6, 0); (5, 1); (4, 2)];
    [(6, 6); (5, 5); (4, 4)];
    [(3, 1); (4, 2); (5, 3)];
    [(5, 3); (4, 4); (3, 5)];
    [(3, 1); (2, 2); (1, 3)];
    [(1, 3); (2, 4); (3, 5)];
    (* verticals *)
    [(2, 2); (3, 2); (4, 2)];
    [(2, 4); (3, 4); (4, 4)];
    [(0, 3); (1, 3); (2, 3)];
    [(4, 3); (5, 3); (6, 3)];
    (* horizontals *)
    [(2, 2); (2, 3); (2, 4)];
    [(4, 2); (4, 3); (4, 4)];
    [(3, 0); (3, 1); (3, 2)];
    [(3, 4); (3, 5); (3, 6)] ].

(** [all(locs in poses for locs in match)] *)
Definition all_in (poses : list pos) (m : list pos) : bool :=
  forallb (fun locs => bool_decide (locs ∈ poses)) m.

Definition bump_numWin (p : NMMPlayer) : NMMPlayer :=
  set_numWin (numWin p + 1) p.

(** [check3inRow]: the loop over the table. On the first triple that
    contains [cur_move] and is fully owned, the owner's [numWin] is
    incremented and [True] is returned. *)
Fixpoint check3inRow_loop (matches : list (list pos)) (player : player)
    (cur_move : pos) (s : BoardGui) : bool * BoardGui :=
  match matches with
  | [] => (false, s)
  | m :: rest =>
      if bool_decide (cur_move ∈ m) then
        match player with
        | X =>
            if all_in (poses (player1 s)) m
            then (true, set_player1 (bump_numWin (player1 s)) s)
            else check3inRow_loop rest player cur_move s
        | O =>
            if all_in (poses (player2 s)) m
            then (true, set_player2 (bump_numWin (player2 s)) s)
            else check3inRow_loop rest player cur_move s
        end
      else check3inRow_loop rest player cur_move s
  end.

Definition check3inRow (player : player) (cur_move : pos) (s : BoardGui)
    : bool * BoardGui :=
  check3inRow_loop plausible_matches player cur_move s.

(** [check_win] (its only effects are button colours). *)
Definition check_win (s : BoardGui) : bool :=
  if (player1tokens s =? 0) && (player2tokens s =? 0) then
    if (length (poses (player1 s)) <? 3)%nat then true
    else if (length (poses (player2 s)) <? 3)%nat then true
    else false
  else false.

(** [disable_game]: every button gets [text=""]. *)
Definition disable_game (s : BoardGui) : BoardGui :=
  set_cells (map (map (fun c => {| cpos := cpos c; text := None |})) (cells s)) s.

Definition vacant_cells (s : BoardGui) : list pos :=
  cpos <$> filter (fun c => text c = None) (concat (cells s)).

Definition neighbourhood (x y : Z) : list pos :=
  i ← [-1; 0; 1]; j ← [-1; 0; 1]; [(x + i, y + j)].

Definition getAvailableMovesForPos (x y : Z) (s : BoardGui) : list pos :=
  filter (fun p => p ∈ vacant_cells s) (neighbourhood x y).

Definition getAvailableMoves (pose : pos) (s : BoardGui) : list pos :=
  getAvailableMovesForPos pose.1 pose.2 s.

(** A list with the index of each element, as met by a [for] loop. *)
Definition enumerate {A} (l : list A) : list (nat * A) := imap (fun i a => (i, a)) l.

(** The cell [self.cells[a][b]] with its normalised place. *)
Definition cell_at (a b : Z) (s : BoardGui) : res (nat * nat * Cell) :=
  match norm_index (length (cells s)) a with
  | None => Raise IndexError
  | Some r =>
      do row <- py_index (cells s) a;
      match norm_index (length row) b with
      | None => Raise IndexError
      | Some i => do c <- py_index row b; Ok (r, i, c)
      end
  end.

(** [move]: the inner loop over [self.cells[a]]. *)
Fixpoint move_inner (s : BoardGui) (sr si : nat) (sCell : Cell) (er : nat)
    (end_ : pos) (erow : list (nat * Cell)) : option BoardGui :=
  match erow with
  | [] => None
  | (ei, eCell) :: rest =>
      if decide (cpos eCell = end_) then
        if decide (text eCell = None)
        then Some (set_text sr si None (set_text er ei (text sCell) s))
        else move_inner s sr si sCell er end_ rest
      else move_inner s sr si sCell er end_ rest
  end.

(** [move]: the outer loop over [self.cells[x]]. *)
Fixpoint move_outer (s : BoardGui) (sr : nat) (a : Z) (start end_ : pos)
    (srow : list (nat * Cell)) : res (bool * BoardGui) :=
  match srow with
  | [] => Ok (false, s)
  | (si, sCell) :: rest =>
      if decide (cpos sCell = start) then
        if decide (text sCell = None) then Raise AssertionError
        else
          match norm_index (length (cells s)) a with
          | None => Raise IndexError
          | Some er =>
              do erow <- py_index (cells s) a;
              match move_inner s sr si sCell er end_ (enumerate erow) with
              | Some s' => Ok (true, s')
              | None => move_outer s sr a start end_ rest
              end
          end
      else move_outer s sr a start end_ rest
  end.

Definition move (start end_ : pos) (s : BoardGui) : res (bool * BoardGui) :=
  let legal_moves := getAvailableMoves start s in
  if negb (bool_decide (end_ ∈ legal_moves)) then Ok (false, s)
  else
    let '(x, y) := start in
    let '(a, b) := end_ in
    match norm_index (length (cells s)) x with
    | None => Raise IndexError
    | Some sr =>
        do srow <- py_index (cells s) x;
        move_outer s sr a start end_ (enumerate srow)
    end.

(** [getButton(pos)]: the place of the first cell with that [pos] in
    rows 0..6; [None] when there is none. *)
Fixpoint find_in_row (p : pos) (row : list (nat * Cell)) : option nat :=
  match row with
  | [] => None
  | (j, c) :: rest => if decide (cpos c = p) then Some j else find_in_row p rest
  end.

Fixpoint getButton_rows (p : pos) (rows : list (nat * list Cell)) : option (nat * nat) :=
  match rows with
  | [] => None
  | (i, row) :: rest =>
      match find_in_row p (enumerate row) with
      | Some j => Some (i, j)
      | None => getButton_rows p rest
      end
  end.

Definition getButton (p : pos) (s : BoardGui) : res (option (nat * nat)) :=
  match getButton_rows p (enumerate (take 7 (cells s))) with
  | Some b => Ok (Some b)
  | None => if (length (cells s) <? 7)%nat then Raise IndexError else Ok None
  end.

(** [self.getButton(pos).config(text=t)]; on [None] the call raises. *)
Definition config_button (p : pos) (t : option player) (s : BoardGui) : res BoardGui :=
  do b <- getButton p s;
  match b with
  | Some (r, i) => Ok (set_text r i t s)
  | None => Raise (AttributeError "config")
  end.

(** [x, y = self.getCoordinates(button)]: the [pos] of the clicked cell,
    searched in rows 0..6; when the button is not found the method
    returns [None] and the unpacking raises. *)
Definition getCoordinates (button : nat * nat) (s : BoardGui) : res pos :=
  match take (Z.to_nat dims) (cells s) !! button.1 ≫= (fun row => row !! button.2) with
  | Some c => Ok (cpos c)
  | None => Raise TypeError
  end.

(** *** The functions that call [random]

    [rng] is the list of numbers the generator hands out, consumed from
    the front; [OutOfFuel] stands for a loop that is still running when
    the list is used up. *)

(** [randomMove]: at most [upperCap] (50) trials. *)
Fixpoint randomMove_loop (upperCap : nat) (rng : list nat) (s : BoardGui)
    : res (Z * Z * list nat) :=
  match upperCap with
  | 0%nat => Ok (-1, -1, rng)
  | S upperCap' =>
      match rng with
      | r1 :: r2 :: rng' =>
          let a := Z.of_nat (r1 mod 7) in
          do row <- py_index (cells s) a;
          match row with
          | [] => Raise ValueError
          | _ =>
              let b := Z.of_nat (r2 mod length row) in
              do c <- py_index row b;
              if decide (text c = None) then Ok (a, b, rng')
              else randomMove_loop upperCap' rng' s
          end
      | _ => OutOfFuel
      end
  end.

Definition randomMove (rng : list nat) (s : BoardGui) : res (Z * Z * list nat) :=
  randomMove_loop 50 rng s.

(** [makeRandomMove]: draws a piece of player 2 until one has a vacant
    neighbour, then draws the target. *)
Fixpoint makeRandomMove (rng : list nat) (s : BoardGui)
    : res (pos * pos * list nat) :=
  match rng with
  | [] => OutOfFuel
  | r :: rng' =>
      do ab <- choice (poses (player2 s)) r;
      let available_moves := getAvailableMovesForPos ab.1 ab.2 s in
      match available_moves with
      | [] => makeRandomMove rng' s
      | _ =>
          match rng' with
          | [] => OutOfFuel
          | r' :: rng'' => do xy <- choice available_moves r'; Ok (ab, xy, rng'')
          end
      end
  end.

(** [chooseRandomToRemove]: the [while] loop, entered with the current
    [sol]. The test calls [check3inRow] first (with its effect on
    [numWin]) and then compares the length. *)
Fixpoint chooseRandomToRemove_loop (lst : list pos) (sol : pos)
    (rng : list nat) (s : BoardGui) {struct rng} : res (pos * BoardGui * list nat) :=
  let '(c, s) := check3inRow X sol s in
  if c && (3 <? length lst)%nat then
    match rng with
    | [] => OutOfFuel
    | r :: rng' =>
        do sol <- choice lst r;
        chooseRandomToRemove_loop lst sol rng' s
    end
  else Ok (sol, s, rng).

Definition chooseRandomToRemove (lst : list pos) (rng : list nat) (s : BoardGui)
    : res (pos * BoardGui * list nat) :=
  match rng with
  | [] => OutOfFuel
  | r :: rng' =>
      do sol <- choice lst r;
      chooseRandomToRemove_loop lst sol rng' s
  end.

(** *** on_click *)

(** Player 1, step ['Setup'] (lines 220-247). The flag tells whether the
    branch executed [return]. *)
Definition p1_setup (button : nat * nat) (xy : pos) (s : BoardGui) : bool * BoardGui :=
  let s :=
    if 1 <? player1tokens s then
      let s := set_player1 (set_poses (poses (player1 s) ++ [xy]) (player1 s)) s in
      let s := set_player1tokens (player1tokens s - 1) s in
      set_text button.1 button.2 (Some (to_move s)) s
    else if player1tokens s =? 1 then
      let s := set_player1 (set_poses (poses (player1 s) ++ [xy]) (player1 s)) s in
      let s := set_player1tokens (player1tokens s - 1) s in
      let s := set_player1 (set_step Move (player1 s)) s in
      set_text button.1 button.2 (Some (to_move s)) s
    else s in
  let '(check3_p1, s) := check3inRow (to_move s) xy s in
  if check3_p1 then (true, set_player1 (set_step Remove (player1 s)) s)
  else (false, s).

(** Player 1, step ['Move'] (lines 249-284). *)
Definition p1_move (xy : pos) (s : BoardGui) : res (bool * BoardGui) :=
  if bool_decide (xy ∈ poses (player1 s)) then
    Ok (true, set_player1 (set_picked (Some xy) (player1 s)) s)
  else
    match picked (player1 s) with
    | Some start =>
        do m <- move start xy s;
        let '(moved, s) := m in
        if moved then
          do l <- list_remove start (poses (player1 s));
          let s := set_player1 (set_poses (l ++ [xy]) (player1 s)) s in
          let s := set_player1 (set_picked None (player1 s)) s in
          let '(check3_p1, s) := check3inRow (to_move s) xy s in
          if check3_p1 then Ok (true, set_player1 (set_step Remove (player1 s)) s)
          else Ok (false, s)
        else Ok (true, s)
    | None => Ok (false, s)
    end.

(** Player 1, step ['Remove'] (lines 286-306). *)
Definition p1_remove (button : nat * nat) (xy : pos) (s : BoardGui)
    : res (bool * BoardGui) :=
  if bool_decide (xy ∈ poses (player2 s)) then
    let '(c, s) := check3inRow O xy s in
    if c && (3 <? length (poses (player2 s)))%nat then Ok (true, s)
    else
      do l <- list_remove xy (poses (player2 s));
      let s := set_player2 (set_poses l (player2 s)) s in
      let s := set_text button.1 button.2 None s in
      if check_win s then Ok (true, s)
      else if player1tokens s =? 0
      then Ok (false, set_player1 (set_step Move (player1 s)) s)
      else Ok (false, set_player1 (set_step Setup (player1 s)) s)
  else Ok (false, s).

(** Player 2 after [check3_p2 == True] (lines 341-358 and 379-396): a
    piece of player 1 is chosen and removed on the spot. *)
Definition p2_remove (rng : list nat) (s : BoardGui)
    : res (bool * BoardGui * list nat) :=
  do c <- chooseRandomToRemove (poses (player1 s)) rng s;
  let '(rem, s, rng) := c in
  do l <- list_remove rem (poses (player1 s));
  let s := set_player1 (set_poses l (player1 s)) s in
  do s <- config_button rem None s;
  if check_win s then Ok (true, s, rng)
  else if player2tokens s =? 0
  then Ok (false, set_player2 (set_step Move (player2 s)) s, rng)
  else Ok (false, set_player2 (set_step Setup (player2 s)) s, rng).

(** The test [check3_p2 = self.check3inRow(self.to_move, pos)] that ends
    both branches of player 2, followed by the removal when it is true. *)
Definition p2_check (pos : pos) (rng : list nat) (s : BoardGui)
    : res (bool * BoardGui * list nat) :=
  let '(check3_p2, s) := check3inRow (to_move s) pos s in
  if check3_p2 then p2_remove rng s else Ok (false, s, rng).

(** Player 2, step ['Setup'] (lines 316-358). *)
Definition p2_setup (r i : nat) (pos : pos) (rng : list nat) (s : BoardGui)
    : res (bool * BoardGui * list nat) :=
  let s :=
    if 1 <? player2tokens s then
      let s := set_player2 (set_poses (poses (player2 s) ++ [pos]) (player2 s)) s in
      let s := set_player2tokens (player2tokens s - 1) s in
      set_text r i (Some (to_move s)) s
    else if player2tokens s =? 1 then
      let s := set_player2 (set_poses (poses (player2 s) ++ [pos]) (player2 s)) s in
      let s := set_player2tokens (player2tokens s - 1) s in
      let s := set_player2 (set_step Move (player2 s)) s in
      set_text r i (Some (to_move s)) s
    else s in
  p2_check pos rng s.

(** Player 2, step ['Move'] (lines 361-396). *)
Definition p2_move (rng : list nat) (s : BoardGui)
    : res (bool * BoardGui * list nat) :=
  do m <- makeRandomMove rng s;
  let '(ab, xy, rng) := m in
  do s <-
    (if bool_decide (ab ∈ poses (player2 s)) then
       let s := set_player2 (set_picked (Some ab) (player2 s)) s in
       let start := ab in
       do m <- move start xy s;
       let '(moved, s) := m in
       do s <-
         (if moved then
            do l <- list_remove start (poses (player2 s));
            let s := set_player2 (set_poses (l ++ [xy]) (player2 s)) s in
            do s <- config_button xy (Some (to_move s)) s;
            config_button ab None s
          else Ok s);
       Ok (set_player2 (set_picked None (player2 s)) s)
     else Ok s);
  p2_check xy rng s.

(** [on_click(button)] with the clicked button given by its place in
    [cells]. The closing [if self.check_win(): return] only recolours
    buttons and is left out. *)
Definition on_click (button : nat * nat) (rng : list nat) (s : BoardGui)
    : res (BoardGui * list nat) :=
  do xy <- getCoordinates button s;
  do p1 <-
    match step (player1 s) with
    | Setup => Ok (p1_setup button xy s)
    | Move => p1_move xy s
    | Remove => p1_remove button xy s
    end;
  let '(returned, s) := p1 in
  if returned then Ok (s, rng)
  else
    let s := toggle s in
    do rm <- randomMove rng s;
    let '(a, b, rng) := rm in
    do c <- cell_at a b s;
    let '(r, i, cell) := c in
    let pos := cpos cell in
    if negb (a =? -1) && negb (b =? -1) then
      do p2 <-
        match step (player2 s) with
        | Setup => p2_setup r i pos rng s
        | Move => p2_move rng s
        | Remove => Ok (false, s, rng)
        end;
      let '(returned, s, rng) := p2 in
      if returned then Ok (s, rng) else Ok (toggle s, rng)
    else Ok (disable_game s, rng).

(** The event loop: one [on_click] per click, all drawing from the same
    generator. *)
Fixpoint run (clicks : list (nat * nat)) (rng : list nat) (s : BoardGui)
    : res (BoardGui * list nat) :=
  match clicks with
  | [] => Ok (s, rng)
  | button :: rest => do r <- on_click button rng s; run rest r.2 r.1
  end.

(** The board of [__init__] with the given marks on its buttons. *)
Definition board_of (marks : list (pos * player)) : list (list Cell) :=
  map (map (fun c =>
              {| cpos := cpos c;
                 text := (list_to_map marks : gmap pos player) !! cpos c |}))
    init_cells.

(** *** Vocabulary of the properties *)

(** A piece at [p] belongs to a completed triple of the table [matches]
    for the side owning [poses]: some triple of the table contains [p]
    and is fully owned. *)
Definition in_mill_of (matches : list (list pos)) (poses : list pos) (p : pos) : bool :=
  existsb (fun m => bool_decide (p ∈ m) && all_in poses m) matches.

(** The same for the table of [check3inRow]: what the code itself counts
    as three in a row. *)
Definition in_mill (poses : list pos) (p : pos) : bool :=
  in_mill_of plausible_matches poses p.

Definition poses_of (pl : player) (s : BoardGui) : list pos :=
  match pl with X => poses (player1 s) | O => poses (player2 s) end.

(** The state after [numWin += 1] for [pl]. *)
Definition bump (pl : player) (s : BoardGui) : BoardGui :=
  match pl with
  | X => set_player1 (bump_numWin (player1 s)) s
  | O => set_player2 (bump_numWin (player2 s)) s
  end.

Definition player_of (pl : player) (s : BoardGui) : NMMPlayer :=
  match pl with X => player1 s | O => player2 s end.

(** [s'] differs from [s] at most in the button texts. *)
Definition only_cells_changed (s s' : BoardGui) : Prop :=
  s' = set_cells (cells s') s.

(** *** Positions reached by play *)

Definition mk_player (st : GameStep) (l : list pos) (n : Z) (p : option pos)
    : NMMPlayer :=
  {| step := st; poses := l; numWin := n; picked := p |}.

(** Two placements each: O holds (3,4) and (3,5). *)
Definition two_each : BoardGui :=
  {| cells := board_of [((0, 3), X); ((1, 3), X); ((3, 4), O); ((3, 5), O)];
     to_move := X;
     player1 := mk_player Setup [(0, 3); (1, 3)] 0 None;
     player2 := mk_player Setup [(3, 4); (3, 5)] 0 None;
     player1tokens := 7; player2tokens := 7 |}.

(** X has then placed on (6,6); O has closed (3,4)-(3,5)-(3,6) and taken
    the piece on (6,6) in the same call. *)
Definition after_O_mill : BoardGui :=
  {| cells := board_of [((0, 3), X); ((1, 3), X);
                        ((3, 4), O); ((3, 5), O); ((3, 6), O)];
     to_move := X;
     player1 := mk_player Setup [(0, 3); (1, 3)] 0 None;
     player2 := mk_player Setup [(3, 4); (3, 5); (3, 6)] 1 None;
     player1tokens := 6; player2tokens := 6 |}.

(** One more placement each: X is one placement away from closing
    (0,3)-(1,3)-(2,3). *)
Definition before_X_mill : BoardGui :=
  {| cells := board_of [((0, 3), X); ((1, 3), X); ((5, 5), X);
                        ((3, 4), O); ((3, 5), O); ((3, 6), O); ((0, 0), O)];
     to_move := X;
     player1 := mk_player Setup [(0, 3); (1, 3); (5, 5)] 0 None;
     player2 := mk_player Setup [(3, 4); (3, 5); (3, 6); (0, 0)] 1 None;
     player1tokens := 5; player2tokens := 5 |}.

(** X has closed its triple and must remove a piece of O. *)
Definition removal_pending : BoardGui :=
  {| cells := board_of [((0, 3), X); ((1, 3), X); ((5, 5), X); ((2, 3), X);
                        ((3, 4), O); ((3, 5), O); ((3, 6), O); ((0, 0), O)];
     to_move := X;
     player1 := mk_player Remove [(0, 3); (1, 3); (5, 5); (2, 3)] 1 None;
     player2 := mk_player Setup [(3, 4); (3, 5); (3, 6); (0, 0)] 1 None;
     player1tokens := 4; player2tokens := 5 |}.

(** A whole game in which O closes the inner square four times during
    placement and twice more by shuttling (2,3)-(1,3), ending with X
    reduced to three pieces and no token left. *)
Definition long_game_clicks : list (nat * nat) :=
  [(0, 0); (0, 1); (0, 2); (1, 0); (1, 1); (1, 2); (3, 0); (3, 1); (3, 4);
   (3, 4); (3, 5); (3, 5); (3, 4); (3, 4); (3, 5); (3, 5); (3, 4)]%nat.

Definition long_game_rng : list nat :=
  [2; 0; 2; 2; 4; 0; 4; 2; 2; 1; 4; 3; 2; 0; 3; 3; 0; 4; 1; 0; 6; 2;
   0; 0; 4; 0; 0; 0; 8; 1; 0; 0; 0; 8; 0; 0; 0; 8; 1; 0]%nat.

Definition three_left : BoardGui :=
  {| cells := board_of [((3, 0), X); ((3, 1), X); ((3, 5), X);
                        ((2, 2), O); ((2, 3), O); ((2, 4), O); ((3, 2), O);
                        ((3, 4), O); ((4, 2), O); ((4, 3), O); ((4, 4), O);
                        ((6, 6), O)];
     to_move := X;
     player1 := mk_player Move [(3, 0); (3, 1); (3, 5)] 0 None;
     player2 := mk_player Move [(2, 2); (2, 4); (4, 2); (4, 4); (3, 2); (3, 4);
                                (4, 3); (6, 6); (2, 3)] 6 None;
     player1tokens := 0; player2tokens := 0 |}.

(** A game without any triple during placement, after which X has
    picked its piece on (4,2), next to the open point (3,2) of the line
    (3,0)-(3,1)-(3,2). *)
Definition quiet_game_clicks : list (nat * nat) :=
  [(3, 0); (3, 1); (4, 0); (0, 0); (0, 1); (0, 2); (6, 2); (6, 1); (1, 2);
   (4, 0)]%nat.

Definition quiet_game_rng : list nat :=
  [1; 0; 1; 1; 2; 0; 2; 1; 3; 3; 3; 4; 4; 2; 5; 2; 5; 0]%nat.

Definition piece_picked : BoardGui :=
  {| cells := board_of [((3, 0), X); ((3, 1), X); ((4, 2), X); ((0, 0), X);
                        ((0, 3), X); ((0, 6), X); ((6, 6), X); ((6, 3), X);
                        ((1, 5), X);
                        ((1, 1), O); ((1, 3), O); ((2, 2), O); ((2, 3), O);
                        ((3, 4), O); ((3, 5), O); ((4, 4), O); ((5, 5), O);
                        ((5, 1), O)];
     to_move := X;
     player1 := mk_player Move [(3, 0); (3, 1); (4, 2); (0, 0); (0, 3); (0, 6);
                                (6, 6); (6, 3); (1, 5)] 0 (Some (4, 2));
     player2 := mk_player Move [(1, 1); (1, 3); (2, 2); (2, 3); (3, 4); (3, 5);
                                (4, 4); (5, 5); (5, 1)] 0 None;
     player1tokens := 0; player2tokens := 0 |}.

(** Inside the call that leads from [two_each] to [after_O_mill]: X has
    placed on (6,6), the turn has been toggled and O has just placed on
    (3,6); the test block of player 2 is about to run. *)
Definition O_placed : BoardGui :=
  {| cells := board_of [((0, 3), X); ((1, 3), X); ((6, 6), X);
                        ((3, 4), O); ((3, 5), O); ((3, 6), O)];
     to_move := O;
     player1 := mk_player Setup [(0, 3); (1, 3); (6, 6)] 0 None;
     player2 := mk_player Setup [(3, 4); (3, 5); (3, 6)] 0 None;
     player1tokens := 6; player2tokens := 6 |}.

(** *** The table of [check3inRow] and the classical board

    The mills of the classical 24-point board that the specification
    assumes, in the coordinates of the cells: the four sides of the
    outer, of the middle and of the inner square, and the four
    connectors. This list follows the specification and is only there
    to be compared with [plausible_matches], the table of the code. *)
Definition spec_mills : list (list pos) :=
  [ (* outer square *)
    [(0, 0); (0, 3); (0, 6)];
    [(6, 0); (6, 3); (6, 6)];
    [(0, 0); (3, 0); (6, 0)];
    [(0, 6); (3, 6); (6, 6)];
    (* middle square *)
    [(1, 1); (1, 3); (1, 5)];
    [(5, 1); (5, 3); (5, 5)];
    [(1, 1); (3, 1); (5, 1)];
    [(1, 5); (3, 5); (5, 5)];
    (* inner square *)
    [(2, 2); (2, 3); (2, 4)];
    [(4, 2); (4, 3); (4, 4)];
    [(2, 2); (3, 2); (4, 2)];
    [(2, 4); (3, 4); (4, 4)];
    (* connectors *)
    [(0, 3); (1, 3); (2, 3)];
    [(4, 3); (5, 3); (6, 3)];
    [(3, 0); (3, 1); (3, 2)];
    [(3, 4); (3, 5); (3, 6)] ].

Definition in_spec_mill (poses : list pos) (p : pos) : bool :=
  in_mill_of spec_mills poses p.

(** The positions of the 24 buttons of [__init__]. *)
Definition cell_positions : list pos := cpos <$> concat init_cells.

(** The triples of buttons that follow each other at distance one on
    the 7 x 7 grid, along a row, a column or a diagonal. *)
Definition adjacent_triples : list (list pos) :=
  p ← cell_positions;
  d ← [(0, 1); (1, 0); (1, 1); (1, -1)];
  let q := (p.1 + d.1, p.2 + d.2) in
  let r := (p.1 + 2 * d.1, p.2 + 2 * d.2) in
  if bool_decide (q ∈ cell_positions) && bool_decide (r ∈ cell_positions)
  then [[p; q; r]] else [].

(** Two triples with the same points. *)
Definition same_triple (m m' : list pos) : bool :=
  forallb (fun p => bool_decide (p ∈ m')) m
  && forallb (fun p => bool_decide (p ∈ m)) m'.

(** *** Positions with a side of the outer square

    Five placements of X and four of O: X has closed (2,2)-(2,3)-(2,4)
    and must remove a piece; O holds the side (0,0)-(0,3)-(0,6) of the
    outer square and a piece on (5,5). *)
Definition O_on_outer_side_clicks : list (nat * nat) :=
  [(2, 0); (2, 1); (6, 0); (6, 2); (2, 2)]%nat.

Definition O_on_outer_side_rng : list nat := [0; 0; 0; 1; 0; 2; 5; 2]%nat.

Definition O_on_outer_side : BoardGui :=
  {| cells := board_of [((2, 2), X); ((2, 3), X); ((2, 4), X); ((6, 0), X);
                        ((6, 6), X);
                        ((0, 0), O); ((0, 3), O); ((0, 6), O); ((5, 5), O)];
     to_move := X;
     player1 := mk_player Remove [(2, 2); (2, 3); (6, 0); (6, 6); (2, 4)] 1 None;
     player2 := mk_player Setup [(0, 0); (0, 3); (0, 6); (5, 5)] 0 None;
     player1tokens := 4; player2tokens := 5 |}.

(** The same after X has clicked the piece on (0,3) and O has answered
    on (6,3). *)
Definition O_outer_side_broken : BoardGui :=
  {| cells := board_of [((2, 2), X); ((2, 3), X); ((2, 4), X); ((6, 0), X);
                        ((6, 6), X);
                        ((0, 0), O); ((0, 6), O); ((5, 5), O); ((6, 3), O)];
     to_move := X;
     player1 := mk_player Setup [(2, 2); (2, 3); (6, 0); (6, 6); (2, 4)] 1 None;
     player2 := mk_player Setup [(0, 0); (0, 6); (5, 5); (6, 3)] 0 None;
     player1tokens := 4; player2tokens := 4 |}.

(** Two placements each: X holds (0,0) and (0,3), one placement away
    from the side (0,0)-(0,3)-(0,6) of the outer square. *)
Definition X_before_outer_side : BoardGui :=
  {| cells := board_of [((0, 0), X); ((0, 3), X); ((5, 1), O); ((6, 3), O)];
     to_move := X;
     player1 := mk_player Setup [(0, 0); (0, 3)] 0 None;
     player2 := mk_player Setup [(5, 1); (6, 3)] 0 None;
     player1tokens := 7; player2tokens := 7 |}.

(** X has then placed on (0,6) and O has answered on (4,2). *)
Definition X_on_outer_side : BoardGui :=
  {| cells := board_of [((0, 0), X); ((0, 3), X); ((0, 6), X);
                        ((5, 1), O); ((6, 3), O); ((4, 2), O)];
     to_move := X;
     player1 := mk_player Setup [(0, 0); (0, 3); (0, 6)] 0 None;
     player2 := mk_player Setup [(5, 1); (6, 3); (4, 2)] 0 None;
     player1tokens := 6; player2tokens := 6 |}.

End Gui.

(** ** Game trees and the promise of alpha-beta *)

Section GameTree.
Context {State Action : Type} (game : Game State Action).

(** The game tree below [s] has height at most [n]: [s] is terminal, or
    every action of [s] has a result whose tree has height at most
    [n - 1]. *)
Fixpoint height_le (n : nat) (s : State) : Prop :=
  terminal_test game s = true \/
  match n with
  | 0%nat => False
  | S n' =>
      forall a, a ∈ actions game s ->
                exists s', result game s a = Ok s' /\ height_le n' s'
  end.

Definition finite_game_tree (s : State) : Prop := exists n, height_le n s.

(** The minimax value of an action at [state], as [minmax_decision]
    computes it. *)
Definition minimax_value (fuel : nat) (state : State) (a : Action) : res ext :=
  do s' <- result game state a;
  MinMax.min_value game (to_move game state) fuel s'.

(** What alpha-beta promises about its result [r] when the minimax value
    is [e] and the window is [(alpha, beta)]: equal to [e] inside the
    window, a bound on the proper side outside. *)
Definition bound_ok (r e alpha beta : ext) : Prop :=
  (ext_leb r alpha = true -> ext_leb e r = true) /\
  (ext_geb r beta = true -> ext_leb r e = true) /\
  (ext_ltb alpha r = true -> ext_ltb r beta = true ->
   ext_leb r e = true /\ ext_leb e r = true).

Variable player : player.

(** A child on which plain minimax returns the finite value [m] and
    alpha-beta, for every window, a result within its promise. *)
Definition child_ok (child_mm : State -> res ext)
    (child_ab : State -> ext -> ext -> res ext) (s : State) (a : Action) : Prop :=
  exists s' m,
    result game s a = Ok s' /\
    child_mm s' = Ok (Fin m) /\
    forall alpha beta, ext_ltb alpha beta = true ->
      exists c, child_ab s' alpha beta = Ok c /\ bound_ok c (Fin m) alpha beta.

(** On a tree of height at most [n] and with more than [n] units of
    fuel, minimax returns a finite value at a max node and at a min node,
    and alpha-beta keeps its promise for every window. *)
Definition max_node_ok (fuel : nat) (s : State) : Prop :=
  exists m,
    MinMax.max_value game player fuel s = Ok (Fin m) /\
    forall alpha beta, ext_ltb alpha beta = true ->
      exists r, AlphaBeta.max_value game player fuel s alpha beta = Ok r /\
                bound_ok r (Fin m) alpha beta.

Definition min_node_ok (fuel : nat) (s : State) : Prop :=
  exists m,
    MinMax.min_value game player fuel s = Ok (Fin m) /\
    forall alpha beta, ext_ltb alpha beta = true ->
      exists r, AlphaBeta.min_value game player fuel s alpha beta = Ok r /\
                bound_ok r (Fin m) alpha beta.

(** The key of [minmax_decision]'s [max]. *)
Definition key (fuel : nat) (s : State) (a : Action) : res ext :=
  do s' <- result game s a; MinMax.min_value game player fuel s'.

End GameTree.

(** ** The expected utility of the specification

    The value the specification gives to an action: the utility of the
    resulting state if it is terminal, otherwise the sum, over all chance
    outcomes of the resulting state, of the outcome's value times the
    probability of the chance. Max and min nodes are as in
    [expect_minmax]. *)
Module ExpectedUtility.
Section ExpectedUtility.
Context {State Action Chance : Type} (game : StochasticGame State Action Chance).
Variable player : player.

Fixpoint weighted_sum (max_value min_value : State -> res num)
    (chs : list Chance) (res_state : State) : res num :=
  match chs with
  | [] => Ok (Rat 0)
  | chance :: rest =>
      let o := outcome game res_state chance in
      do util <- (if decide (state_to_move game o = player)
                  then max_value o else min_value o);
      do tail <- weighted_sum max_value min_value rest res_state;
      Ok (num_add (num_mul util (Rat (probability game chance))) tail)
  end.

Fixpoint max_value (fuel : nat) (state : State) : res num :=
  match fuel with
  | 0%nat => OutOfFuel
  | S fuel' =>
      ExpectMinMax.action_loop (expected_utility fuel') num_max state
        (actions (base game) state) MInf
  end
with min_value (fuel : nat) (state : State) : res num :=
  match fuel with
  | 0%nat => OutOfFuel
  | S fuel' =>
      ExpectMinMax.action_loop (expected_utility fuel') num_min state
        (actions (base game) state) Inf
  end
with expected_utility (fuel : nat) (state : State) (action : Action) : res num :=
  match fuel with
  | 0%nat => OutOfFuel
  | S fuel' =>
      do res_state <- result (base game) state action;
      if terminal_test (base game) res_state
      then Ok (Rat (inject_Z (utility (base game) res_state player)))
      else weighted_sum (max_value fuel') (min_value fuel')
             (chances game res_state) res_state
  end.
End ExpectedUtility.
End ExpectedUtility.

(** ** A small dice game

    Player X chooses between two actions at the root. After [PlayA] one
    of three equally likely rolls follows, each leading to a win for X;
    after [PlayB] one of two rolls follows, a win with probability 3/4
    and a draw with probability 1/4. A roll replaces the dice shown by
    the state, whatever they showed before. *)
Module Dice.
Inductive state :=
| Root | AfterA | AfterB | RolledA | RolledBWin | RolledBDraw | Won | Drawn.
Inductive action := PlayA | PlayB | Finish.
Inductive chance := A1 | A2 | A3 | B1 | B2.

Definition actions (s : state) : list action :=
  match s with
  | Root => [PlayA; PlayB]
  | RolledA | RolledBWin | RolledBDraw => [Finish]
  | _ => []
  end.

Definition result (s : state) (a : action) : res state :=
  match s, a with
  | Root, PlayA => Ok AfterA
  | Root, PlayB => Ok AfterB
  | RolledA, Finish => Ok Won
  | RolledBWin, Finish => Ok Won
  | RolledBDraw, Finish => Ok Drawn
  | _, _ => Ok s
  end.

Definition utility (s : state) (p : player) : Z :=
  match s with
  | Won => if decide (p = X) then 1 else -1
  | _ => 0
  end.

Definition terminal_test (s : state) : bool :=
  match s with Won | Drawn => true | _ => false end.

Definition to_move (s : state) : player :=
  match s with Root => X | _ => O end.

Definition chances (s : state) : list chance :=
  match s with
  | AfterA => [A1; A2; A3]
  | AfterB => [B1; B2]
  | _ => []
  end.

Definition outcome (s : state) (c : chance) : state :=
  match c with
  | A1 | A2 | A3 => RolledA
  | B1 => RolledBWin
  | B2 => RolledBDraw
  end.

Definition probability (c : chance) : Q :=
  match c with
  | A1 | A2 | A3 => 1 # 3
  | B1 => 3 # 4
  | B2 => 1 # 4
  end.
End Dice.

Definition dice_game : StochasticGame Dice.state Dice.action Dice.chance :=
  {| base := {| actions := Dice.actions;
                result := Dice.result;
                utility := Dice.utility;
                terminal_test := Dice.terminal_test;
                to_move := Dice.to_move |};
     chances := Dice.chances;
     outcome := Dice.outcome;
     probability := Dice.probability;
     state_to_move := Dice.to_move |}.

(** ** A small deterministic game

    Nim with one heap: the player to move takes one or two objects, and
    the player who takes the last one wins. *)
Module Nim.
Record state := { heap : nat; mover : player }.

Definition actions (s : state) : list nat :=
  filter (fun a => (a <= heap s)%nat) [1; 2]%nat.

Definition result (s : state) (a : nat) : res state :=
  Ok {| heap := heap s - a; mover := other (mover s) |}.

Definition terminal_test (s : state) : bool := (heap s =? 0)%nat.

Definition utility (s : state) (p : player) : Z :=
  if (heap s =? 0)%nat then (if decide (p = mover s) then -1 else 1) else 0.

Definition to_move (s : state) : player := mover s.

Definition four : state := {| heap := 4; mover := X |}.
End Nim.

Definition nim_game : Game Nim.state nat :=
  {| actions := Nim.actions;
     result := Nim.result;
     utility := Nim.utility;
     terminal_test := Nim.terminal_test;
     to_move := Nim.to_move |}.

(** A state of the 3 x 3 game in which X has taken (1, 1), O is to move
    and two squares are still offered. *)
Definition after_first_move : GameState :=
  {| gs_to_move := O; gs_utility := 0;
     gs_board := {[ (1, 1) := X ]}; gs_moves := [(1, 2); (2, 2)] |}.

(** ** The rest of new.py *)

(** [gen_state(to_move, x_positions, o_positions, h, v)]. The moves are
    [list(set(...) - set(...) - set(...))], a list whose order Python
    leaves unspecified; the marks of O are written after those of X. *)
Definition gen_state (to_move : player) (x_positions o_positions : list pos)
    (h v : Z) : GameState :=
  let moves : gset pos :=
    list_to_set (x ← seqZ 1 h; y ← seqZ 1 v; [(x, y)])
      ∖ list_to_set x_positions ∖ list_to_set o_positions in
  let board : gmap pos player :=
    foldl (fun b p => <[p := O]> b)
      (foldl (fun b p => <[p := X]> b) ∅ x_positions) o_positions in
  {| gs_to_move := to_move; gs_utility := 0; gs_board := board;
     gs_moves := elements moves |}.

Module Play.

(** [result] as [play_game] calls it: the move may be [None] (a player
    without a move), which is in no [moves] collection. *)
Definition result_any (self : NMensMorris) (state : GameState) (move : option pos)
    : res GameState :=
  match move with
  | Some m => NMM.result self state m
  | None => Ok state
  end.

Definition mark_string (o : option player) : string :=
  match o with Some X => "X" | Some O => "O" | None => "." end.

Definition newline : string := String (Ascii.ascii_of_nat 10) "".

(** [NMensMorris.display]: the text it prints, when it gets that far. *)
Definition display (self : NMensMorris) (state : GameState) : res string :=
  do game <- getattr state "game";
  match game with
  | ABoard board =>
      Ok (String.concat ""
            (map (fun x =>
                    String.concat ""
                      (map (fun y => mark_string (board !! (x, y)) +:+ " ")
                           (seqZ 1 (v self)))
                    +:+ newline)
                 (seqZ 1 (h self))))
  | _ => Raise (AttributeError "get")
  end.

(** A player: called as [player(game, state)], returns a move or [None]. *)
Definition player_fn : Type := NMensMorris -> GameState -> res (option pos).

(** [random_player] when the generator hands out [r]. *)
Definition random_player (r : nat) : player_fn :=
  fun game state =>
    match NMM.actions game state with
    | [] => Ok None
    | _ => do m <- choice (NMM.actions game state) r; Ok (Some m)
    end.

Definition alpha_beta_player (fuel : nat) : player_fn :=
  fun game state => AlphaBeta.alpha_beta_search fuel state (NMensMorris_game game).

Definition minmax_player (fuel : nat) : player_fn :=
  fun game state => MinMax.minmax_decision fuel state (NMensMorris_game game).

(** One pass of [for player in players]: the state after all players
    have moved, or the printed board and the utility that [play_game]
    returns. *)
Fixpoint play_round (self : NMensMorris) (players : list player_fn)
    (state : GameState) : res (GameState + string * Z) :=
  match players with
  | [] => Ok (inl state)
  | player :: rest =>
      do move <- player self state;
      do state <- result_any self state move;
      if NMM.terminal_test self state then
        do shown <- display self state;
        Ok (inr (shown, NMM.utility self state (NMM.to_move self (initial self))))
      else play_round self rest state
  end.

(** [while True:] *)
Fixpoint play_loop (fuel : nat) (self : NMensMorris) (players : list player_fn)
    (state : GameState) : res (string * Z) :=
  match fuel with
  | 0%nat => OutOfFuel
  | S fuel' =>
      do r <- play_round self players state;
      match r with
      | inl state => play_loop fuel' self players state
      | inr out => Ok out
      end
  end.

Definition play_game (fuel : nat) (self : NMensMorris) (players : list player_fn)
    : res (string * Z) :=
  play_loop fuel self players (initial self).

End Play.

(** The heap game handed to [expect_minmax] as it is: no state has any
    chance. *)
Definition nim_without_dice : StochasticGame Nim.state nat unit :=
  {| base := nim_game;
     chances := fun _ => [];
     outcome := fun s _ => s;
     probability := fun _ => 1%Q;
     state_to_move := Nim.to_move |}.

(** The heap game with one chance after every move: the wind takes what
    is left of the heap, and the game is over. *)
Definition nim_with_wind : StochasticGame Nim.state nat unit :=
  {| base := nim_game;
     chances := fun _ => [tt];
     outcome := fun s _ => {| Nim.heap := 0; Nim.mover := Nim.mover s |};
     probability := fun _ => 1%Q;
     state_to_move := Nim.to_move |}.

(** A line of [player]'s marks through [move] in direction [delta]:
    [a] squares forwards and [b] squares backwards, both counted from
    [move] itself, which together span at least [k] squares. *)
Definition line_through (self : NMensMorris) (board : gmap pos player)
    (move : pos) (player : player) (delta : pos) : Prop :=
  exists a b : Z,
    0 <= a /\ 0 <= b /\ k self <= a + b - 1 /\
    (forall i, 0 <= i < a ->
       board !! (move.1 + i * delta.1, move.2 + i * delta.2) = Some player) /\
    (forall i, 0 <= i < b ->
       board !! (move.1 - i * delta.1, move.2 - i * delta.2) = Some player).

(** The four directions tried by [compute_utility]. *)
Definition directions : list pos := [(0, 1); (1, 0); (1, -1); (1, 1)].

(** A board for the 3 x 3 game with X on the whole first row. *)
Definition top_row_X : gmap pos player :=
  {[ (1, 1) := X; (1, 2) := X; (1, 3) := X ]}.

(** ** The rest of nMensMorrisGame.py *)

Module GuiMore.
Import Gui.

(** [reset]: tokens, pieces, counters, picks and steps of both players
    are set back and every button gets [text=""]; [self.to_move] is not
    assigned. *)
Definition reset (s : BoardGui) : BoardGui :=
  let s := set_player1tokens 9 s in
  let s := set_player2tokens 9 s in
  let s := set_player1 (set_poses [] (player1 s)) s in
  let s := set_player2 (set_poses [] (player2 s)) s in
  let s := set_player1 (set_numWin 0 (player1 s)) s in
  let s := set_player2 (set_numWin 0 (player2 s)) s in
  let s := set_player1 (set_picked None (player1 s)) s in
  let s := set_player2 (set_picked None (player2 s)) s in
  let s := set_player1 (set_step Setup (player1 s)) s in
  let s := set_player2 (set_step Setup (player2 s)) s in
  set_cells (map (map (fun c => {| cpos := cpos c; text := None |})) (cells s)) s.

(** Where the buttons are: the [pos] of every cell, row by row. *)
Definition layout (s : BoardGui) : list (list pos) := map (map cpos) (cells s).

(** The number of buttons showing the mark of [p]. *)
Definition mark_weight (p : player) (t : option player) : nat :=
  if decide (t = Some p) then 1%nat else 0%nat.

Definition count_mark (p : player) (l : list Cell) : nat :=
  length (filter (fun c => text c = Some p) l).

Definition marks (p : player) (s : BoardGui) : nat :=
  count_mark p (concat (cells s)).

(** The cell behind the button at place [(r, i)]. *)
Definition button_at (r i : nat) (s : BoardGui) : option Cell :=
  cells s !! r ≫= (fun row => row !! i).

(** Pieces on the board plus tokens in hand, for each player. *)
Definition material1 (s : BoardGui) : Z :=
  Z.of_nat (length (poses (player1 s))) + player1tokens s.
Definition material2 (s : BoardGui) : Z :=
  Z.of_nat (length (poses (player2 s))) + player2tokens s.

(** From [s] to [s'] no token and no material has been gained, and no
    token count has become negative. *)
Definition material_le (s s' : BoardGui) : Prop :=
  player1tokens s' <= player1tokens s /\
  player2tokens s' <= player2tokens s /\
  (0 <= player1tokens s -> 0 <= player1tokens s') /\
  (0 <= player2tokens s -> 0 <= player2tokens s') /\
  material1 s' <= material1 s /\
  material2 s' <= material2 s.

(** Between [s] and [s'] only button texts, counters, steps and picks
    may differ. *)
Definition kept (s s' : BoardGui) : Prop :=
  layout s' = layout s /\
  to_move s' = to_move s /\
  poses (player1 s') = poses (player1 s) /\
  poses (player2 s') = poses (player2 s) /\
  player1tokens s' = player1tokens s /\
  player2tokens s' = player2tokens s.

(** The game is over for the code: [check_win] holds, or [disable_game]
    has blanked the board. *)
Definition all_blank (s : BoardGui) : Prop :=
  forall c, c ∈ concat (cells s) -> text c = None.

(** What every branch of [on_click] keeps between two toggles of
    [to_move]. *)
Definition step_ok (s s' : BoardGui) : Prop :=
  layout s' = layout s /\ to_move s' = to_move s /\ material_le s s'.

(** [piece_picked] after the piece on (4,2) has gone to (3,2). *)
Definition piece_moved : BoardGui :=
  set_text 4 0 None (set_text 3 2 (Some X) piece_picked).

(** A position in which the only piece of player 2, on (0,0), has no
    vacant cell around it, and one in which the five pieces of player 1
    all stand in completed triples. *)
Definition blocked_O : BoardGui :=
  {| cells := board_of [((0, 0), O); ((0, 3), X); ((1, 1), X)];
     to_move := O;
     player1 := mk_player Move [(0, 3); (1, 1)] 0 None;
     player2 := mk_player Move [(0, 0)] 0 None;
     player1tokens := 0; player2tokens := 0 |}.

Definition all_protected : BoardGui :=
  {| cells := board_of [((2, 2), X); ((2, 3), X); ((2, 4), X); ((3, 2), X);
                        ((4, 2), X); ((0, 0), O); ((0, 3), O); ((0, 6), O)];
     to_move := O;
     player1 := mk_player Move [(2, 2); (2, 3); (2, 4); (3, 2); (4, 2)] 2 None;
     player2 := mk_player Move [(0, 0); (0, 3); (0, 6)] 0 None;
     player1tokens := 0; player2tokens := 0 |}.

(** The state in which [on_click] leaves the board when, after the first
    placement of player 1 on (0,0), the fifty trials of [randomMove] all
    hit that cell. *)
Definition no_free_cell_found : BoardGui :=
  {| cells := init_cells; to_move := O;
     player1 := mk_player Setup [(0, 0)] 0 None; player2 := new_player;
     player1tokens := 8; player2tokens := 9 |}.

(** [three_left] without the piece on (3,5): player 1 is down to two
    pieces; and the same after a click on the piece on (3,0). *)
Definition two_left : BoardGui :=
  set_player1 (set_poses [(3, 0); (3, 1)] (player1 three_left))
    (set_text 3 4 None three_left).

Definition two_left_picked : BoardGui :=
  set_player1 (set_picked (Some (3, 0)) (player1 two_left)) two_left.

End GuiMore.

(** * Properties of new.py *)

(** ** NMensMorris.result *)

Lemma getattr_game (state : GameState) :
  getattr state "game" = Raise (AttributeError "game").
Proof. reflexivity. Qed.

Lemma getattr_field (state : GameState) (name : string) :
  name ∈ GameState_fields <-> exists v, getattr state name = Ok v.
Proof.
  unfold getattr, GameState_fields.
  rewrite !elem_of_cons, elem_of_nil.
  repeat case_decide; split; eauto; try tauto.
  intros [v0 Hv]. discriminate.
Qed.

Lemma result_illegal (self : NMensMorris) (state : GameState) (move : pos) :
  move ∉ gs_moves state -> NMM.result self state move = Ok state.
Proof.
  intros Hnot. unfold NMM.result.
  rewrite bool_decide_eq_false_2 by exact Hnot. reflexivity.
Qed.

Lemma result_legal (self : NMensMorris) (state : GameState) (move : pos) :
  move ∈ gs_moves state ->
  NMM.result self state move = Raise (AttributeError "game").
Proof.
  intros Hin. unfold NMM.result.
  rewrite bool_decide_eq_true_2 by exact Hin. reflexivity.
Qed.

(** C1 (as stated, refuted): it is not the case that [result] fails on
    every action outside [actions(state)]. On the initial state the
    square (1, 1) is not a legal action and [result] returns normally. *)
Lemma result_illegal_action_does_not_fail :
  ~ (forall (self : NMensMorris) (state : GameState) (action : pos),
       (action ∉ NMM.actions self state) ->
       exists e, NMM.result self state action = Raise e).
Proof.
  intros Hall.
  destruct (Hall NMensMorris_default (initial NMensMorris_default) (1, 1))
    as [e He].
  - apply not_elem_of_nil.
  - discriminate He.
Qed.

(** C1 (amended): for every state and every action that is not in
    [actions(state)], [result(state, action)] raises nothing and returns
    the input state itself, unchanged ("Illegal move has no effect"). *)
Theorem result_illegal_action_no_effect
    (self : NMensMorris) (state : GameState) (action : pos) :
  (action ∉ NMM.actions self state) ->
  NMM.result self state action = Ok state.
Proof. apply result_illegal. Qed.

Lemma result_illegal_action_no_effect_witness :
  ((1, 1) ∉ NMM.actions NMensMorris_default after_first_move) /\
  NMM.result NMensMorris_default after_first_move (1, 1) = Ok after_first_move.
Proof.
  assert (Hnot : (1, 1) ∉ NMM.actions NMensMorris_default after_first_move)
    by (apply (bool_decide_unpack _); vm_compute; exact I).
  split; [exact Hnot |].
  exact (result_illegal_action_no_effect
           NMensMorris_default after_first_move (1, 1) Hnot).
Defined.

(** C2: [game] is not a field of the [GameState] tuple; for every state
    and every move in its [moves] collection, [result] fails with an
    attribute error on [state.game], and the only calls of [result] on
    that state that return normally are those with an illegal move, which
    return the state unchanged. *)
Theorem result_legal_move_attribute_error
    (self : NMensMorris) (state : GameState) (move : pos) :
  move ∈ gs_moves state ->
  ("game" ∉ GameState_fields) /\
  NMM.result self state move = Raise (AttributeError "game") /\
  (forall m s', NMM.result self state m = Ok s' ->
                (m ∉ gs_moves state) /\ s' = state).
Proof.
  intros Hin. split; [| split].
  - unfold GameState_fields. rewrite !elem_of_cons, elem_of_nil.
    intros [H | [H | [H | [H | []]]]]; discriminate H.
  - by apply result_legal.
  - intros m s' Hm. destruct (decide (m ∈ gs_moves state)) as [Hl | Hl].
    + rewrite result_legal in Hm by exact Hl. discriminate Hm.
    + rewrite result_illegal in Hm by exact Hl. split; [exact Hl | congruence].
Qed.

Lemma result_legal_move_attribute_error_witness :
  (2, 2) ∈ gs_moves after_first_move /\
  NMM.result NMensMorris_default after_first_move (2, 2)
  = Raise (AttributeError "game").
Proof.
  assert (Hin : (2, 2) ∈ gs_moves after_first_move)
    by (apply (bool_decide_unpack _); vm_compute; exact I).
  split; [exact Hin |].
  exact (proj1 (proj2
    (result_legal_move_attribute_error
       NMensMorris_default after_first_move (2, 2) Hin))).
Defined.

(** C9: the initial state built by [NMensMorris.__init__] has an empty
    [moves] collection, so [actions(initial)] is empty and
    [terminal_test(initial)] is true. *)
Theorem initial_state_is_terminal (self : NMensMorris) :
  gs_moves (initial self) = [] /\
  actions (NMensMorris_game self) (initial self) = [] /\
  terminal_test (NMensMorris_game self) (initial self) = true.
Proof. repeat split. Qed.

(** ** An empty action set at the root *)

Lemma minmax_decision_no_actions {State Action : Type}
    (game : Game State Action) (state : State) (fuel : nat) :
  actions game state = [] ->
  MinMax.minmax_decision fuel state game = Raise ValueError.
Proof. intros H. unfold MinMax.minmax_decision. rewrite H. reflexivity. Qed.

Lemma alpha_beta_search_no_actions {State Action : Type}
    (game : Game State Action) (state : State) (fuel : nat) :
  actions game state = [] ->
  AlphaBeta.alpha_beta_search fuel state game = Ok None.
Proof. intros H. unfold AlphaBeta.alpha_beta_search. rewrite H. reflexivity. Qed.

Lemma alpha_beta_cutoff_search_no_actions {State Action : Type}
    (game : Game State Action) (state : State) (fuel : nat) (d : Z)
    (cutoff_test : option (State -> Z -> bool)) (eval_fn : option (State -> ext)) :
  actions game state = [] ->
  AlphaBetaCutoff.alpha_beta_cutoff_search fuel state game d cutoff_test eval_fn
  = Ok None.
Proof.
  intros H. unfold AlphaBetaCutoff.alpha_beta_cutoff_search. rewrite H. reflexivity.
Qed.

Lemma expect_minmax_no_actions {State Action Chance : Type}
    (game : StochasticGame State Action Chance) (state : State) (fuel : nat) :
  actions (base game) state = [] ->
  ExpectMinMax.expect_minmax fuel state game = Ok None.
Proof. intros H. unfold ExpectMinMax.expect_minmax. rewrite H. reflexivity. Qed.

(** C3 (the code at the failing input): on the initial [NMensMorris]
    state, whose action set is empty, [minmax_decision] raises
    [ValueError], whereas [alpha_beta_search] and
    [alpha_beta_cutoff_search] return [None]; [expect_minmax] returns
    [None] on a finished dice game. *)
Theorem minmax_decision_empty_root_raises (fuel : nat) :
  let game := NMensMorris_game NMensMorris_default in
  let state := initial NMensMorris_default in
  actions game state = [] /\
  MinMax.minmax_decision fuel state game = Raise ValueError /\
  AlphaBeta.alpha_beta_search fuel state game = Ok None /\
  AlphaBetaCutoff.alpha_beta_cutoff_search fuel state game 4 None None = Ok None /\
  actions (base dice_game) Dice.Won = [] /\
  ExpectMinMax.expect_minmax fuel Dice.Won dice_game = Ok None.
Proof. repeat split. Qed.

(** ** expect_minmax on the dice game *)

(** C5 (the code at the failing input): at the root of the dice game
    the expected utility of [PlayA] is 1 and that of [PlayB] is 3/4, but
    [chance_node] divides the weighted sums by the number of chances and
    values the actions at 1/3 and 3/8, so [expect_minmax] returns
    [PlayB]. *)
Theorem expect_minmax_divides_weighted_sum (n : nat) :
  let fuel := S (S (S n)) in
  ExpectedUtility.expected_utility dice_game X fuel Dice.Root Dice.PlayA
    = Ok (Rat 1) /\
  ExpectedUtility.expected_utility dice_game X fuel Dice.Root Dice.PlayB
    = Ok (Rat (3 # 4)) /\
  ExpectMinMax.chance_node dice_game X fuel Dice.Root Dice.PlayA
    = Ok (Rat (1 # 3)) /\
  ExpectMinMax.chance_node dice_game X fuel Dice.Root Dice.PlayB
    = Ok (Rat (3 # 8)) /\
  ExpectMinMax.expect_minmax fuel Dice.Root dice_game = Ok (Some Dice.PlayB).
Proof. repeat split. Qed.

(** * Properties of nMensMorrisGame.py *)

Module GuiFacts.
Import Gui.

Lemma check3inRow_loop_spec matches pl cur_move s :
  check3inRow_loop matches pl cur_move s =
  (in_mill_of matches (poses_of pl s) cur_move,
   if in_mill_of matches (poses_of pl s) cur_move then bump pl s else s).
Proof.
  induction matches as [| m rest IH]; [reflexivity |].
  cbn [check3inRow_loop in_mill_of existsb].
  destruct (bool_decide (cur_move ∈ m)); cbn [andb orb]; [| exact IH].
  destruct pl; cbn [poses_of] in *;
    (destruct (all_in _ m); cbn [orb]; [reflexivity | exact IH]).
Qed.

Lemma check3inRow_spec pl cur_move s :
  check3inRow pl cur_move s =
  (in_mill (poses_of pl s) cur_move,
   if in_mill (poses_of pl s) cur_move then bump pl s else s).
Proof. apply check3inRow_loop_spec. Qed.

Lemma in_mill_exists poses p :
  in_mill poses p = true <->
  exists m, m ∈ plausible_matches /\ p ∈ m /\ (forall q, q ∈ m -> q ∈ poses).
Proof.
  unfold in_mill, in_mill_of, all_in. rewrite existsb_exists.
  split; intros (m & Hm & Hc); exists m.
  - rewrite andb_true_iff, bool_decide_eq_true, forallb_forall in Hc.
    destruct Hc as [Hp Hall]. rewrite list_elem_of_In. repeat split; try done.
    intros q Hq. rewrite list_elem_of_In in Hq.
    specialize (Hall q Hq). by rewrite bool_decide_eq_true in Hall.
  - destruct Hc as [Hp Hall]. rewrite list_elem_of_In in Hm. split; [done |].
    rewrite andb_true_iff, bool_decide_eq_true, forallb_forall. split; [done |].
    intros q Hq. rewrite bool_decide_eq_true. apply Hall. by rewrite list_elem_of_In.
Qed.

Lemma in_mill_elem poses p : in_mill poses p = true -> p ∈ poses.
Proof. rewrite in_mill_exists. intros (m & _ & Hp & Hall). by apply Hall. Qed.

(** Every triple of the table consists of three different points. *)
Lemma plausible_matches_triples m :
  m ∈ plausible_matches -> NoDup m /\ length m = 3%nat.
Proof.
  assert (H : Forall (fun m => NoDup m /\ length m = 3%nat) plausible_matches).
  { apply (bool_decide_unpack _). vm_compute. exact I. }
  rewrite Forall_forall in H. apply H.
Qed.

(** A side with a piece inside a completed triple and another piece
    outside every completed triple owns more than three pieces. *)
Lemma in_mill_length poses p q :
  in_mill poses p = true -> q ∈ poses -> in_mill poses q = false ->
  (3 < length poses)%nat.
Proof.
  intros Hp Hq Hnq. apply in_mill_exists in Hp as (m & Hm & Hpm & Hall).
  destruct (plausible_matches_triples m Hm) as [Hnd Hlen].
  assert (Hqm : q ∉ m).
  { intros Hqm. rewrite <- not_true_iff_false in Hnq. apply Hnq.
    apply in_mill_exists. exists m. by repeat split. }
  assert (Hsub : (q :: m) ⊆+ poses).
  { apply NoDup_submseteq.
    - by constructor.
    - intros x Hx. apply elem_of_cons in Hx as [-> | Hx]; [exact Hq | by apply Hall]. }
  apply submseteq_length in Hsub. cbn [length] in Hsub. lia.
Qed.

(** Clicking, in the ['Remove'] step, a piece of player 2 that lies in a
    completed triple while player 2 owns more than three pieces: the call
    returns at once, and the only change is [player2.numWin += 1]. *)
Lemma on_click_protected_piece s button xy rng :
  step (player1 s) = Remove ->
  getCoordinates button s = Ok xy ->
  in_mill (poses (player2 s)) xy = true ->
  (3 < length (poses (player2 s)))%nat ->
  on_click button rng s = Ok (bump O s, rng).
Proof.
  intros Hstep Hxy Hmill Hlen. unfold on_click.
  rewrite Hxy. cbn [rbind]. rewrite Hstep. unfold p1_remove.
  rewrite bool_decide_eq_true_2 by (by apply in_mill_elem).
  rewrite check3inRow_spec. cbn [poses_of]. rewrite Hmill.
  replace (poses (player2 (bump O s))) with (poses (player2 s)) by reflexivity.
  apply Nat.ltb_lt in Hlen. rewrite Hlen. reflexivity.
Qed.

(** What the loop of [chooseRandomToRemove] returns: the chosen piece is
    outside every completed triple unless the list has at most three
    elements; the pieces of player 1 are untouched. *)
Lemma chooseRandomToRemove_loop_spec lst rng : forall sol s sol' s' rng',
  chooseRandomToRemove_loop lst sol rng s = Ok (sol', s', rng') ->
  in_mill (poses (player1 s)) sol' && (3 <? length lst)%nat = false /\
  poses (player1 s') = poses (player1 s).
Proof.
  induction rng as [| r rng IH]; intros sol s sol' s' rng';
    cbn [chooseRandomToRemove_loop]; rewrite check3inRow_spec; cbn [poses_of];
    destruct (in_mill (poses (player1 s)) sol && (3 <? length lst)%nat) eqn:Hc.
  - discriminate.
  - intros [= <- <- <-]. split; [exact Hc |].
    destruct (in_mill (poses (player1 s)) sol); reflexivity.
  - destruct (choice lst r) as [sol1 | |]; cbn [rbind]; try discriminate.
    intros Hrec. apply IH in Hrec as [H1 H2].
    apply andb_true_iff in Hc as [Hc _]. rewrite Hc in *.
    split; [exact H1 | exact H2].
  - intros [= <- <- <-]. split; [exact Hc |].
    destruct (in_mill (poses (player1 s)) sol); reflexivity.
Qed.

Lemma chooseRandomToRemove_spec lst rng s sol' s' rng' :
  chooseRandomToRemove lst rng s = Ok (sol', s', rng') ->
  in_mill (poses (player1 s)) sol' && (3 <? length lst)%nat = false /\
  poses (player1 s') = poses (player1 s).
Proof.
  unfold chooseRandomToRemove. destruct rng as [| r rng]; [discriminate |].
  destruct (choice lst r) as [sol | |]; cbn [rbind]; try discriminate.
  apply chooseRandomToRemove_loop_spec.
Qed.

(** C6 (amended): in the removal sub-phase, as long as some piece of the
    opponent lies outside every completed triple of the table of
    [check3inRow], a piece inside a completed triple of that table is
    not removed: a click of player 1 on such a piece of player 2 leaves
    the pieces and the board as they were, and the piece that
    [chooseRandomToRemove] picks among player 1's pieces is never inside
    a completed triple of the table. So a piece inside a completed
    triple of the table is removed only when all the remaining pieces of
    its owner are inside such triples. *)
Theorem mill_pieces_protected (s : BoardGui) :
  (forall button xy rng q,
      step (player1 s) = Remove ->
      getCoordinates button s = Ok xy ->
      q ∈ poses (player2 s) -> in_mill (poses (player2 s)) q = false ->
      in_mill (poses (player2 s)) xy = true ->
      exists s', on_click button rng s = Ok (s', rng) /\
                 poses (player2 s') = poses (player2 s) /\
                 cells s' = cells s) /\
  (forall rng q sol s' rng',
      q ∈ poses (player1 s) -> in_mill (poses (player1 s)) q = false ->
      chooseRandomToRemove (poses (player1 s)) rng s = Ok (sol, s', rng') ->
      in_mill (poses (player1 s)) sol = false).
Proof.
  split.
  - intros button xy rng q Hstep Hxy Hq Hnq Hmill.
    exists (bump O s). split; [| split; reflexivity].
    apply (on_click_protected_piece s button xy rng); try done.
    by apply (in_mill_length _ xy q).
  - intros rng q sol s' rng' Hq Hnq Hch.
    apply chooseRandomToRemove_spec in Hch as [Hc _].
    destruct (in_mill (poses (player1 s)) sol) eqn:Hmill; [| reflexivity].
    pose proof (in_mill_length _ sol q Hmill Hq Hnq) as Hlen.
    apply Nat.ltb_lt in Hlen. rewrite Hlen in Hc. discriminate Hc.
Qed.

Lemma two_each_reached :
  run [(0, 1); (1, 1)]%nat [3; 3; 3; 4]%nat init = Ok (two_each, []).
Proof. vm_compute. reflexivity. Qed.

Lemma after_O_mill_reached :
  on_click (6, 2)%nat [3; 5; 2]%nat two_each = Ok (after_O_mill, []).
Proof. vm_compute. reflexivity. Qed.

Lemma before_X_mill_reached :
  on_click (5, 2)%nat [0; 0]%nat after_O_mill = Ok (before_X_mill, []).
Proof. vm_compute. reflexivity. Qed.

Lemma removal_pending_reached :
  on_click (2, 1)%nat [] before_X_mill = Ok (removal_pending, []).
Proof. vm_compute. reflexivity. Qed.

Lemma three_left_reached :
  run long_game_clicks long_game_rng init = Ok (three_left, []).
Proof. vm_compute. reflexivity. Qed.

Lemma piece_picked_reached :
  run quiet_game_clicks quiet_game_rng init = Ok (piece_picked, []).
Proof. vm_compute. reflexivity. Qed.

(** ** check3inRow and numWin *)

Lemma numWin_bump pl s :
  numWin (player_of pl (bump pl s)) = numWin (player_of pl s) + 1.
Proof. destruct pl; reflexivity. Qed.

Lemma check3inRow_true pl cur_move s :
  in_mill (poses_of pl s) cur_move = true ->
  check3inRow pl cur_move s = (true, bump pl s).
Proof. intros H. rewrite check3inRow_spec, H. reflexivity. Qed.

Lemma check3inRow_false pl cur_move s :
  in_mill (poses_of pl s) cur_move = false ->
  check3inRow pl cur_move s = (false, s).
Proof. intros H. rewrite check3inRow_spec, H. reflexivity. Qed.

Lemma chooseRandomToRemove_loop_few lst sol rng s :
  in_mill (poses (player1 s)) sol = true ->
  (length lst <= 3)%nat ->
  chooseRandomToRemove_loop lst sol rng s = Ok (sol, bump X s, rng).
Proof.
  intros Hmill Hlen.
  assert (Hlt : (3 <? length lst)%nat = false) by (apply Nat.ltb_ge; lia).
  destruct rng; cbn [chooseRandomToRemove_loop];
    rewrite check3inRow_true by exact Hmill; rewrite Hlt; reflexivity.
Qed.

Lemma run_app clicks1 : forall clicks2 rng s,
  run (clicks1 ++ clicks2) rng s =
  do r <- run clicks1 rng s; run clicks2 r.2 r.1.
Proof.
  induction clicks1 as [| b rest IH]; intros clicks2 rng s; [reflexivity |].
  cbn [app run]. destruct (on_click b rng s) as [[s1 rng1] | |]; cbn [rbind];
    [apply IH | reflexivity | reflexivity].
Qed.

Lemma iter_bump_fields k s :
  cells (Nat.iter k (bump O) s) = cells s /\
  player1 (Nat.iter k (bump O) s) = player1 s /\
  step (player2 (Nat.iter k (bump O) s)) = step (player2 s) /\
  poses (player2 (Nat.iter k (bump O) s)) = poses (player2 s) /\
  player2tokens (Nat.iter k (bump O) s) = player2tokens s /\
  numWin (player2 (Nat.iter k (bump O) s)) = numWin (player2 s) + Z.of_nat k.
Proof.
  induction k as [| k IH].
  - simpl Nat.iter. repeat split; try reflexivity. lia.
  - destruct IH as (H1 & H2 & H3 & H4 & H5 & H6).
    rewrite Nat.iter_succ.
    cbn [bump set_player2 cells player1 player2 step poses player2tokens
         bump_numWin set_numWin numWin].
    repeat split; try assumption. lia.
Qed.

(** Repeating the click on a protected piece: nothing is played, and
    [player2.numWin] grows by one per click. *)
Lemma run_protected_clicks k : forall s button xy rng,
  step (player1 s) = Remove ->
  getCoordinates button s = Ok xy ->
  in_mill (poses (player2 s)) xy = true ->
  (3 < length (poses (player2 s)))%nat ->
  run (repeat button k) rng s = Ok (Nat.iter k (bump O) s, rng).
Proof.
  induction k as [| k IH]; intros s button xy rng Hstep Hxy Hmill Hlen;
    [reflexivity |].
  cbn [repeat run].
  rewrite (on_click_protected_piece s button xy rng Hstep Hxy Hmill Hlen).
  cbn [rbind fst snd]. rewrite (IH (bump O s) button xy rng); try assumption.
  by rewrite Nat.iter_succ_r.
Qed.

(** C10: [check3inRow] is not a pure query. Every call that finds a
    completed triple through the queried position returns [True] and has
    incremented the owner's [numWin]; this includes the calls that only
    test whether a removal target is protected, in [on_click] (where the
    call returns with nothing else changed) and in the loop of
    [chooseRandomToRemove]. Hence play from the initial position reaches,
    for every [k], a state in which player 2 has placed four pieces and
    moved none, while its [numWin] is [1 + k]. *)
Theorem check3inRow_increments_numWin :
  (forall s pl cur_move,
      in_mill (poses_of pl s) cur_move = true ->
      check3inRow pl cur_move s = (true, bump pl s) /\
      numWin (player_of pl (bump pl s)) = numWin (player_of pl s) + 1) /\
  (forall s button xy rng,
      step (player1 s) = Remove ->
      getCoordinates button s = Ok xy ->
      in_mill (poses (player2 s)) xy = true ->
      (3 < length (poses (player2 s)))%nat ->
      on_click button rng s = Ok (bump O s, rng)) /\
  (forall s sol rng lst,
      in_mill (poses (player1 s)) sol = true ->
      (length lst <= 3)%nat ->
      chooseRandomToRemove_loop lst sol rng s = Ok (sol, bump X s, rng)) /\
  (forall k : nat, exists clicks rng s',
      run clicks rng init = Ok (s', []) /\
      step (player2 s') = Setup /\
      player2tokens s' = 5 /\
      numWin (player2 s') = 1 + Z.of_nat k).
Proof.
  split; [| split; [| split]].
  - intros s pl cur_move H. split; [by apply check3inRow_true | apply numWin_bump].
  - apply on_click_protected_piece.
  - intros s sol rng lst. apply chooseRandomToRemove_loop_few.
  - intros k.
    exists ([(0, 1); (1, 1); (6, 2); (5, 2); (2, 1)]%nat ++ repeat (3, 3)%nat k),
           [3; 3; 3; 4; 3; 5; 2; 0; 0]%nat,
           (Nat.iter k (bump O) removal_pending).
    split.
    + rewrite run_app.
      replace (run [(0, 1); (1, 1); (6, 2); (5, 2); (2, 1)]%nat
                 [3; 3; 3; 4; 3; 5; 2; 0; 0]%nat init)
        with (Ok (removal_pending, @nil nat)) by (vm_compute; reflexivity).
      cbn [rbind fst snd].
      apply (run_protected_clicks k removal_pending (3, 3)%nat (3, 4));
        vm_compute; (reflexivity || lia).
    + destruct (iter_bump_fields k removal_pending) as (_ & _ & H3 & _ & H5 & H6).
      rewrite H3, H5, H6. repeat split.
Qed.

Lemma check3inRow_increments_numWin_witness :
  step (player1 removal_pending) = Remove /\
  getCoordinates (3, 3)%nat removal_pending = Ok (3, 4) /\
  in_mill (poses (player2 removal_pending)) (3, 4) = true /\
  (3 < length (poses (player2 removal_pending)))%nat /\
  on_click (3, 3)%nat [] removal_pending = Ok (bump O removal_pending, []).
Proof.
  assert (H1 : step (player1 removal_pending) = Remove) by reflexivity.
  assert (H2 : getCoordinates (3, 3)%nat removal_pending = Ok (3, 4)) by reflexivity.
  assert (H3 : in_mill (poses (player2 removal_pending)) (3, 4) = true)
    by (vm_compute; reflexivity).
  assert (H4 : (3 < length (poses (player2 removal_pending)))%nat)
    by (vm_compute; lia).
  refine (conj H1 (conj H2 (conj H3 (conj H4 _)))).
  exact (proj1 (proj2 check3inRow_increments_numWin)
           removal_pending (3, 3)%nat (3, 4) [] H1 H2 H3 H4).
Defined.

Lemma mill_pieces_protected_witness :
  step (player1 removal_pending) = Remove /\
  getCoordinates (3, 3)%nat removal_pending = Ok (3, 4) /\
  (0, 0) ∈ poses (player2 removal_pending) /\
  in_mill (poses (player2 removal_pending)) (0, 0) = false /\
  in_mill (poses (player2 removal_pending)) (3, 4) = true /\
  exists s', on_click (3, 3)%nat [] removal_pending = Ok (s', []) /\
             poses (player2 s') = poses (player2 removal_pending) /\
             cells s' = cells removal_pending.
Proof.
  assert (H1 : step (player1 removal_pending) = Remove) by reflexivity.
  assert (H2 : getCoordinates (3, 3)%nat removal_pending = Ok (3, 4)) by reflexivity.
  assert (H3 : (0, 0) ∈ poses (player2 removal_pending))
    by (apply (bool_decide_unpack _); vm_compute; exact I).
  assert (H4 : in_mill (poses (player2 removal_pending)) (0, 0) = false)
    by (vm_compute; reflexivity).
  assert (H5 : in_mill (poses (player2 removal_pending)) (3, 4) = true)
    by (vm_compute; reflexivity).
  refine (conj H1 (conj H2 (conj H3 (conj H4 (conj H5 _))))).
  exact (proj1 (mill_pieces_protected removal_pending)
           (3, 3)%nat (3, 4) [] (0, 0) H1 H2 H3 H4 H5).
Defined.

(** ** Moves *)

Lemma neighbourhood_elem x y p :
  p ∈ neighbourhood x y -> -1 <= p.1 - x <= 1 /\ -1 <= p.2 - y <= 1.
Proof.
  change (neighbourhood x y) with
    [(x + -1, y + -1); (x + -1, y + 0); (x + -1, y + 1);
     (x + 0, y + -1); (x + 0, y + 0); (x + 0, y + 1);
     (x + 1, y + -1); (x + 1, y + 0); (x + 1, y + 1)].
  rewrite !elem_of_cons, elem_of_nil.
  intros H. repeat (destruct H as [-> | H]; [cbn [fst snd]; lia |]).
  destruct H.
Qed.

(** [move] succeeds only towards a vacant cell among the eight squares
    around [start], whatever the number of pieces of the mover. *)
Lemma move_only_to_neighbour start end_ s s' :
  move start end_ s = Ok (true, s') ->
  end_ ∈ vacant_cells s /\
  -1 <= end_.1 - start.1 <= 1 /\ -1 <= end_.2 - start.2 <= 1.
Proof.
  unfold move.
  destruct (bool_decide (end_ ∈ getAvailableMoves start s)) eqn:Hlegal;
    cbn [negb]; [| discriminate].
  intros _. apply bool_decide_eq_true in Hlegal.
  unfold getAvailableMoves, getAvailableMovesForPos in Hlegal.
  apply list_elem_of_filter in Hlegal as [Hvac Hnb]. split; [exact Hvac |].
  by apply neighbourhood_elem.
Qed.

(** C7 (the code at the failing input): play reaches [three_left], where
    X has exactly three pieces on the board and no token left. The point
    (0,0) is vacant, yet [move] refuses to take the piece on (3,5) there:
    after picking (3,5), the click on (0,0) changes nothing. The only
    target offered to that piece is the neighbouring point (3,6). *)
Theorem three_piece_side_cannot_fly :
  run long_game_clicks long_game_rng init = Ok (three_left, []) /\
  player1tokens three_left = 0 /\
  poses (player1 three_left) = [(3, 0); (3, 1); (3, 5)] /\
  (0, 0) ∈ vacant_cells three_left /\
  getAvailableMoves (3, 5) three_left = [(3, 6)] /\
  move (3, 5) (0, 0) three_left = Ok (false, three_left) /\
  (forall rng,
      run [(3, 4); (0, 0)]%nat rng three_left =
      Ok (set_player1 (set_picked (Some (3, 5)) (player1 three_left)) three_left,
          rng)).
Proof.
  split; [exact three_left_reached |].
  split; [reflexivity |]. split; [reflexivity |].
  split; [apply (bool_decide_unpack _); vm_compute; exact I |].
  split; [vm_compute; reflexivity |].
  split; [vm_compute; reflexivity |].
  intros rng. vm_compute. reflexivity.
Qed.

(** ** What a call leaves alone *)

Lemma only_cells_changed_refl s : only_cells_changed s s.
Proof. destruct s; reflexivity. Qed.

Lemma only_cells_changed_set_text r i t s s' :
  only_cells_changed s s' -> only_cells_changed s (set_text r i t s').
Proof. unfold only_cells_changed. intros ->. reflexivity. Qed.

Lemma move_inner_frame s sr si sCell er end_ erow s' :
  move_inner s sr si sCell er end_ erow = Some s' -> only_cells_changed s s'.
Proof.
  induction erow as [| [ei eCell] rest IH]; cbn [move_inner]; [discriminate |].
  repeat case_decide; try exact IH.
  intros [= <-]. do 2 apply only_cells_changed_set_text.
  apply only_cells_changed_refl.
Qed.

Lemma move_outer_frame s sr a start end_ srow b s' :
  move_outer s sr a start end_ srow = Ok (b, s') -> only_cells_changed s s'.
Proof.
  induction srow as [| [si sCell] rest IH]; cbn [move_outer].
  - intros [= <- <-]. apply only_cells_changed_refl.
  - repeat case_decide; try exact IH; try discriminate.
    destruct (norm_index _ a) as [er |]; [| discriminate].
    destruct (py_index (cells s) a) as [erow | |]; cbn [rbind]; try discriminate.
    destruct (move_inner _ _ _ _ _ _ _) as [s1 |] eqn:Hin; [| exact IH].
    intros [= <- <-]. by apply move_inner_frame in Hin.
Qed.

Lemma move_frame start end_ s b s' :
  move start end_ s = Ok (b, s') -> only_cells_changed s s'.
Proof.
  unfold move. destruct (negb _).
  - intros [= <- <-]. apply only_cells_changed_refl.
  - destruct start as [x y], end_ as [a c].
    destruct (norm_index _ x) as [sr |]; [| discriminate].
    destruct (py_index (cells s) x) as [srow | |]; cbn [rbind]; try discriminate.
    apply move_outer_frame.
Qed.

Lemma config_button_frame p t s s' :
  config_button p t s = Ok s' -> only_cells_changed s s'.
Proof.
  unfold config_button. destruct (getButton p s) as [[[r i] |] | |];
    cbn [rbind]; try discriminate.
  intros [= <-]. apply only_cells_changed_set_text, only_cells_changed_refl.
Qed.

Lemma list_remove_length x l l' :
  list_remove x l = Ok l' -> length l = S (length l').
Proof.
  revert l'. induction l as [| y l IH]; intros l'; cbn [list_remove];
    [discriminate |].
  case_decide.
  - by intros [= <-].
  - destruct (list_remove x l) as [r | |]; cbn [rbind]; try discriminate.
    intros [= <-]. cbn [length]. f_equal. by apply IH.
Qed.

(** [chooseRandomToRemove] changes nothing but [player1.numWin]. *)
Lemma set_numWin_same s : s = set_player1 (set_numWin (numWin (player1 s)) (player1 s)) s.
Proof. destruct s as [? ? [] ? ? ?]; reflexivity. Qed.

Lemma chooseRandomToRemove_loop_frame lst rng : forall sol s sol' s' rng',
  chooseRandomToRemove_loop lst sol rng s = Ok (sol', s', rng') ->
  exists n, s' = set_player1 (set_numWin n (player1 s)) s.
Proof.
  induction rng as [| r rng IH]; intros sol s sol' s' rng';
    cbn [chooseRandomToRemove_loop]; rewrite check3inRow_spec; cbn [poses_of];
    destruct (in_mill (poses (player1 s)) sol && (3 <? length lst)%nat) eqn:Hc.
  - discriminate.
  - intros [= <- <- <-]. destruct (in_mill (poses (player1 s)) sol).
    + by exists (numWin (player1 s) + 1).
    + exists (numWin (player1 s)). apply set_numWin_same.
  - destruct (choice lst r) as [sol1 | |]; cbn [rbind]; try discriminate.
    intros Hrec. apply IH in Hrec as [n ->]. exists n.
    apply andb_true_iff in Hc as [-> _]. reflexivity.
  - intros [= <- <- <-]. destruct (in_mill (poses (player1 s)) sol).
    + by exists (numWin (player1 s) + 1).
    + exists (numWin (player1 s)). apply set_numWin_same.
Qed.

Lemma chooseRandomToRemove_frame lst rng s sol' s' rng' :
  chooseRandomToRemove lst rng s = Ok (sol', s', rng') ->
  exists n, s' = set_player1 (set_numWin n (player1 s)) s.
Proof.
  unfold chooseRandomToRemove. destruct rng as [| r rng]; [discriminate |].
  destruct (choice lst r) as [sol | |]; cbn [rbind]; try discriminate.
  apply chooseRandomToRemove_loop_frame.
Qed.

(** ** A triple closed by player 1 *)

Lemma on_click_setup_mill s button xy rng :
  step (player1 s) = Setup ->
  getCoordinates button s = Ok xy ->
  to_move s = X ->
  1 <= player1tokens s ->
  in_mill (poses (player1 s) ++ [xy]) xy = true ->
  exists s', on_click button rng s = Ok (s', rng) /\
             step (player1 s') = Remove /\
             to_move s' = to_move s /\
             poses (player1 s') = poses (player1 s) ++ [xy] /\
             poses (player2 s') = poses (player2 s).
Proof.
  intros Hstep Hxy Hto Htok Hmill. unfold on_click.
  rewrite Hxy. cbn [rbind]. rewrite Hstep. cbn [rbind]. unfold p1_setup.
  destruct (1 <? player1tokens s) eqn:Ht.
  - rewrite check3inRow_true by (cbn -[in_mill]; rewrite Hto; exact Hmill).
    cbn -[in_mill]. rewrite Hto. eexists. split; [reflexivity |].
    cbn. rewrite ?Hto. repeat split.
  - assert (Hone : (player1tokens s =? 1) = true) by lia. rewrite Hone.
    rewrite check3inRow_true by (cbn -[in_mill]; rewrite Hto; exact Hmill).
    cbn -[in_mill]. rewrite Hto. eexists. split; [reflexivity |].
    cbn. rewrite ?Hto. repeat split.
Qed.

Lemma on_click_move_mill s button xy rng start s1 l :
  step (player1 s) = Move ->
  getCoordinates button s = Ok xy ->
  to_move s = X ->
  (xy ∉ poses (player1 s)) ->
  picked (player1 s) = Some start ->
  move start xy s = Ok (true, s1) ->
  list_remove start (poses (player1 s)) = Ok l ->
  in_mill (l ++ [xy]) xy = true ->
  exists s', on_click button rng s = Ok (s', rng) /\
             step (player1 s') = Remove /\
             to_move s' = to_move s /\
             poses (player1 s') = l ++ [xy] /\
             poses (player2 s') = poses (player2 s).
Proof.
  intros Hstep Hxy Hto Hnot Hpick Hmove Hrem Hmill. unfold on_click.
  rewrite Hxy. cbn [rbind]. rewrite Hstep. unfold p1_move.
  rewrite bool_decide_eq_false_2 by exact Hnot. rewrite Hpick, Hmove.
  cbn [rbind]. apply move_frame in Hmove. rewrite Hmove.
  cbn [set_cells player1 player2 to_move]. rewrite Hrem. cbn [rbind].
  rewrite check3inRow_true by (cbn -[in_mill]; rewrite Hto; exact Hmill).
  cbn -[in_mill]. rewrite Hto. eexists. split; [reflexivity |].
  cbn. rewrite ?Hto. repeat split.
Qed.

(** ** A triple closed by player 2 *)

Lemma p2_remove_spec rng s b s' rng' :
  p2_remove rng s = Ok (b, s', rng') ->
  length (poses (player1 s)) = S (length (poses (player1 s'))) /\
  (step (player2 s) <> Remove -> step (player2 s') <> Remove) /\
  to_move s' = to_move s.
Proof.
  unfold p2_remove.
  destruct (chooseRandomToRemove _ rng s) as [[[rem s1] rng1] | |] eqn:Hch;
    cbn [rbind]; try discriminate.
  apply chooseRandomToRemove_frame in Hch as [n ->].
  cbn [set_player1 set_numWin player1 poses].
  destruct (list_remove rem (poses (player1 s))) as [l | |] eqn:Hrem;
    cbn [rbind]; try discriminate.
  apply list_remove_length in Hrem.
  destruct (config_button rem None _) as [s2 | |] eqn:Hcfg;
    cbn [rbind]; try discriminate.
  apply config_button_frame in Hcfg. rewrite Hcfg.
  destruct (check_win _); [| destruct (_ =? 0)]; intros [= <- <- <-];
    cbn; (split; [exact Hrem | split; [intros H; congruence || exact H | reflexivity]]).
Qed.

Lemma p2_check_mill pos rng s b s' rng' :
  in_mill (poses_of (to_move s) s) pos = true ->
  p2_check pos rng s = Ok (b, s', rng') ->
  length (poses (player1 s)) = S (length (poses (player1 s'))) /\
  (step (player2 s) <> Remove -> step (player2 s') <> Remove) /\
  to_move s' = to_move s.
Proof.
  intros Hmill. unfold p2_check. rewrite check3inRow_true by exact Hmill.
  intros Hrem. apply p2_remove_spec in Hrem.
  destruct (to_move s) eqn:Hto; cbn in Hrem; rewrite Hto in Hrem; exact Hrem.
Qed.

(** ** Player 2 never enters the ['Remove'] step *)

Lemma check3inRow_step2 pl p s :
  step (player2 (check3inRow pl p s).2) = step (player2 s).
Proof.
  rewrite check3inRow_spec. cbn [snd].
  destruct (in_mill _ p); [destruct pl |]; reflexivity.
Qed.

Lemma p1_setup_step2 button xy s :
  step (player2 (p1_setup button xy s).2) = step (player2 s).
Proof.
  unfold p1_setup.
  match goal with
  | |- context [check3inRow ?pl xy ?s0] =>
      pose proof (check3inRow_step2 pl xy s0) as H;
      destruct (check3inRow pl xy s0) as [c s1]
  end.
  cbn [snd] in H.
  assert (step (player2 s1) = step (player2 s)) as Hs.
  { rewrite H. destruct (1 <? _); [reflexivity |]. destruct (_ =? 1); reflexivity. }
  destruct c; exact Hs.
Qed.

Lemma p1_move_step2 xy s b s' :
  p1_move xy s = Ok (b, s') -> step (player2 s') = step (player2 s).
Proof.
  unfold p1_move. destruct (bool_decide _); [by intros [= <- <-] |].
  destruct (picked (player1 s)) as [start |]; [| by intros [= <- <-]].
  destruct (move start xy s) as [[moved s1] | |] eqn:Hmove; cbn [rbind];
    try discriminate.
  apply move_frame in Hmove.
  assert (Hs1 : step (player2 s1) = step (player2 s)) by (by rewrite Hmove).
  destruct moved; [| by intros [= <- <-]].
  destruct (list_remove start _) as [l | |]; cbn [rbind]; try discriminate.
  match goal with
  | |- context [check3inRow ?pl xy ?s0] =>
      pose proof (check3inRow_step2 pl xy s0) as H;
      destruct (check3inRow pl xy s0) as [c s2]
  end.
  cbn [snd] in H. cbn in H.
  destruct c; intros [= <- <-]; cbn; congruence.
Qed.

Lemma p1_remove_step2 button xy s b s' :
  p1_remove button xy s = Ok (b, s') -> step (player2 s') = step (player2 s).
Proof.
  unfold p1_remove. destruct (bool_decide _); [| by intros [= <- <-]].
  pose proof (check3inRow_step2 O xy s) as H.
  destruct (check3inRow O xy s) as [c s1]. cbn [snd] in H.
  destruct (c && _); [intros [= <- <-]; exact H |].
  destruct (list_remove xy _) as [l | |]; cbn [rbind]; try discriminate.
  destruct (check_win _); [| destruct (_ =? 0)]; intros [= <- <-]; exact H.
Qed.

Lemma p2_check_step2 pos rng s b s' rng' :
  p2_check pos rng s = Ok (b, s', rng') ->
  step (player2 s) <> Remove -> step (player2 s') <> Remove.
Proof.
  unfold p2_check.
  pose proof (check3inRow_step2 (to_move s) pos s) as H.
  destruct (check3inRow (to_move s) pos s) as [c s1]. cbn [snd] in H.
  destruct c.
  - intros Hrem Hs. apply p2_remove_spec in Hrem as (_ & Hrem & _).
    apply Hrem. by rewrite H.
  - intros [= <- <- <-] Hs. by rewrite H.
Qed.

Lemma p2_setup_step2 r i pos rng s b s' rng' :
  p2_setup r i pos rng s = Ok (b, s', rng') ->
  step (player2 s) <> Remove -> step (player2 s') <> Remove.
Proof.
  unfold p2_setup. intros Hchk Hs. apply p2_check_step2 in Hchk; [exact Hchk |].
  destruct (1 <? _); [exact Hs |]. destruct (_ =? 1); [discriminate | exact Hs].
Qed.

Lemma p2_move_step2 rng s b s' rng' :
  p2_move rng s = Ok (b, s', rng') ->
  step (player2 s) <> Remove -> step (player2 s') <> Remove.
Proof.
  unfold p2_move.
  destruct (makeRandomMove rng s) as [[[ab xy] rng1] | |]; cbn [rbind];
    try discriminate.
  match goal with
  | |- context [rbind ?m _] => destruct m as [s1 | |] eqn:Hs1
  end; cbn [rbind]; try discriminate.
  intros Hchk Hs. apply p2_check_step2 in Hchk; [exact Hchk |].
  destruct (bool_decide _); [| by injection Hs1 as <-].
  destruct (move ab xy _) as [[moved s2] | |] eqn:Hmove; cbn [rbind] in Hs1;
    try discriminate.
  apply move_frame in Hmove.
  match type of Hs1 with
  | rbind ?m _ = _ => destruct m as [s3 | |] eqn:Hs3
  end; cbn [rbind] in Hs1; try discriminate.
  injection Hs1 as <-. cbn. clear Hchk.
  destruct moved; [| by injection Hs3 as <-; rewrite Hmove].
  destruct (list_remove ab _) as [l | |]; cbn [rbind] in Hs3; try discriminate.
  destruct (config_button xy _ _) as [s4 | |] eqn:Hc1; cbn [rbind] in Hs3;
    try discriminate.
  apply config_button_frame in Hc1. apply config_button_frame in Hs3.
  rewrite Hs3, Hc1, Hmove. exact Hs.
Qed.

Lemma on_click_step2 button rng s s' rng' :
  on_click button rng s = Ok (s', rng') ->
  step (player2 s) <> Remove -> step (player2 s') <> Remove.
Proof.
  unfold on_click.
  destruct (getCoordinates button s) as [xy | |]; cbn [rbind]; try discriminate.
  match goal with
  | |- context [rbind ?m _] => destruct m as [[returned s1] | |] eqn:Hp1
  end; cbn [rbind]; try discriminate.
  assert (H1 : step (player2 s1) = step (player2 s)).
  { destruct (step (player1 s)).
    - injection Hp1 as Hp1. rewrite <- (p1_setup_step2 button xy s).
      by rewrite (surjective_pairing (p1_setup button xy s)) in Hp1;
         injection Hp1 as _ <-.
    - by apply p1_move_step2 in Hp1.
    - by apply p1_remove_step2 in Hp1. }
  destruct returned; [intros [= <- <-] Hs; by rewrite H1 |].
  destruct (randomMove rng (toggle s1)) as [[[a b] rng1] | |]; cbn [rbind];
    try discriminate.
  destruct (cell_at a b (toggle s1)) as [[[r i] cell] | |]; cbn [rbind];
    try discriminate.
  destruct (negb (a =? -1) && negb (b =? -1));
    [| intros [= <- <-] Hs; cbn; by rewrite H1].
  match goal with
  | |- context [rbind ?m _] => destruct m as [[[ret2 s2] rng2] | |] eqn:Hp2
  end; cbn [rbind]; try discriminate.
  intros Hfin Hs.
  assert (H2 : step (player2 s2) <> Remove).
  { destruct (step (player2 (toggle s1))) eqn:Hst.
    - apply p2_setup_step2 in Hp2; [exact Hp2 |]. cbn. by rewrite H1.
    - apply p2_move_step2 in Hp2; [exact Hp2 |]. cbn. by rewrite H1.
    - exfalso. cbn in Hst. congruence. }
  destruct ret2; injection Hfin as <- <-; exact H2.
Qed.

(** ** The table of check3inRow *)

(** The sixteen triples of the table are the triples of buttons that
    follow each other at distance one on the 7 x 7 grid, rows, columns
    and diagonals alike. *)
Lemma plausible_matches_are_adjacent_triples :
  Forall (fun m => Exists (fun m' => same_triple m m' = true) adjacent_triples)
    plausible_matches /\
  Forall (fun m => Exists (fun m' => same_triple m m' = true) plausible_matches)
    adjacent_triples.
Proof. split; apply (bool_decide_unpack _); vm_compute; exact I. Qed.

(** Of the sixteen mills of the classical board the table has the sides
    of the inner square and the connectors; the sides of the outer and
    of the middle square are not in it, and its other eight triples are
    diagonals. *)
Lemma spec_mills_outside_the_table :
  filter (fun m => negb (existsb (same_triple m) plausible_matches)) spec_mills
  = [ [(0, 0); (0, 3); (0, 6)]; [(6, 0); (6, 3); (6, 6)];
      [(0, 0); (3, 0); (6, 0)]; [(0, 6); (3, 6); (6, 6)];
      [(1, 1); (1, 3); (1, 5)]; [(5, 1); (5, 3); (5, 5)];
      [(1, 1); (3, 1); (5, 1)]; [(1, 5); (3, 5); (5, 5)] ] /\
  filter (fun m => negb (existsb (same_triple m) spec_mills)) plausible_matches
  = [ [(0, 0); (1, 1); (2, 2)]; [(0, 6); (1, 5); (2, 4)];
      [(6, 0); (5, 1); (4, 2)]; [(6, 6); (5, 5); (4, 4)];
      [(3, 1); (4, 2); (5, 3)]; [(5, 3); (4, 4); (3, 5)];
      [(3, 1); (2, 2); (1, 3)]; [(1, 3); (2, 4); (3, 5)] ].
Proof. split; vm_compute; reflexivity. Qed.

(** C6 (as stated, refuted): in [O_on_outer_side], reached by five
    clicks from the initial state, a removal is pending for player 1;
    the piece of O on (0,3) belongs to the completed side
    (0,0)-(0,3)-(0,6) of the outer square, a mill of the classical board,
    and the piece of O on (5,5) lies outside every completed triple.
    The click on (0,3) removes that piece. *)
Lemma piece_of_a_spec_mill_is_removed :
  run O_on_outer_side_clicks O_on_outer_side_rng init = Ok (O_on_outer_side, []) /\
  step (player1 O_on_outer_side) = Remove /\
  (5, 5) ∈ poses (player2 O_on_outer_side) /\
  in_spec_mill (poses (player2 O_on_outer_side)) (5, 5) = false /\
  in_mill (poses (player2 O_on_outer_side)) (5, 5) = false /\
  in_spec_mill (poses (player2 O_on_outer_side)) (0, 3) = true /\
  getCoordinates (0, 1)%nat O_on_outer_side = Ok (0, 3) /\
  on_click (0, 1)%nat [6; 1]%nat O_on_outer_side = Ok (O_outer_side_broken, []) /\
  poses (player2 O_outer_side_broken) = [(0, 0); (0, 6); (5, 5); (6, 3)] /\
  ((0, 3) ∉ poses (player2 O_outer_side_broken)).
Proof.
  split; [vm_compute; reflexivity |].
  split; [reflexivity |].
  split; [apply (bool_decide_unpack _); vm_compute; exact I |].
  do 5 (split; [vm_compute; reflexivity |]).
  split; [reflexivity |].
  apply (bool_decide_unpack _). vm_compute. exact I.
Qed.

(** ** C8 *)

(** For player 2 no removal is ever left pending: in [two_each] X places
    on (6,6) and O answers on (3,6), closing (3,4)-(3,5)-(3,6); when the
    call returns the piece on (6,6) has already been taken. *)
Example player2_removes_in_the_same_call :
  on_click (6, 2)%nat [3; 5; 2]%nat two_each = Ok (after_O_mill, []) /\
  ((3, 6) ∉ poses (player2 two_each)) /\
  in_mill (poses (player2 after_O_mill)) (3, 6) = true /\
  numWin (player2 after_O_mill) = numWin (player2 two_each) + 1 /\
  step (player1 after_O_mill) <> Remove /\
  step (player2 after_O_mill) <> Remove /\
  to_move after_O_mill = X /\
  poses (player1 after_O_mill) = [(0, 3); (1, 3)].
Proof.
  split; [exact after_O_mill_reached |].
  split; [apply (bool_decide_unpack _); vm_compute; exact I |].
  split; [vm_compute; reflexivity |].
  repeat split; discriminate.
Qed.

(** C8 (as stated, refuted): in [X_before_outer_side], reached by two
    clicks from the initial state, X is to move and places on (0,6),
    which completes the side (0,0)-(0,3)-(0,6) of the outer square, a
    mill of the classical board. In the state that results no removal is
    pending, no piece of O has been taken, and O has already played its
    answer on (4,2): the turn has passed without any removal. *)
Lemma spec_mill_of_player1_passes_the_turn :
  run [(0, 0); (0, 1)]%nat [5; 0; 6; 1]%nat init = Ok (X_before_outer_side, []) /\
  to_move X_before_outer_side = X /\
  step (player1 X_before_outer_side) = Setup /\
  getCoordinates (0, 2)%nat X_before_outer_side = Ok (0, 6) /\
  in_spec_mill (poses (player1 X_before_outer_side)) (0, 6) = false /\
  on_click (0, 2)%nat [4; 0]%nat X_before_outer_side = Ok (X_on_outer_side, []) /\
  poses (player1 X_on_outer_side) = poses (player1 X_before_outer_side) ++ [(0, 6)] /\
  in_spec_mill (poses (player1 X_on_outer_side)) (0, 6) = true /\
  step (player1 X_on_outer_side) <> Remove /\
  step (player2 X_on_outer_side) <> Remove /\
  poses (player2 X_on_outer_side) = poses (player2 X_before_outer_side) ++ [(4, 2)] /\
  to_move X_on_outer_side = X.
Proof.
  split; [vm_compute; reflexivity |].
  do 2 (split; [reflexivity |]).
  do 3 (split; [vm_compute; reflexivity |]).
  split; [reflexivity |].
  split; [vm_compute; reflexivity |].
  repeat split; discriminate.
Qed.

(** *** The removal of player 2 returns *)

Lemma choice_elem {A} (l : list A) r a : choice l r = Ok a -> a ∈ l.
Proof.
  unfold choice. destruct l as [| x l]; [discriminate |].
  destruct (_ !! _) as [y |] eqn:Hy; [| discriminate].
  intros [= <-]. by eapply list_elem_of_lookup_2.
Qed.

Lemma choice_nonempty {A} (l : list A) r : l <> [] -> exists a, choice l r = Ok a /\ a ∈ l.
Proof.
  intros Hl. unfold choice. destruct l as [| x l]; [done |].
  destruct (lookup_lt_is_Some_2 (x :: l) (r mod length (x :: l))) as [a Ha].
  { apply Nat.mod_upper_bound. cbn. lia. }
  rewrite Ha. exists a. split; [done | by eapply list_elem_of_lookup_2].
Qed.

Lemma list_remove_elem x l : x ∈ l -> exists l', list_remove x l = Ok l'.
Proof.
  induction l as [| y l IH]; [by intros ?%elem_of_nil |].
  intros Hin. cbn [list_remove]. case_decide as Hy; [by eexists |].
  apply elem_of_cons in Hin as [-> | Hin]; [done |].
  destruct (IH Hin) as [l' ->]. cbn [rbind]. by eexists.
Qed.

(** A piece is protected from [chooseRandomToRemove] when it stands in
    a completed triple of the table and the list has more than three
    elements. The loop returns as soon as a piece that is not protected
    is drawn. *)
Lemma chooseRandomToRemove_loop_returns lst rng : forall sol s,
  sol ∈ lst ->
  in_mill (poses (player1 s)) sol && (3 <? length lst)%nat = false \/
  (exists r p, r ∈ rng /\ choice lst r = Ok p /\
               in_mill (poses (player1 s)) p && (3 <? length lst)%nat = false) ->
  exists sol' n rng',
    chooseRandomToRemove_loop lst sol rng s
    = Ok (sol', set_player1 (set_numWin n (player1 s)) s, rng') /\
    sol' ∈ lst /\
    in_mill (poses (player1 s)) sol' && (3 <? length lst)%nat = false.
Proof.
  assert (Hstop : forall rng sol s,
    sol ∈ lst ->
    in_mill (poses (player1 s)) sol && (3 <? length lst)%nat = false ->
    exists sol' n rng',
      chooseRandomToRemove_loop lst sol rng s
      = Ok (sol', set_player1 (set_numWin n (player1 s)) s, rng') /\
      sol' ∈ lst /\
      in_mill (poses (player1 s)) sol' && (3 <? length lst)%nat = false).
  { intros rng0 sol s Hsol Hfree.
    assert (E : chooseRandomToRemove_loop lst sol rng0 s
                = Ok (sol, (check3inRow X sol s).2, rng0)).
    { destruct rng0; cbn [chooseRandomToRemove_loop]; rewrite check3inRow_spec;
        cbn [poses_of snd]; by rewrite Hfree. }
    rewrite E, check3inRow_spec. cbn [poses_of snd].
    destruct (in_mill (poses (player1 s)) sol) eqn:Hm.
    - exists sol, (numWin (player1 s) + 1), rng0. by rewrite Hm.
    - exists sol, (numWin (player1 s)), rng0. rewrite Hm.
      by rewrite <- set_numWin_same. }
  induction rng as [| r0 rng IH]; intros sol s Hsol Hdraw.
  - destruct Hdraw as [Hfree | (r & p & Hr & _)]; [by apply Hstop |].
    by apply elem_of_nil in Hr.
  - destruct (in_mill (poses (player1 s)) sol && (3 <? length lst)%nat) eqn:Hc;
      [| by apply Hstop].
    destruct Hdraw as [Hfree | (r & p & Hr & Hp & Hfree)]; [discriminate |].
    assert (Hne : lst <> []) by (intros ->; by apply elem_of_nil in Hsol).
    destruct (choice_nonempty lst r0 Hne) as (sol1 & Hsol1 & Hin1).
    apply andb_true_iff in Hc as Hc'. destruct Hc' as [Hm _].
    assert (E : chooseRandomToRemove_loop lst sol (r0 :: rng) s
                = chooseRandomToRemove_loop lst sol1 rng (bump X s)).
    { cbn [chooseRandomToRemove_loop]. rewrite check3inRow_spec. cbn [poses_of].
      rewrite Hc, Hm, Hsol1. reflexivity. }
    rewrite E.
    destruct (IH sol1 (bump X s) Hin1) as (sol' & n & rng' & H1 & H2 & H3).
    { apply elem_of_cons in Hr as [-> | Hr].
      - left. rewrite Hsol1 in Hp. injection Hp as ->. exact Hfree.
      - right. by exists r, p. }
    exists sol', n, rng'. split; [exact H1 | split; [exact H2 | exact H3]].
Qed.

Lemma chooseRandomToRemove_returns lst rng s r p :
  r ∈ rng ->
  choice lst r = Ok p ->
  in_mill (poses (player1 s)) p && (3 <? length lst)%nat = false ->
  exists sol n rng',
    chooseRandomToRemove lst rng s
    = Ok (sol, set_player1 (set_numWin n (player1 s)) s, rng') /\
    sol ∈ lst /\
    in_mill (poses (player1 s)) sol && (3 <? length lst)%nat = false.
Proof.
  intros Hr Hp Hfree. unfold chooseRandomToRemove.
  destruct rng as [| r0 rng]; [by apply elem_of_nil in Hr |].
  assert (Hne : lst <> []).
  { apply choice_elem in Hp. intros ->. by apply elem_of_nil in Hp. }
  destruct (choice_nonempty lst r0 Hne) as (sol0 & Hsol0 & Hin0).
  rewrite Hsol0. cbn [rbind].
  apply chooseRandomToRemove_loop_returns; [exact Hin0 |].
  apply elem_of_cons in Hr as [-> | Hr].
  - left. rewrite Hsol0 in Hp. injection Hp as ->. exact Hfree.
  - right. by exists r, p.
Qed.

(** The removal of player 2 as a whole: when every piece of player 1
    stands on a button and the generator draws a piece that is not
    protected, the code returns with one such piece taken. *)
Lemma p2_remove_returns rng s r p :
  (forall q, q ∈ poses (player1 s) -> exists b, getButton q s = Ok (Some b)) ->
  r ∈ rng ->
  choice (poses (player1 s)) r = Ok p ->
  in_mill (poses (player1 s)) p && (3 <? length (poses (player1 s)))%nat = false ->
  exists b s' rng' sol,
    p2_remove rng s = Ok (b, s', rng') /\
    sol ∈ poses (player1 s) /\
    in_mill (poses (player1 s)) sol && (3 <? length (poses (player1 s)))%nat = false /\
    list_remove sol (poses (player1 s)) = Ok (poses (player1 s')) /\
    poses (player2 s') = poses (player2 s) /\
    to_move s' = to_move s.
Proof.
  intros Hbuttons Hr Hp Hfree.
  destruct (chooseRandomToRemove_returns _ rng s r p Hr Hp Hfree)
    as (sol & n & rng' & Hch & Hsol & Hsolfree).
  destruct (list_remove_elem _ _ Hsol) as [l Hl].
  destruct (Hbuttons sol Hsol) as [[r0 i0] Hb].
  unfold p2_remove. rewrite Hch. cbn [rbind].
  cbn [set_player1 set_numWin player1 poses]. rewrite Hl. cbn [rbind].
  unfold config_button.
  match goal with |- context [getButton sol ?s2] =>
    change (getButton sol s2) with (getButton sol s) end.
  rewrite Hb. cbn [rbind].
  match goal with |- context [check_win ?s2] => destruct (check_win s2) end;
    [| match goal with |- context [?t =? 0] => destruct (t =? 0) end];
    eexists _, _, _, sol; (split; [reflexivity |]);
    (split; [exact Hsol |]); (split; [exact Hsolfree |]);
    (split; [exact Hl |]); split; reflexivity.
Qed.

Lemma p2_check_returns pos rng s r p :
  in_mill (poses_of (to_move s) s) pos = true ->
  (forall q, q ∈ poses (player1 s) -> exists b, getButton q s = Ok (Some b)) ->
  r ∈ rng ->
  choice (poses (player1 s)) r = Ok p ->
  in_mill (poses (player1 s)) p && (3 <? length (poses (player1 s)))%nat = false ->
  exists b s' rng' sol,
    p2_check pos rng s = Ok (b, s', rng') /\
    sol ∈ poses (player1 s) /\
    in_mill (poses (player1 s)) sol && (3 <? length (poses (player1 s)))%nat = false /\
    list_remove sol (poses (player1 s)) = Ok (poses (player1 s')) /\
    poses (player2 s') = poses (player2 s) /\
    to_move s' = to_move s.
Proof.
  intros Hmill Hbuttons Hr Hp Hfree. unfold p2_check.
  rewrite check3inRow_true by exact Hmill. clear Hmill.
  generalize (to_move s) at 1. intros pl.
  destruct pl;
    [apply (p2_remove_returns rng (bump X s) r p)
    | apply (p2_remove_returns rng (bump O s) r p)]; assumption.
Qed.

(** C8 (amended): when a placement or a move of player 1, the side to
    move, completes a triple of the table of [check3inRow], [on_click]
    returns with [player1.step = 'Remove'] and [to_move] unchanged, and
    player 2 has not played. Player 2 never enters the ['Remove'] step:
    when the test after its placement or move finds a completed triple
    of the table, the removal is carried out inside the same test block
    with [to_move] unchanged: whenever the block returns it has taken
    exactly one piece of player 1, and it does return, having taken a
    piece that is not protected, when every piece of player 1 stands on
    a button and the generator draws a piece of player 1 that is not
    protected (outside every completed triple of the table, or one of
    at most three). *)
Theorem mill_suspends_turn_of_player1 :
  (forall s button xy rng,
      step (player1 s) = Setup ->
      getCoordinates button s = Ok xy ->
      to_move s = X ->
      1 <= player1tokens s ->
      in_mill (poses (player1 s) ++ [xy]) xy = true ->
      exists s', on_click button rng s = Ok (s', rng) /\
                 step (player1 s') = Remove /\
                 to_move s' = to_move s /\
                 poses (player1 s') = poses (player1 s) ++ [xy] /\
                 poses (player2 s') = poses (player2 s)) /\
  (forall s button xy rng start s1 l,
      step (player1 s) = Move ->
      getCoordinates button s = Ok xy ->
      to_move s = X ->
      (xy ∉ poses (player1 s)) ->
      picked (player1 s) = Some start ->
      move start xy s = Ok (true, s1) ->
      list_remove start (poses (player1 s)) = Ok l ->
      in_mill (l ++ [xy]) xy = true ->
      exists s', on_click button rng s = Ok (s', rng) /\
                 step (player1 s') = Remove /\
                 to_move s' = to_move s /\
                 poses (player1 s') = l ++ [xy] /\
                 poses (player2 s') = poses (player2 s)) /\
  (forall s button rng s' rng',
      on_click button rng s = Ok (s', rng') ->
      step (player2 s) <> Remove -> step (player2 s') <> Remove) /\
  (forall s pos rng b s' rng',
      in_mill (poses_of (to_move s) s) pos = true ->
      p2_check pos rng s = Ok (b, s', rng') ->
      length (poses (player1 s)) = S (length (poses (player1 s'))) /\
      to_move s' = to_move s) /\
  (forall s pos rng r p,
      in_mill (poses_of (to_move s) s) pos = true ->
      (forall q, q ∈ poses (player1 s) -> exists b, getButton q s = Ok (Some b)) ->
      r ∈ rng ->
      choice (poses (player1 s)) r = Ok p ->
      in_mill (poses (player1 s)) p && (3 <? length (poses (player1 s)))%nat = false ->
      exists b s' rng' sol,
        p2_check pos rng s = Ok (b, s', rng') /\
        sol ∈ poses (player1 s) /\
        in_mill (poses (player1 s)) sol && (3 <? length (poses (player1 s)))%nat
        = false /\
        list_remove sol (poses (player1 s)) = Ok (poses (player1 s')) /\
        poses (player2 s') = poses (player2 s) /\
        to_move s' = to_move s).
Proof.
  split; [exact on_click_setup_mill |].
  split; [exact on_click_move_mill |].
  split; [intros s button rng s' rng'; apply on_click_step2 |].
  split; [| intros s pos rng r p; apply p2_check_returns].
  intros s pos rng b s' rng' Hmill Hchk.
  destruct (p2_check_mill pos rng s b s' rng' Hmill Hchk) as (H1 & _ & H3).
  by split.
Qed.

Lemma mill_suspends_turn_of_player1_witness :
  (step (player1 before_X_mill) = Setup /\
   getCoordinates (2, 1)%nat before_X_mill = Ok (2, 3) /\
   to_move before_X_mill = X /\
   1 <= player1tokens before_X_mill /\
   in_mill (poses (player1 before_X_mill) ++ [(2, 3)]) (2, 3) = true /\
   exists s', on_click (2, 1)%nat [] before_X_mill = Ok (s', []) /\
              step (player1 s') = Remove /\
              to_move s' = to_move before_X_mill /\
              poses (player1 s') = poses (player1 before_X_mill) ++ [(2, 3)] /\
              poses (player2 s') = poses (player2 before_X_mill)) /\
  (in_mill (poses_of (to_move O_placed) O_placed) (3, 6) = true /\
   (forall q, q ∈ poses (player1 O_placed) ->
              exists b, getButton q O_placed = Ok (Some b)) /\
   2%nat ∈ [2]%nat /\
   choice (poses (player1 O_placed)) 2 = Ok (6, 6) /\
   in_mill (poses (player1 O_placed)) (6, 6)
   && (3 <? length (poses (player1 O_placed)))%nat = false /\
   exists b s' rng' sol,
     p2_check (3, 6) [2]%nat O_placed = Ok (b, s', rng') /\
     sol ∈ poses (player1 O_placed) /\
     in_mill (poses (player1 O_placed)) sol
     && (3 <? length (poses (player1 O_placed)))%nat = false /\
     list_remove sol (poses (player1 O_placed)) = Ok (poses (player1 s')) /\
     poses (player2 s') = poses (player2 O_placed) /\
     to_move s' = to_move O_placed).
Proof.
  assert (H1 : step (player1 before_X_mill) = Setup) by reflexivity.
  assert (H2 : getCoordinates (2, 1)%nat before_X_mill = Ok (2, 3)) by reflexivity.
  assert (H3 : to_move before_X_mill = X) by reflexivity.
  assert (H4 : 1 <= player1tokens before_X_mill) by (vm_compute; discriminate).
  assert (H5 : in_mill (poses (player1 before_X_mill) ++ [(2, 3)]) (2, 3) = true)
    by (vm_compute; reflexivity).
  assert (G1 : in_mill (poses_of (to_move O_placed) O_placed) (3, 6) = true)
    by (vm_compute; reflexivity).
  assert (G2 : forall q, q ∈ poses (player1 O_placed) ->
                         exists b, getButton q O_placed = Ok (Some b)).
  { intros q Hq.
    repeat (apply elem_of_cons in Hq as [-> | Hq];
            [eexists; vm_compute; reflexivity |]).
    by apply elem_of_nil in Hq. }
  assert (G3 : 2%nat ∈ [2]%nat) by apply list_elem_of_here.
  assert (G4 : choice (poses (player1 O_placed)) 2 = Ok (6, 6)) by reflexivity.
  assert (G5 : in_mill (poses (player1 O_placed)) (6, 6)
               && (3 <? length (poses (player1 O_placed)))%nat = false)
    by (vm_compute; reflexivity).
  refine (conj (conj H1 (conj H2 (conj H3 (conj H4 (conj H5 _)))))
               (conj G1 (conj G2 (conj G3 (conj G4 (conj G5 _)))))).
  - exact (proj1 mill_suspends_turn_of_player1
             before_X_mill (2, 1)%nat (2, 3) [] H1 H2 H3 H4 H5).
  - exact (proj2 (proj2 (proj2 (proj2 mill_suspends_turn_of_player1)))
             O_placed (3, 6) [2]%nat 2%nat (6, 6) G1 G2 G3 G4 G5).
Defined.

(** The same for a move: in [piece_picked] the piece on (4,2) goes to
    (3,2) and closes (3,0)-(3,1)-(3,2). *)
Example move_closing_a_triple :
  exists s', on_click (3, 2)%nat [] piece_picked = Ok (s', []) /\
             step (player1 s') = Remove /\
             to_move s' = to_move piece_picked /\
             poses (player1 s')
             = [(3, 0); (3, 1); (0, 0); (0, 3); (0, 6); (6, 6); (6, 3); (1, 5)]
               ++ [(3, 2)] /\
             poses (player2 s') = poses (player2 piece_picked).
Proof.
  destruct (move (4, 2) (3, 2) piece_picked) as [[[] s1] | |] eqn:Hmove;
    try (vm_compute in Hmove; discriminate Hmove).
  apply (on_click_move_mill piece_picked (3, 2)%nat (3, 2) [] (4, 2) s1);
    try exact Hmove; try (vm_compute; reflexivity).
  apply (bool_decide_unpack _). vm_compute. exact I.
Qed.

Example removal_in_the_same_call :
  p2_check (3, 6) [2]%nat O_placed = Ok (false, toggle after_O_mill, []) /\
  length (poses (player1 O_placed))
  = S (length (poses (player1 (toggle after_O_mill)))).
Proof.
  assert (H : p2_check (3, 6) [2]%nat O_placed = Ok (false, toggle after_O_mill, []))
    by (vm_compute; reflexivity).
  split; [exact H |].
  apply (p2_check_mill (3, 6) [2]%nat O_placed false _ [] eq_refl H).
Qed.

End GuiFacts.

Module SearchFacts.

Lemma py_max_fin a b : py_max (Fin a) (Fin b) = Fin (Z.max a b).
Proof. unfold py_max; cbn. destruct (Z.ltb_spec a b); f_equal; lia. Qed.

Lemma py_min_fin a b : py_min (Fin a) (Fin b) = Fin (Z.min a b).
Proof. unfold py_min, ext_ltb; cbn. destruct (Z.ltb_spec b a); f_equal; lia. Qed.

Ltac ext_simpl :=
  rewrite ?py_max_fin, ?py_min_fin in *;
  cbn [py_max py_min ext_ltb ext_leb ext_gtb ext_geb] in *;
  rewrite ?py_max_fin, ?py_min_fin in *.

(** Case analysis on one extended integer, dropping the impossible cases. *)
Ltac ext_case x := destruct x; ext_simpl; try discriminate.

Ltac ext_done :=
  ext_simpl; ext_simpl;
  solve [intuition (try discriminate; try (f_equal; lia); try lia)].

Lemma py_max_assoc a b c : py_max (py_max a b) c = py_max a (py_max b c).
Proof. ext_case a; ext_case b; ext_case c; ext_done. Qed.

Lemma py_min_assoc a b c : py_min (py_min a b) c = py_min a (py_min b c).
Proof. ext_case a; ext_case b; ext_case c; ext_done. Qed.

Lemma ext_le_antisym a b : ext_leb a b = true -> ext_leb b a = true -> a = b.
Proof. intros H1 H2. ext_case a; ext_case b; ext_done. Qed.

Lemma bound_ok_refl e alpha beta : bound_ok e e alpha beta.
Proof. unfold bound_ok. ext_case e; ext_case alpha; ext_case beta; ext_done. Qed.

(** One iteration of the loop of [max_value], with [v <= alpha < beta]:
    the early return, and the continuation with the raised [alpha]. *)
Lemma max_step_cut v c m alpha beta rest :
  ext_ltb alpha beta = true -> ext_leb v alpha = true ->
  bound_ok c (Fin m) alpha beta ->
  ext_geb (py_max v c) beta = true ->
  bound_ok (py_max v c) (py_max v (py_max (Fin m) rest)) alpha beta.
Proof.
  unfold bound_ok. intros Hab Hv Hc Hcut.
  ext_case alpha; ext_case beta; ext_case v; ext_case c; ext_case rest; ext_done.
Qed.

Lemma max_step_continue v c m alpha beta rest r :
  ext_ltb alpha beta = true -> ext_leb v alpha = true ->
  bound_ok c (Fin m) alpha beta ->
  ext_geb (py_max v c) beta = false ->
  bound_ok r (py_max (py_max v c) rest) (py_max alpha (py_max v c)) beta ->
  bound_ok r (py_max v (py_max (Fin m) rest)) alpha beta.
Proof.
  unfold bound_ok. intros Hab Hv Hc Hcut Hr.
  ext_case alpha; ext_case beta; ext_case v; ext_case c; ext_case rest;
    ext_case r; ext_done.
Qed.

(** The same for the loop of [min_value], with [alpha < beta <= v]. *)
Lemma min_step_cut v c m alpha beta rest :
  ext_ltb alpha beta = true -> ext_geb v beta = true ->
  bound_ok c (Fin m) alpha beta ->
  ext_leb (py_min v c) alpha = true ->
  bound_ok (py_min v c) (py_min v (py_min (Fin m) rest)) alpha beta.
Proof.
  unfold bound_ok. intros Hab Hv Hc Hcut.
  ext_case alpha; ext_case beta; ext_case v; ext_case c; ext_case rest; ext_done.
Qed.

Lemma min_step_continue v c m alpha beta rest r :
  ext_ltb alpha beta = true -> ext_geb v beta = true ->
  bound_ok c (Fin m) alpha beta ->
  ext_leb (py_min v c) alpha = false ->
  bound_ok r (py_min (py_min v c) rest) alpha (py_min beta (py_min v c)) ->
  bound_ok r (py_min v (py_min (Fin m) rest)) alpha beta.
Proof.
  unfold bound_ok. intros Hab Hv Hc Hcut Hr.
  ext_case alpha; ext_case beta; ext_case v; ext_case c; ext_case rest;
    ext_case r; ext_done.
Qed.

Section AlphaBetaCorrect.
Context {State Action : Type} (game : Game State Action) (player : player).

(** The contract of [Game.terminal_test]: a state without actions is
    terminal. *)
Hypothesis Hmoves : forall s, terminal_test game s = false -> actions game s <> [].

Lemma value_loop_max_acc child s acts : forall w R,
  MinMax.value_loop game child py_max s acts w = Ok R ->
  forall w', MinMax.value_loop game child py_max s acts (py_max w' w)
             = Ok (py_max w' R).
Proof.
  induction acts as [| a rest IH]; intros w R; cbn [MinMax.value_loop].
  - by intros [= <-].
  - destruct (result game s a) as [s' | |]; cbn [rbind]; try discriminate.
    destruct (child s') as [c | |]; cbn [rbind]; try discriminate.
    intros HR w'. rewrite py_max_assoc. by apply IH.
Qed.

Lemma value_loop_min_acc child s acts : forall w R,
  MinMax.value_loop game child py_min s acts w = Ok R ->
  forall w', MinMax.value_loop game child py_min s acts (py_min w' w)
             = Ok (py_min w' R).
Proof.
  induction acts as [| a rest IH]; intros w R; cbn [MinMax.value_loop].
  - by intros [= <-].
  - destruct (result game s a) as [s' | |]; cbn [rbind]; try discriminate.
    destruct (child s') as [c | |]; cbn [rbind]; try discriminate.
    intros HR w'. rewrite py_min_assoc. by apply IH.
Qed.

Lemma max_loop_correct child_mm child_ab s acts :
  (forall a, a ∈ acts -> child_ok game child_mm child_ab s a) ->
  exists M,
    MinMax.value_loop game child_mm py_max s acts NInf = Ok M /\
    M <> PInf /\ (acts <> [] -> M <> NInf) /\
    forall v alpha beta,
      ext_ltb alpha beta = true -> ext_leb v alpha = true ->
      exists r, AlphaBeta.max_loop game child_ab s acts v alpha beta = Ok r /\
                bound_ok r (py_max v M) alpha beta.
Proof.
  induction acts as [| a rest IH]; intros Hch.
  - exists NInf. repeat split; try done.
    intros v alpha beta _ _. exists v. split; [reflexivity |].
    replace (py_max v NInf) with v by (by destruct v). apply bound_ok_refl.
  - destruct IH as (Mrest & Hmm & HnotP & _ & Hab).
    { intros a' Ha'. apply Hch. by right. }
    destruct (Hch a) as (s' & m & Hres & Hcm & Hca); [by left |].
    exists (py_max (Fin m) Mrest). split; [| split; [| split]].
    + cbn [MinMax.value_loop]. rewrite Hres. cbn [rbind]. rewrite Hcm. cbn [rbind].
      apply (value_loop_max_acc _ _ _ _ _ Hmm (Fin m)).
    + clear -HnotP. ext_case Mrest; ext_done.
    + intros _. clear. ext_case Mrest; ext_done.
    + intros v alpha beta Hlt Hv.
      destruct (Hca alpha beta Hlt) as (c & Hc & Hbound).
      cbn [AlphaBeta.max_loop]. rewrite Hres. cbn [rbind]. rewrite Hc. cbn [rbind].
      destruct (ext_geb (py_max v c) beta) eqn:Hcut.
      * eexists. split; [reflexivity |]. by apply max_step_cut.
      * destruct (Hab (py_max v c) (py_max alpha (py_max v c)) beta) as (r & Hr & Hrb).
        { clear -Hlt Hcut. ext_case alpha; ext_case beta; ext_case v; ext_case c;
            ext_done. }
        { clear. ext_case alpha; ext_case v; ext_case c; ext_done. }
        exists r. split; [exact Hr |]. by apply (max_step_continue v c m).
Qed.

Lemma min_loop_correct child_mm child_ab s acts :
  (forall a, a ∈ acts -> child_ok game child_mm child_ab s a) ->
  exists M,
    MinMax.value_loop game child_mm py_min s acts PInf = Ok M /\
    M <> NInf /\ (acts <> [] -> M <> PInf) /\
    forall v alpha beta,
      ext_ltb alpha beta = true -> ext_geb v beta = true ->
      exists r, AlphaBeta.min_loop game child_ab s acts v alpha beta = Ok r /\
                bound_ok r (py_min v M) alpha beta.
Proof.
  induction acts as [| a rest IH]; intros Hch.
  - exists PInf. repeat split; try done.
    intros v alpha beta _ _. exists v. split; [reflexivity |].
    replace (py_min v PInf) with v by (by destruct v). apply bound_ok_refl.
  - destruct IH as (Mrest & Hmm & HnotN & _ & Hab).
    { intros a' Ha'. apply Hch. by right. }
    destruct (Hch a) as (s' & m & Hres & Hcm & Hca); [by left |].
    exists (py_min (Fin m) Mrest). split; [| split; [| split]].
    + cbn [MinMax.value_loop]. rewrite Hres. cbn [rbind]. rewrite Hcm. cbn [rbind].
      apply (value_loop_min_acc _ _ _ _ _ Hmm (Fin m)).
    + clear -HnotN. ext_case Mrest; ext_done.
    + intros _. clear. ext_case Mrest; ext_done.
    + intros v alpha beta Hlt Hv.
      destruct (Hca alpha beta Hlt) as (c & Hc & Hbound).
      cbn [AlphaBeta.min_loop]. rewrite Hres. cbn [rbind]. rewrite Hc. cbn [rbind].
      destruct (ext_leb (py_min v c) alpha) eqn:Hcut.
      * eexists. split; [reflexivity |]. by apply min_step_cut.
      * destruct (Hab (py_min v c) alpha (py_min beta (py_min v c))) as (r & Hr & Hrb).
        { clear -Hlt Hcut. ext_case alpha; ext_case beta; ext_case v; ext_case c;
            ext_done. }
        { clear. ext_case beta; ext_case v; ext_case c; ext_done. }
        exists r. split; [exact Hr |]. by apply (min_step_continue v c m).
Qed.

Lemma node_correct n : forall s fuel,
  height_le game n s -> (n < fuel)%nat ->
  max_node_ok game player fuel s /\ min_node_ok game player fuel s.
Proof.
  induction n as [| n IH]; intros s fuel Hh Hfuel;
    (destruct fuel as [| fuel]; [lia |]);
    unfold max_node_ok, min_node_ok;
    cbn [MinMax.max_value MinMax.min_value AlphaBeta.max_value AlphaBeta.min_value];
    destruct (terminal_test game s) eqn:Hterm;
    try (split; eexists; (split; [reflexivity |]); intros alpha beta _;
         eexists; (split; [reflexivity | apply bound_ok_refl])).
  - destruct Hh as [Hh | []]. congruence.
  - destruct Hh as [Hh | Hh]; [congruence |].
    assert (Hmax : forall a, a ∈ actions game s ->
              child_ok game (MinMax.min_value game player fuel)
                       (AlphaBeta.min_value game player fuel) s a).
    { intros a Ha. destruct (Hh a Ha) as (s' & Hres & Hs').
      destruct (IH s' fuel Hs' ltac:(lia)) as [_ (m & Hm & Hab)].
      by exists s', m. }
    assert (Hmin : forall a, a ∈ actions game s ->
              child_ok game (MinMax.max_value game player fuel)
                       (AlphaBeta.max_value game player fuel) s a).
    { intros a Ha. destruct (Hh a Ha) as (s' & Hres & Hs').
      destruct (IH s' fuel Hs' ltac:(lia)) as [(m & Hm & Hab) _].
      by exists s', m. }
    pose proof (Hmoves s Hterm) as Hne.
    split.
    + destruct (max_loop_correct _ _ s _ Hmax) as (M & HM & HP & HN & Hab).
      specialize (HN Hne).
      destruct M as [| m |]; try congruence.
      exists m. split; [exact HM |]. intros alpha beta Hlt.
      destruct (Hab NInf alpha beta Hlt) as (r & Hr & Hb);
        [by destruct alpha |].
      exists r. split; [exact Hr | exact Hb].
    + destruct (min_loop_correct _ _ s _ Hmin) as (M & HM & HN & HP & Hab).
      specialize (HP Hne).
      destruct M as [| m |]; try congruence.
      exists m. split; [exact HM |]. intros alpha beta Hlt.
      destruct (Hab PInf alpha beta Hlt) as (r & Hr & Hb);
        [by destruct beta |].
      exists r. split; [exact Hr | exact Hb].
Qed.

(** From the second action on, the root loop of [alpha_beta_search] and
    the loop of [max] walk in step: both keep the first action of
    greatest minimax value. *)
Lemma root_loop_correct fuel s acts :
  (forall a, a ∈ acts ->
     child_ok game (MinMax.min_value game player fuel)
              (AlphaBeta.min_value game player fuel) s a) ->
  forall x b, key game player fuel s x = Ok (Fin b) ->
  exists y b',
    AlphaBeta.root_loop game player fuel s acts (Fin b) PInf (Some x) = Ok (Some y) /\
    max_key_loop ext_gtb (key game player fuel s) acts x (Fin b) = Ok y /\
    key game player fuel s y = Ok (Fin b').
Proof.
  induction acts as [| a rest IH]; intros Hch x b Hx.
  - exists x, b. by repeat split.
  - destruct (Hch a) as (s' & m & Hres & Hcm & Hca); [by left |].
    destruct (Hca (Fin b) PInf eq_refl) as (c & Hc & Hbound).
    assert (Hka : key game player fuel s a = Ok (Fin m)).
    { unfold key. rewrite Hres. exact Hcm. }
    assert (Hrest : forall a', a' ∈ rest ->
              child_ok game (MinMax.min_value game player fuel)
                       (AlphaBeta.min_value game player fuel) s a').
    { intros a' Ha'. apply Hch. by right. }
    cbn [AlphaBeta.root_loop max_key_loop].
    rewrite Hres. cbn [rbind]. rewrite Hc, Hka. cbn [rbind].
    destruct (ext_gtb c (Fin b)) eqn:Hgt.
    + assert (c = Fin m /\ ext_gtb (Fin m) (Fin b) = true) as [-> ->].
      { clear -Hbound Hgt. unfold bound_ok in Hbound. ext_case c; ext_done. }
      by apply IH.
    + assert (ext_gtb (Fin m) (Fin b) = false) as ->.
      { clear -Hbound Hgt. unfold bound_ok in Hbound. ext_case c; ext_done. }
      by apply IH.
Qed.

End AlphaBetaCorrect.

(** C4: for every game whose states without actions are terminal, and
    every non-terminal state with a finite game tree, [alpha_beta_search]
    and [minmax_decision] both return an action once they are given
    enough fuel, and the two actions have the same minimax value; they
    are in fact the same action. *)
Theorem alpha_beta_search_same_value_as_minmax
    {State Action : Type} (game : Game State Action) (state : State) :
  (forall s, terminal_test game s = false -> actions game s <> []) ->
  finite_game_tree game state ->
  terminal_test game state = false ->
  exists n, forall fuel, (n <= fuel)%nat ->
    exists a_ab a_mm v,
      AlphaBeta.alpha_beta_search fuel state game = Ok (Some a_ab) /\
      MinMax.minmax_decision fuel state game = Ok (Some a_mm) /\
      minimax_value game fuel state a_ab = Ok (Fin v) /\
      minimax_value game fuel state a_mm = Ok (Fin v) /\
      a_ab = a_mm.
Proof.
  intros Hmoves [n Hh] Hterm.
  destruct n as [| n]; (destruct Hh as [Hh | Hh]; [congruence |]); [destruct Hh |].
  exists (S n). intros fuel Hfuel.
  set (player := to_move game state).
  assert (Hch : forall a, a ∈ actions game state ->
            child_ok game (MinMax.min_value game player fuel)
                     (AlphaBeta.min_value game player fuel) state a).
  { intros a Ha. destruct (Hh a Ha) as (s' & Hres & Hs').
    destruct (node_correct game player Hmoves n s' fuel Hs' ltac:(lia))
      as [_ (m & Hm & Hab)].
    by exists s', m. }
  unfold AlphaBeta.alpha_beta_search, MinMax.minmax_decision, minimax_value.
  fold player.
  destruct (actions game state) as [| a1 rest] eqn:Hacts;
    [by apply Hmoves in Hterm |].
  destruct (Hch a1 ltac:(by left)) as (s' & m & Hres & Hm & Hab).
  destruct (Hab NInf PInf eq_refl) as (c & Hc & Hbound).
  assert (c = Fin m) as ->.
  { clear -Hbound. unfold bound_ok in Hbound. ext_case c; ext_done. }
  assert (Hka : key game player fuel state a1 = Ok (Fin m)).
  { unfold key. by rewrite Hres. }
  destruct (root_loop_correct game player fuel state rest
              (fun a Ha => Hch a ltac:(by right)) a1 m Hka)
    as (y & b' & Hroot & Hmax & Hky).
  exists y, y, b'.
  cbn [AlphaBeta.root_loop max_key].
  rewrite Hres. cbn [rbind]. rewrite Hc. cbn [rbind ext_gtb].
  split; [exact Hroot |]. split.
  - rewrite Hm. cbn [rbind].
    change (rbind (max_key_loop ext_gtb (key game player fuel state) rest a1 (Fin m))
              (fun b => Ok (Some b)) = Ok (Some y)).
    by rewrite Hmax.
  - repeat split; exact Hky.
Qed.

(** The heap game is a game in the sense of C4. *)
Lemma nim_moves s :
  terminal_test nim_game s = false -> actions nim_game s <> [].
Proof.
  change (terminal_test nim_game s) with (Nim.heap s =? 0)%nat.
  change (actions nim_game s) with (Nim.actions s). unfold Nim.actions.
  intros Hk Hnil. apply Nat.eqb_neq in Hk.
  assert (H1 : (1%nat : nat) ∈ filter (fun a => (a <= Nim.heap s)%nat) [1; 2]%nat).
  { apply list_elem_of_filter. split; [lia | by left]. }
  rewrite Hnil in H1. by apply elem_of_nil in H1.
Qed.

Lemma nim_height n : forall k p,
  (k <= n)%nat -> height_le nim_game n {| Nim.heap := k; Nim.mover := p |}.
Proof.
  induction n as [| n IH]; intros k p Hk.
  - left. assert (k = 0%nat) as -> by lia. reflexivity.
  - destruct k as [| k]; [by left |]. right. intros a Ha.
    apply list_elem_of_filter in Ha as [Hle Hmem]. cbn in Hle.
    assert (Ha : (1 <= a)%nat).
    { rewrite !elem_of_cons, elem_of_nil in Hmem. lia. }
    eexists. split; [reflexivity |]. apply IH. cbn. lia.
Qed.

Lemma alpha_beta_search_same_value_as_minmax_witness :
  (forall s, terminal_test nim_game s = false -> actions nim_game s <> []) /\
  finite_game_tree nim_game Nim.four /\
  terminal_test nim_game Nim.four = false /\
  exists n, forall fuel, (n <= fuel)%nat ->
    exists a_ab a_mm v,
      AlphaBeta.alpha_beta_search fuel Nim.four nim_game = Ok (Some a_ab) /\
      MinMax.minmax_decision fuel Nim.four nim_game = Ok (Some a_mm) /\
      minimax_value nim_game fuel Nim.four a_ab = Ok (Fin v) /\
      minimax_value nim_game fuel Nim.four a_mm = Ok (Fin v) /\
      a_ab = a_mm.
Proof.
  assert (H2 : finite_game_tree nim_game Nim.four)
    by (exists 4%nat; apply nim_height; lia).
  assert (H3 : terminal_test nim_game Nim.four = false) by reflexivity.
  refine (conj nim_moves (conj H2 (conj H3 _))).
  exact (alpha_beta_search_same_value_as_minmax nim_game Nim.four nim_moves H2 H3).
Defined.

(** On a heap of four, both searches take one object, which wins. *)
Example nim_four_searches :
  AlphaBeta.alpha_beta_search 5 Nim.four nim_game = Ok (Some 1%nat) /\
  MinMax.minmax_decision 5 Nim.four nim_game = Ok (Some 1%nat) /\
  minimax_value nim_game 5 Nim.four 1%nat = Ok (Fin 1).
Proof. repeat split; vm_compute; reflexivity. Qed.

End SearchFacts.

(** * More on the search layer *)

Module SearchMore.
Import SearchFacts.

(** ** The action returned is one of the actions offered *)

Lemma max_key_loop_elem {A K : Type} (gt : K -> K -> bool) (key : A -> res K)
    (l : list A) : forall best bestk y,
  max_key_loop gt key l best bestk = Ok y -> y = best \/ y ∈ l.
Proof.
  induction l as [| a l IH]; intros best bestk y; cbn [max_key_loop].
  - intros [= <-]. by left.
  - destruct (key a) as [k0 | |]; cbn [rbind]; try discriminate.
    destruct (gt k0 bestk); intros Hy; apply IH in Hy as [-> | Hy];
      (by left) || (right; by constructor).
Qed.

Lemma max_key_elem {A K : Type} (gt : K -> K -> bool) (key : A -> res K)
    (d : bool) (l : list A) (y : A) :
  max_key gt key d l = Ok (Some y) -> y ∈ l.
Proof.
  destruct l as [| a l]; cbn [max_key]; [destruct d; discriminate |].
  destruct (key a) as [k0 | |]; cbn [rbind]; try discriminate.
  destruct (max_key_loop gt key l a k0) as [b | |] eqn:Hl; cbn [rbind];
    try discriminate.
  intros [= <-]. apply max_key_loop_elem in Hl as [-> | Hl]; by constructor.
Qed.

Lemma alpha_beta_root_loop_elem {State Action : Type} (game : Game State Action)
    (pl : player) (fuel : nat) (s : State) (acts : list Action) :
  forall best beta ba y,
    AlphaBeta.root_loop game pl fuel s acts best beta ba = Ok (Some y) ->
    ba = Some y \/ y ∈ acts.
Proof.
  induction acts as [| a acts IH]; intros best beta ba y; cbn [AlphaBeta.root_loop].
  - intros [= <-]. by left.
  - destruct (result game s a) as [s' | |]; cbn [rbind]; try discriminate.
    destruct (AlphaBeta.min_value game pl fuel s' best beta) as [v0 | |];
      cbn [rbind]; try discriminate.
    destruct (ext_gtb v0 best); intros Hy; apply IH in Hy as [Hy | Hy].
    + injection Hy as <-. right. by left.
    + right. by right.
    + by left.
    + right. by right.
Qed.

Lemma cutoff_root_loop_elem {State Action : Type} (game : Game State Action)
    (ct : State -> Z -> bool) (ev : State -> ext) (fuel : nat) (s : State)
    (acts : list Action) :
  forall best beta ba y,
    AlphaBetaCutoff.root_loop game ct ev fuel s acts best beta ba = Ok (Some y) ->
    ba = Some y \/ y ∈ acts.
Proof.
  induction acts as [| a acts IH]; intros best beta ba y;
    cbn [AlphaBetaCutoff.root_loop].
  - intros [= <-]. by left.
  - destruct (result game s a) as [s' | |]; cbn [rbind]; try discriminate.
    destruct (AlphaBetaCutoff.min_value game ct ev fuel s' best beta 1) as [v0 | |];
      cbn [rbind]; try discriminate.
    destruct (ext_gtb v0 best); intros Hy; apply IH in Hy as [Hy | Hy].
    + injection Hy as <-. right. by left.
    + right. by right.
    + by left.
    + right. by right.
Qed.

(** X1: whatever the game, the state and the fuel, an action returned by
    [minmax_decision], [alpha_beta_search], [alpha_beta_cutoff_search]
    (with any depth, cutoff test and evaluation function) or
    [expect_minmax] is an element of [game.actions(state)]. *)
Theorem returned_action_is_offered {State Action Chance : Type}
    (game : Game State Action) (sgame : StochasticGame State Action Chance)
    (state : State) (fuel : nat) (a : Action) :
  (MinMax.minmax_decision fuel state game = Ok (Some a) ->
   a ∈ actions game state) /\
  (AlphaBeta.alpha_beta_search fuel state game = Ok (Some a) ->
   a ∈ actions game state) /\
  (forall d cutoff_test eval_fn,
     AlphaBetaCutoff.alpha_beta_cutoff_search fuel state game d cutoff_test eval_fn
     = Ok (Some a) ->
     a ∈ actions game state) /\
  (ExpectMinMax.expect_minmax fuel state sgame = Ok (Some a) ->
   a ∈ actions (base sgame) state).
Proof.
  repeat split.
  - apply max_key_elem.
  - intros H. by apply alpha_beta_root_loop_elem in H as [H | H].
  - intros d ct ev H. by apply cutoff_root_loop_elem in H as [H | H].
  - apply max_key_elem.
Qed.

Lemma returned_action_is_offered_witness :
  AlphaBeta.alpha_beta_search 5 Nim.four nim_game = Ok (Some 1%nat) /\
  (1%nat : nat) ∈ actions nim_game Nim.four.
Proof.
  assert (H : AlphaBeta.alpha_beta_search 5 Nim.four nim_game = Ok (Some 1%nat))
    by (vm_compute; reflexivity).
  split; [exact H |].
  exact (proj1 (proj2 (returned_action_is_offered
                         nim_game nim_without_dice Nim.four 5 1%nat)) H).
Defined.

(** ** The window contract of alpha-beta *)

(** X2: on a finite game tree (of a game whose states without actions
    are terminal), for every window [alpha < beta] and enough fuel, the
    [max_value] and [min_value] of [alpha_beta_search] return: the exact
    minimax value [m] when it lies strictly inside the window, a result
    at most [alpha] when [m <= alpha], and a result at least [beta] when
    [m >= beta]. *)
Theorem alpha_beta_window_contract {State Action : Type}
    (game : Game State Action) (pl : player) (n : nat) (s : State)
    (alpha beta : ext) :
  (forall s, terminal_test game s = false -> actions game s <> []) ->
  height_le game n s ->
  ext_ltb alpha beta = true ->
  forall fuel, (n < fuel)%nat ->
    (exists m r,
        MinMax.max_value game pl fuel s = Ok (Fin m) /\
        AlphaBeta.max_value game pl fuel s alpha beta = Ok r /\
        (ext_ltb alpha (Fin m) = true -> ext_ltb (Fin m) beta = true -> r = Fin m) /\
        (ext_leb (Fin m) alpha = true -> ext_leb r alpha = true) /\
        (ext_geb (Fin m) beta = true -> ext_geb r beta = true)) /\
    (exists m r,
        MinMax.min_value game pl fuel s = Ok (Fin m) /\
        AlphaBeta.min_value game pl fuel s alpha beta = Ok r /\
        (ext_ltb alpha (Fin m) = true -> ext_ltb (Fin m) beta = true -> r = Fin m) /\
        (ext_leb (Fin m) alpha = true -> ext_leb r alpha = true) /\
        (ext_geb (Fin m) beta = true -> ext_geb r beta = true)).
Proof.
  intros Hmoves Hh Hlt fuel Hfuel.
  destruct (node_correct game pl Hmoves n s fuel Hh Hfuel)
    as [(m1 & Hm1 & Hab1) (m2 & Hm2 & Hab2)].
  destruct (Hab1 alpha beta Hlt) as (r1 & Hr1 & Hb1).
  destruct (Hab2 alpha beta Hlt) as (r2 & Hr2 & Hb2).
  split.
  - exists m1, r1. split; [exact Hm1 |]. split; [exact Hr1 |].
    clear -Hb1 Hlt. unfold bound_ok in Hb1.
    ext_case alpha; ext_case beta; ext_case r1; ext_done.
  - exists m2, r2. split; [exact Hm2 |]. split; [exact Hr2 |].
    clear -Hb2 Hlt. unfold bound_ok in Hb2.
    ext_case alpha; ext_case beta; ext_case r2; ext_done.
Qed.

Lemma alpha_beta_window_contract_witness :
  (forall s, terminal_test nim_game s = false -> actions nim_game s <> []) /\
  height_le nim_game 4 Nim.four /\
  ext_ltb (Fin 0) (Fin 5) = true /\
  exists m r,
    MinMax.max_value nim_game X 5 Nim.four = Ok (Fin m) /\
    AlphaBeta.max_value nim_game X 5 Nim.four (Fin 0) (Fin 5) = Ok r /\
    (ext_ltb (Fin 0) (Fin m) = true -> ext_ltb (Fin m) (Fin 5) = true -> r = Fin m) /\
    (ext_leb (Fin m) (Fin 0) = true -> ext_leb r (Fin 0) = true) /\
    (ext_geb (Fin m) (Fin 5) = true -> ext_geb r (Fin 5) = true).
Proof.
  assert (H2 : height_le nim_game 4 Nim.four) by (apply nim_height; lia).
  refine (conj nim_moves (conj H2 (conj eq_refl _))).
  exact (proj1 (alpha_beta_window_contract nim_game X 4 Nim.four (Fin 0) (Fin 5)
                  nim_moves H2 eq_refl 5%nat ltac:(lia))).
Defined.

(** ** The depth bound of alpha_beta_cutoff_search *)

Section Cutoff.
Context {State Action : Type} (game : Game State Action) (pl : player) (d : Z).

(** The defaults built in the body of [alpha_beta_cutoff_search]. *)
Let cutoff_test : State -> Z -> bool :=
  fun state depth => (d <? depth) || terminal_test game state.
Let eval_fn : State -> ext := fun state => Fin (utility game state pl).

Lemma cutoff_max_loop_eq childC childA s acts depth :
  (forall a s', a ∈ acts -> result game s a = Ok s' ->
     forall alpha beta, childC s' alpha beta (depth + 1) = childA s' alpha beta) ->
  forall v alpha beta,
    AlphaBetaCutoff.max_loop game childC s acts v alpha beta depth
    = AlphaBeta.max_loop game childA s acts v alpha beta.
Proof.
  induction acts as [| a acts IH]; intros Hch v alpha beta; [reflexivity |].
  cbn [AlphaBetaCutoff.max_loop AlphaBeta.max_loop].
  destruct (result game s a) as [s' | |] eqn:Hres; cbn [rbind]; try reflexivity.
  rewrite (Hch a s' ltac:(by left) Hres).
  destruct (childA s' alpha beta) as [c | |]; cbn [rbind]; try reflexivity.
  destruct (ext_geb (py_max v c) beta); [reflexivity |].
  apply IH. intros a' s'' Ha'. apply Hch. by right.
Qed.

Lemma cutoff_min_loop_eq childC childA s acts depth :
  (forall a s', a ∈ acts -> result game s a = Ok s' ->
     forall alpha beta, childC s' alpha beta (depth + 1) = childA s' alpha beta) ->
  forall v alpha beta,
    AlphaBetaCutoff.min_loop game childC s acts v alpha beta depth
    = AlphaBeta.min_loop game childA s acts v alpha beta.
Proof.
  induction acts as [| a acts IH]; intros Hch v alpha beta; [reflexivity |].
  cbn [AlphaBetaCutoff.min_loop AlphaBeta.min_loop].
  destruct (result game s a) as [s' | |] eqn:Hres; cbn [rbind]; try reflexivity.
  rewrite (Hch a s' ltac:(by left) Hres).
  destruct (childA s' alpha beta) as [c | |]; cbn [rbind]; try reflexivity.
  destruct (ext_leb (py_min v c) alpha); [reflexivity |].
  apply IH. intros a' s'' Ha'. apply Hch. by right.
Qed.

(** Below the depth bound the cutoff never fires before a terminal
    state, and the two searches compute the same thing. *)
Lemma cutoff_value_eq fuel : forall n s depth alpha beta,
  height_le game n s -> depth + Z.of_nat n <= d + 1 ->
  AlphaBetaCutoff.max_value game cutoff_test eval_fn fuel s alpha beta depth
  = AlphaBeta.max_value game pl fuel s alpha beta /\
  AlphaBetaCutoff.min_value game cutoff_test eval_fn fuel s alpha beta depth
  = AlphaBeta.min_value game pl fuel s alpha beta.
Proof.
  induction fuel as [| fuel IH]; intros n s depth alpha beta Hh Hd;
    [by split |].
  change (AlphaBetaCutoff.max_value game cutoff_test eval_fn (S fuel) s alpha beta depth)
    with (if cutoff_test s depth then Ok (eval_fn s)
          else AlphaBetaCutoff.max_loop game
                 (AlphaBetaCutoff.min_value game cutoff_test eval_fn fuel)
                 s (actions game s) NInf alpha beta depth).
  change (AlphaBetaCutoff.min_value game cutoff_test eval_fn (S fuel) s alpha beta depth)
    with (if cutoff_test s depth then Ok (eval_fn s)
          else AlphaBetaCutoff.min_loop game
                 (AlphaBetaCutoff.max_value game cutoff_test eval_fn fuel)
                 s (actions game s) PInf alpha beta depth).
  change (AlphaBeta.max_value game pl (S fuel) s alpha beta)
    with (if terminal_test game s then Ok (Fin (utility game s pl))
          else AlphaBeta.max_loop game (AlphaBeta.min_value game pl fuel)
                 s (actions game s) NInf alpha beta).
  change (AlphaBeta.min_value game pl (S fuel) s alpha beta)
    with (if terminal_test game s then Ok (Fin (utility game s pl))
          else AlphaBeta.min_loop game (AlphaBeta.max_value game pl fuel)
                 s (actions game s) PInf alpha beta).
  assert (Hct : cutoff_test s depth = (d <? depth) || terminal_test game s)
    by reflexivity.
  rewrite Hct. clear Hct.
  destruct (terminal_test game s) eqn:Hterm.
  - rewrite orb_true_r. by split.
  - destruct n as [| n]; (destruct Hh as [Hh | Hh]; [congruence |]);
      [destruct Hh |].
    assert ((d <? depth) = false) as -> by lia. cbn [orb].
    assert (Hch : forall a s', a ∈ actions game s -> result game s a = Ok s' ->
              height_le game n s').
    { intros a s' Ha Hres. destruct (Hh a Ha) as (s'' & Hres' & Hs'').
      congruence. }
    split.
    + apply cutoff_max_loop_eq. intros a s' Ha Hres al be.
      apply (IH n s' (depth + 1) al be); [by apply (Hch a) | lia].
    + apply cutoff_min_loop_eq. intros a s' Ha Hres al be.
      apply (IH n s' (depth + 1) al be); [by apply (Hch a) | lia].
Qed.

Lemma cutoff_root_loop_eq fuel s acts :
  (forall a s', a ∈ acts -> result game s a = Ok s' ->
     forall alpha beta,
       AlphaBetaCutoff.min_value game cutoff_test eval_fn fuel s' alpha beta 1
       = AlphaBeta.min_value game pl fuel s' alpha beta) ->
  forall best beta ba,
    AlphaBetaCutoff.root_loop game cutoff_test eval_fn fuel s acts best beta ba
    = AlphaBeta.root_loop game pl fuel s acts best beta ba.
Proof.
  induction acts as [| a acts IH]; intros Hch best beta ba; [reflexivity |].
  cbn [AlphaBetaCutoff.root_loop AlphaBeta.root_loop].
  destruct (result game s a) as [s' | |] eqn:Hres; cbn [rbind]; try reflexivity.
  rewrite (Hch a s' ltac:(by left) Hres).
  destruct (AlphaBeta.min_value game pl fuel s' best beta) as [c | |];
    cbn [rbind]; try reflexivity.
  destruct (ext_gtb c best); apply IH; intros a' s'' Ha'; apply Hch; by right.
Qed.

End Cutoff.

(** X3: with the default cutoff test and evaluation function, a depth
    bound [d] of at least the height of the game tree minus one makes
    [alpha_beta_cutoff_search] return exactly what [alpha_beta_search]
    returns, for every amount of fuel (a result, an exception, or
    neither yet). *)
Theorem cutoff_search_with_deep_bound {State Action : Type}
    (game : Game State Action) (state : State) (n : nat) (d : Z) :
  terminal_test game state = false ->
  height_le game n state ->
  Z.of_nat n <= d + 1 ->
  forall fuel,
    AlphaBetaCutoff.alpha_beta_cutoff_search fuel state game d None None
    = AlphaBeta.alpha_beta_search fuel state game.
Proof.
  intros Hterm Hh Hd fuel.
  unfold AlphaBetaCutoff.alpha_beta_cutoff_search, AlphaBeta.alpha_beta_search.
  destruct n as [| n]; (destruct Hh as [Hh | Hh]; [congruence |]); [destruct Hh |].
  apply cutoff_root_loop_eq. intros a s' Ha Hres alpha beta.
  destruct (Hh a Ha) as (s'' & Hres' & Hs'').
  assert (s'' = s') as -> by congruence.
  apply (cutoff_value_eq game (to_move game state) d fuel n s' 1 alpha beta Hs'').
  lia.
Qed.

Lemma cutoff_search_with_deep_bound_witness :
  terminal_test nim_game Nim.four = false /\
  height_le nim_game 4 Nim.four /\
  Z.of_nat 4 <= 3 + 1 /\
  forall fuel,
    AlphaBetaCutoff.alpha_beta_cutoff_search fuel Nim.four nim_game 3 None None
    = AlphaBeta.alpha_beta_search fuel Nim.four nim_game.
Proof.
  assert (H2 : height_le nim_game 4 Nim.four) by (apply nim_height; lia).
  assert (H3 : Z.of_nat 4 <= 3 + 1) by (vm_compute; discriminate).
  refine (conj eq_refl (conj H2 (conj H3 _))).
  exact (cutoff_search_with_deep_bound nim_game Nim.four 4 3 eq_refl H2 H3).
Defined.

(** A bound that is too small does change the answer: on a heap of four
    the full search takes one object (and wins), the search cut at depth
    0 judges both replies by their utility 0 and takes one as well, but
    on a heap of five the full search takes two while the cut search
    still takes one. *)
Example cutoff_search_with_shallow_bound :
  let five := {| Nim.heap := 5; Nim.mover := X |} in
  AlphaBeta.alpha_beta_search 6 five nim_game = Ok (Some 2%nat) /\
  AlphaBetaCutoff.alpha_beta_cutoff_search 6 five nim_game 0 None None
  = Ok (Some 1%nat).
Proof. split; vm_compute; reflexivity. Qed.

(** With a bound below 1 the children of the root are cut at once. *)
Lemma cutoff_greedy_root_loop {State Action : Type} (game : Game State Action)
    (ct : State -> Z -> bool) (ev : State -> ext) (u : State -> Z) (fuel : nat)
    (s : State) (acts : list Action) :
  (forall s', ct s' 1 = true) -> (forall s', ev s' = Fin (u s')) ->
  forall x b,
    AlphaBetaCutoff.root_loop game ct ev (S fuel) s acts (Fin b) PInf (Some x)
    = do y <- max_key_loop ext_gtb
                (fun a => do s' <- result game s a; Ok (Fin (u s'))) acts x (Fin b);
      Ok (Some y).
Proof.
  intros Hct Hev. induction acts as [| a acts IH]; intros x b; [reflexivity |].
  cbn [AlphaBetaCutoff.root_loop max_key_loop].
  destruct (result game s a) as [s' | |]; cbn [rbind]; try reflexivity.
  change (AlphaBetaCutoff.min_value game ct ev (S fuel) s' (Fin b) PInf 1)
    with (if ct s' 1 then Ok (ev s')
          else AlphaBetaCutoff.min_loop game
                 (AlphaBetaCutoff.max_value game ct ev fuel)
                 s' (actions game s') PInf (Fin b) PInf 1).
  rewrite Hct, Hev. cbn [rbind].
  destruct (ext_gtb (Fin (u s')) (Fin b)); apply IH.
Qed.

(** X4: a depth bound [d < 1] is accepted, and makes
    [alpha_beta_cutoff_search] (default cutoff test and evaluation
    function, at least one unit of fuel) one-ply greedy: it returns the
    first action whose resulting state has the greatest utility for the
    player to move, as [max] with that key would, and [None] when there
    is no action. *)
Theorem cutoff_search_below_depth_one {State Action : Type}
    (game : Game State Action) (state : State) (d : Z) (fuel : nat) :
  d < 1 ->
  AlphaBetaCutoff.alpha_beta_cutoff_search (S fuel) state game d None None
  = max_key ext_gtb
      (fun a => do s' <- result game state a;
                Ok (Fin (utility game s' (to_move game state))))
      true (actions game state).
Proof.
  intros Hd. unfold AlphaBetaCutoff.alpha_beta_cutoff_search.
  set (ct := fun (state0 : State) (depth : Z) =>
               (d <? depth) || terminal_test game state0).
  set (ev := fun state0 : State => Fin (utility game state0 (to_move game state))).
  assert (Hct : forall s', ct s' 1 = true).
  { intros s'. unfold ct. assert ((d <? 1) = true) as -> by lia. reflexivity. }
  destruct (actions game state) as [| a acts]; [reflexivity |].
  cbn [AlphaBetaCutoff.root_loop max_key].
  destruct (result game state a) as [s' | |]; cbn [rbind]; try reflexivity.
  change (AlphaBetaCutoff.min_value game ct ev (S fuel) s' NInf PInf 1)
    with (if ct s' 1 then Ok (ev s')
          else AlphaBetaCutoff.min_loop game
                 (AlphaBetaCutoff.max_value game ct ev fuel)
                 s' (actions game s') PInf NInf PInf 1).
  rewrite Hct. unfold ev at 1. cbn [rbind ext_gtb].
  apply (cutoff_greedy_root_loop game ct ev
           (fun s0 => utility game s0 (to_move game state)) fuel state acts Hct).
  reflexivity.
Qed.

Lemma cutoff_search_below_depth_one_witness :
  0 < 1 /\
  AlphaBetaCutoff.alpha_beta_cutoff_search 1 Nim.four nim_game 0 None None
  = max_key ext_gtb
      (fun a => do s' <- result nim_game Nim.four a;
                Ok (Fin (utility nim_game s' (to_move nim_game Nim.four))))
      true (actions nim_game Nim.four).
Proof.
  assert (H : 0 < 1) by reflexivity.
  split; [exact H |].
  exact (cutoff_search_below_depth_one nim_game Nim.four 0 0 H).
Defined.

(** ** The searches on NMensMorris *)

(** X5: on an [NMensMorris] game no search ever selects a move. For a
    state with at least one move, [minmax_decision], [alpha_beta_search]
    and [alpha_beta_cutoff_search] (any depth, cutoff test, evaluation
    function) all raise the attribute error of [result] on the first
    action, whatever the fuel; hence, for every state, none of them
    returns an action. *)
Theorem searches_never_select_a_move (self : NMensMorris) (state : GameState)
    (fuel : nat) :
  (gs_moves state <> [] ->
   MinMax.minmax_decision fuel state (NMensMorris_game self)
   = Raise (AttributeError "game") /\
   AlphaBeta.alpha_beta_search fuel state (NMensMorris_game self)
   = Raise (AttributeError "game") /\
   forall d cutoff_test eval_fn,
     AlphaBetaCutoff.alpha_beta_cutoff_search fuel state (NMensMorris_game self)
       d cutoff_test eval_fn
     = Raise (AttributeError "game")) /\
  (forall a,
     MinMax.minmax_decision fuel state (NMensMorris_game self) <> Ok (Some a) /\
     AlphaBeta.alpha_beta_search fuel state (NMensMorris_game self) <> Ok (Some a) /\
     forall d cutoff_test eval_fn,
       AlphaBetaCutoff.alpha_beta_cutoff_search fuel state (NMensMorris_game self)
         d cutoff_test eval_fn
       <> Ok (Some a)).
Proof.
  assert (Hraise : gs_moves state <> [] ->
    MinMax.minmax_decision fuel state (NMensMorris_game self)
    = Raise (AttributeError "game") /\
    AlphaBeta.alpha_beta_search fuel state (NMensMorris_game self)
    = Raise (AttributeError "game") /\
    forall d cutoff_test eval_fn,
      AlphaBetaCutoff.alpha_beta_cutoff_search fuel state (NMensMorris_game self)
        d cutoff_test eval_fn
      = Raise (AttributeError "game")).
  { intros Hne.
    unfold MinMax.minmax_decision, AlphaBeta.alpha_beta_search,
      AlphaBetaCutoff.alpha_beta_cutoff_search.
    change (actions (NMensMorris_game self) state) with (gs_moves state).
    destruct (gs_moves state) as [| m rest] eqn:Hm; [done |].
    assert (Hres : result (NMensMorris_game self) state m
                   = Raise (AttributeError "game")).
    { apply result_legal. rewrite Hm. by left. }
    cbn [max_key AlphaBeta.root_loop AlphaBetaCutoff.root_loop].
    rewrite Hres. by repeat split. }
  split; [exact Hraise |].
  intros a. destruct (gs_moves state) as [| m rest] eqn:Hm.
  - unfold MinMax.minmax_decision, AlphaBeta.alpha_beta_search,
      AlphaBetaCutoff.alpha_beta_cutoff_search.
    change (actions (NMensMorris_game self) state) with (gs_moves state).
    rewrite Hm. by repeat split.
  - destruct (Hraise ltac:(done)) as (H1 & H2 & H3).
    rewrite H1, H2. repeat split; try done.
    intros d ct ev. by rewrite H3.
Qed.

Lemma searches_never_select_a_move_witness :
  gs_moves after_first_move <> [] /\
  AlphaBeta.alpha_beta_search 3 after_first_move (NMensMorris_game NMensMorris_default)
  = Raise (AttributeError "game").
Proof.
  assert (H : gs_moves after_first_move <> []) by discriminate.
  split; [exact H |].
  exact (proj1 (proj2 (proj1 (searches_never_select_a_move
                                NMensMorris_default after_first_move 3) H))).
Defined.

(** ** expect_minmax without chances *)

(** X6: when the first action of the root leads to a non-terminal state
    for which [game.chances] is empty, [chance_node] divides by zero and
    [expect_minmax] raises [ZeroDivisionError] (given one unit of fuel). *)
Theorem expect_minmax_without_chances {State Action Chance : Type}
    (game : StochasticGame State Action Chance) (state res_state : State)
    (a : Action) (rest : list Action) (fuel : nat) :
  actions (base game) state = a :: rest ->
  result (base game) state a = Ok res_state ->
  terminal_test (base game) res_state = false ->
  chances game res_state = [] ->
  ExpectMinMax.expect_minmax (S fuel) state game = Raise ZeroDivisionError.
Proof.
  intros Hacts Hres Hterm Hch. unfold ExpectMinMax.expect_minmax.
  rewrite Hacts. cbn [max_key].
  change (ExpectMinMax.chance_node game (to_move (base game) state) (S fuel) state a)
    with (do res_state <- result (base game) state a;
          if terminal_test (base game) res_state
          then Ok (Rat (inject_Z (utility (base game) res_state
                                    (to_move (base game) state))))
          else
            let num_chances := length (chances game res_state) in
            do sum_chances <-
              ExpectMinMax.chance_loop game (to_move (base game) state)
                (ExpectMinMax.max_value game (to_move (base game) state) fuel)
                (ExpectMinMax.min_value game (to_move (base game) state) fuel)
                (chances game res_state) res_state (Rat 0);
            num_div sum_chances num_chances).
  rewrite Hres. cbn [rbind]. rewrite Hterm, Hch. reflexivity.
Qed.

Lemma expect_minmax_without_chances_witness :
  actions (base nim_without_dice) Nim.four = [1; 2]%nat /\
  result (base nim_without_dice) Nim.four 1%nat
  = Ok {| Nim.heap := 3; Nim.mover := O |} /\
  terminal_test (base nim_without_dice) {| Nim.heap := 3; Nim.mover := O |} = false /\
  chances nim_without_dice {| Nim.heap := 3; Nim.mover := O |} = [] /\
  ExpectMinMax.expect_minmax 1 Nim.four nim_without_dice = Raise ZeroDivisionError.
Proof.
  refine (conj eq_refl (conj eq_refl (conj eq_refl (conj eq_refl _)))).
  exact (expect_minmax_without_chances nim_without_dice Nim.four
           {| Nim.heap := 3; Nim.mover := O |} 1%nat [2%nat] 0
           eq_refl eq_refl eq_refl eq_refl).
Defined.

(** ** play_game on NMensMorris *)

Lemma display_raises self state :
  Play.display self state = Raise (AttributeError "game").
Proof. reflexivity. Qed.

Lemma play_round_never_returns self players : forall state out,
  Play.play_round self players state <> Ok (inr out).
Proof.
  induction players as [| p players IH]; intros state out; cbn [Play.play_round];
    [discriminate |].
  destruct (p self state) as [move | |]; cbn [rbind]; try discriminate.
  destruct (Play.result_any self state move) as [state' | |]; cbn [rbind];
    try discriminate.
  destruct (NMM.terminal_test self state'); [| apply IH].
  rewrite display_raises. discriminate.
Qed.

(** X7: [play_game] on an [NMensMorris] game never returns a utility,
    whoever the players are: a terminal state is handed to [display],
    which raises on [state.game]. From the initial state this happens on
    the very first turn of any player that returns at all. *)
Theorem play_game_never_returns (self : NMensMorris)
    (players : list Play.player_fn) (fuel : nat) :
  (forall out, Play.play_game fuel self players <> Ok out) /\
  (forall p rest move,
     players = p :: rest -> p self (initial self) = Ok move ->
     Play.play_game (S fuel) self players = Raise (AttributeError "game")).
Proof.
  split.
  - intros out. unfold Play.play_game. generalize (initial self).
    induction fuel as [| fuel IH]; intros state; cbn [Play.play_loop];
      [discriminate |].
    destruct (Play.play_round self players state) as [[state' | out'] | |] eqn:Hr;
      cbn [rbind]; try discriminate.
    + apply IH.
    + by apply play_round_never_returns in Hr.
  - intros p rest move -> Hp. unfold Play.play_game.
    cbn [Play.play_loop Play.play_round]. rewrite Hp. cbn [rbind].
    assert (Hres : Play.result_any self (initial self) move = Ok (initial self)).
    { destruct move as [m |]; [| reflexivity]. cbn [Play.result_any].
      apply result_illegal. apply not_elem_of_nil. }
    rewrite Hres. reflexivity.
Qed.

Lemma play_game_never_returns_witness :
  Play.alpha_beta_player 2 NMensMorris_default (initial NMensMorris_default)
  = Ok None /\
  Play.play_game 1 NMensMorris_default
    [Play.alpha_beta_player 2; Play.random_player 0]
  = Raise (AttributeError "game").
Proof.
  split; [reflexivity |].
  exact (proj2 (play_game_never_returns NMensMorris_default
                  [Play.alpha_beta_player 2; Play.random_player 0] 0)
           (Play.alpha_beta_player 2) [Play.random_player 0] None
           eq_refl eq_refl).
Defined.

(** X19. [chance_node] applies [terminal_test] to the result of the
    action only; the state a chance leads to goes straight to
    [max_value] or [min_value]. When that state offers no action (the
    game is over there) its value is the initial [-inf] or [inf] of the
    loop, whatever its utility; with a single chance of positive
    probability this is the value of the action. *)
Theorem chance_outcome_without_actions {State Action Chance : Type}
    (game : StochasticGame State Action Chance) (player : player) (fuel : nat)
    (state : State) (a : Action) (rs : State) (c : Chance) :
  result (base game) state a = Ok rs ->
  terminal_test (base game) rs = false ->
  chances game rs = [c] ->
  actions (base game) (outcome game rs c) = [] ->
  (0 < probability game c)%Q ->
  ExpectMinMax.chance_node game player (S (S fuel)) state a
  = Ok (if decide (state_to_move game (outcome game rs c) = player)
        then MInf else Inf).
Proof.
  intros Hres Hterm Hch Hact Hp.
  change (ExpectMinMax.chance_node game player (S (S fuel)) state a)
    with (do res_state <- result (base game) state a;
          if terminal_test (base game) res_state
          then Ok (Rat (inject_Z (utility (base game) res_state player)))
          else
            do sum_chances <-
              ExpectMinMax.chance_loop game player
                (ExpectMinMax.max_value game player (S fuel))
                (ExpectMinMax.min_value game player (S fuel))
                (chances game res_state) res_state (Rat 0);
            num_div sum_chances (length (chances game res_state))).
  rewrite Hres. cbn [rbind]. rewrite Hterm, Hch.
  cbn [ExpectMinMax.chance_loop length].
  assert (Hgt : (probability game c ?= 0)%Q = Gt) by (by apply Qgt_alt).
  case_decide.
  - change (ExpectMinMax.max_value game player (S fuel) (outcome game rs c))
      with (ExpectMinMax.action_loop (ExpectMinMax.chance_node game player fuel)
              num_max (outcome game rs c)
              (actions (base game) (outcome game rs c)) MInf).
    rewrite Hact. cbn [ExpectMinMax.action_loop rbind num_mul num_add inf_times].
    unfold inf_times. by rewrite Hgt.
  - change (ExpectMinMax.min_value game player (S fuel) (outcome game rs c))
      with (ExpectMinMax.action_loop (ExpectMinMax.chance_node game player fuel)
              num_min (outcome game rs c)
              (actions (base game) (outcome game rs c)) Inf).
    rewrite Hact. cbn [ExpectMinMax.action_loop rbind num_mul num_add inf_times].
    unfold inf_times. by rewrite Hgt.
Qed.

Lemma chance_outcome_without_actions_witness :
  result (base nim_with_wind) Nim.four 1%nat
  = Ok {| Nim.heap := 3; Nim.mover := O |} /\
  terminal_test (base nim_with_wind) {| Nim.heap := 3; Nim.mover := O |} = false /\
  chances nim_with_wind {| Nim.heap := 3; Nim.mover := O |} = [tt] /\
  actions (base nim_with_wind)
    (outcome nim_with_wind {| Nim.heap := 3; Nim.mover := O |} tt) = [] /\
  (0 < probability nim_with_wind tt)%Q /\
  utility (base nim_with_wind)
    (outcome nim_with_wind {| Nim.heap := 3; Nim.mover := O |} tt) X = 1 /\
  ExpectMinMax.chance_node nim_with_wind X 2 Nim.four 1%nat = Ok Inf.
Proof.
  assert (H1 : result (base nim_with_wind) Nim.four 1%nat
               = Ok {| Nim.heap := 3; Nim.mover := O |}) by reflexivity.
  assert (H2 : terminal_test (base nim_with_wind) {| Nim.heap := 3; Nim.mover := O |}
               = false) by reflexivity.
  assert (H3 : chances nim_with_wind {| Nim.heap := 3; Nim.mover := O |} = [tt])
    by reflexivity.
  assert (H4 : actions (base nim_with_wind)
                 (outcome nim_with_wind {| Nim.heap := 3; Nim.mover := O |} tt) = [])
    by reflexivity.
  assert (H5 : (0 < probability nim_with_wind tt)%Q) by reflexivity.
  refine (conj H1 (conj H2 (conj H3 (conj H4 (conj H5 (conj _ _)))))).
  - vm_compute. reflexivity.
  - exact (chance_outcome_without_actions nim_with_wind X 0 Nim.four 1%nat _ tt
             H1 H2 H3 H4 H5).
Defined.

End SearchMore.

(** * More on NMensMorris *)

Module NMMFacts.

Section Runs.
Context (board : gmap pos player) (p : player) (dx dy : Z).

Lemma run_length_bounds fuel : forall x y,
  0 <= NMM.run_length fuel board p x y dx dy <= Z.of_nat fuel.
Proof.
  induction fuel as [| fuel IH]; intros x y; cbn [NMM.run_length]; [lia |].
  case_decide; [| lia]. specialize (IH (x + dx) (y + dy)). lia.
Qed.

(** The squares counted by a run carry the player's mark. *)
Lemma run_length_owned fuel : forall x y i,
  0 <= i < NMM.run_length fuel board p x y dx dy ->
  board !! (x + i * dx, y + i * dy) = Some p.
Proof.
  induction fuel as [| fuel IH]; intros x y i; cbn [NMM.run_length]; [lia |].
  case_decide as Hxy; [| lia]. intros Hi.
  destruct (decide (i = 0)) as [-> | Hne].
  - by replace (x + 0 * dx) with x by lia; replace (y + 0 * dy) with y by lia.
  - replace (x + i * dx) with (x + dx + (i - 1) * dx) by ring.
    replace (y + i * dy) with (y + dy + (i - 1) * dy) by ring.
    apply IH. lia.
Qed.

(** A run covers every stretch of marked squares that the fuel allows. *)
Lemma run_length_ge fuel : forall x y m,
  0 <= m <= Z.of_nat fuel ->
  (forall i, 0 <= i < m -> board !! (x + i * dx, y + i * dy) = Some p) ->
  m <= NMM.run_length fuel board p x y dx dy.
Proof.
  induction fuel as [| fuel IH]; intros x y m Hm Hown; cbn [NMM.run_length];
    [lia |].
  destruct (decide (m = 0)) as [-> | Hne].
  - case_decide; [| lia]. pose proof (run_length_bounds fuel (x + dx) (y + dy)). lia.
  - pose proof (Hown 0 ltac:(lia)) as H0.
    replace (x + 0 * dx) with x in H0 by lia.
    replace (y + 0 * dy) with y in H0 by lia.
    rewrite decide_True by exact H0.
    assert (m - 1 <= NMM.run_length fuel board p (x + dx) (y + dy) dx dy); [| lia].
    apply IH; [lia |]. intros i Hi.
    replace (x + dx + i * dx) with (x + (i + 1) * dx) by ring.
    replace (y + dy + i * dy) with (y + (i + 1) * dy) by ring.
    apply Hown. lia.
Qed.

(** A stretch of marked squares in a proper direction is no longer than
    the board has entries. *)
Lemma owned_line_size x y m :
  (dx, dy) <> (0, 0) -> 0 <= m ->
  (forall i, 0 <= i < m -> board !! (x + i * dx, y + i * dy) = Some p) ->
  m <= Z.of_nat (size board).
Proof.
  intros Hd Hm Hown.
  set (l := (fun i => (x + i * dx, y + i * dy)) <$> seqZ 0 m).
  assert (Hnd : NoDup l).
  { apply NoDup_fmap_2_strong; [| apply NoDup_seqZ].
    intros i j _ _ [= H1 H2].
    destruct (decide (dx = 0)) as [-> | Hx].
    - assert (dy <> 0) by congruence. nia.
    - nia. }
  assert (Hsub : (list_to_set l : gset pos) ⊆ dom board).
  { intros q Hq. apply elem_of_list_to_set in Hq.
    apply list_elem_of_fmap in Hq as (i & -> & Hi).
    apply elem_of_seqZ in Hi. apply elem_of_dom. rewrite Hown by lia. eauto. }
  apply subseteq_size in Hsub.
  rewrite size_list_to_set, size_dom in Hsub by exact Hnd.
  unfold l in Hsub. rewrite length_fmap, length_seqZ in Hsub. lia.
Qed.

End Runs.

Lemma k_in_row_spec self board move p delta :
  delta <> (0, 0) ->
  NMM.k_in_row self board move p delta = true <->
  line_through self board move p delta.
Proof.
  destruct delta as [dx dy], move as [x y]. intros Hd.
  unfold NMM.k_in_row, line_through. cbn [fst snd].
  set (fuel := S (size board)).
  set (nf := NMM.run_length fuel board p x y dx dy).
  set (nb := NMM.run_length fuel board p x y (- dx) (- dy)).
  rewrite Z.leb_le. split.
  - intros Hk. exists nf, nb.
    pose proof (run_length_bounds board p dx dy fuel x y).
    pose proof (run_length_bounds board p (- dx) (- dy) fuel x y).
    repeat split; try lia.
    + intros i Hi. by apply run_length_owned with (fuel := fuel).
    + intros i Hi.
      replace (x - i * dx) with (x + i * - dx) by ring.
      replace (y - i * dy) with (y + i * - dy) by ring.
      by apply run_length_owned with (fuel := fuel).
  - intros (a & b & Ha & Hb & Hk & Hfw & Hbw).
    assert (Hbw' : forall i, 0 <= i < b ->
              board !! (x + i * - dx, y + i * - dy) = Some p).
    { intros i Hi. replace (x + i * - dx) with (x - i * dx) by ring.
      replace (y + i * - dy) with (y - i * dy) by ring. by apply Hbw. }
    assert (a <= nf).
    { apply run_length_ge; [| exact Hfw].
      pose proof (owned_line_size board p dx dy x y a Hd Ha Hfw). unfold fuel. lia. }
    assert (b <= nb).
    { apply run_length_ge; [| exact Hbw'].
      assert (Hd' : (- dx, - dy) <> (0, 0)).
      { intros [= H1 H2]. apply Hd. f_equal; lia. }
      pose proof (owned_line_size board p (- dx) (- dy) x y b Hd' Hb Hbw').
      unfold fuel. lia. }
    lia.
Qed.

(** X8: [k_in_row] is true exactly when the marks of [player] through
    [move] in the given direction (any direction but (0, 0)) span at least
    [k] squares; and [compute_utility] returns +1 for X or -1 for O when
    this holds in one of its four directions, and 0 otherwise. *)
Theorem compute_utility_spec (self : NMensMorris) (board : gmap pos player)
    (move : pos) (p : player) :
  (forall delta, delta <> (0, 0) ->
     NMM.k_in_row self board move p delta = true <->
     line_through self board move p delta) /\
  ((exists delta, delta ∈ directions /\ line_through self board move p delta) ->
   NMM.compute_utility self board move p = if decide (p = X) then 1 else -1) /\
  (~ (exists delta, delta ∈ directions /\ line_through self board move p delta) ->
   NMM.compute_utility self board move p = 0).
Proof.
  split; [intros delta; apply k_in_row_spec |].
  unfold NMM.compute_utility, directions.
  assert (H1 := k_in_row_spec self board move p (0, 1) ltac:(discriminate)).
  assert (H2 := k_in_row_spec self board move p (1, 0) ltac:(discriminate)).
  assert (H3 := k_in_row_spec self board move p (1, -1) ltac:(discriminate)).
  assert (H4 := k_in_row_spec self board move p (1, 1) ltac:(discriminate)).
  split.
  - intros (delta & Hin & Hline).
    rewrite !elem_of_cons, elem_of_nil in Hin.
    destruct Hin as [-> | [-> | [-> | [-> | []]]]].
    + apply H1 in Hline. by rewrite Hline.
    + apply H2 in Hline. by rewrite Hline, orb_true_r.
    + apply H3 in Hline. by rewrite Hline, !orb_true_r.
    + apply H4 in Hline. by rewrite Hline, !orb_true_r.
  - intros Hno.
    destruct (NMM.k_in_row self board move p (0, 1)) eqn:E1.
    { exfalso. apply Hno. exists (0, 1). split; [by left | by apply H1]. }
    destruct (NMM.k_in_row self board move p (1, 0)) eqn:E2.
    { exfalso. apply Hno. exists (1, 0). split; [by right; left | by apply H2]. }
    destruct (NMM.k_in_row self board move p (1, -1)) eqn:E3.
    { exfalso. apply Hno. exists (1, -1).
      split; [by right; right; left | by apply H3]. }
    destruct (NMM.k_in_row self board move p (1, 1)) eqn:E4.
    { exfalso. apply Hno. exists (1, 1).
      split; [by right; right; right; left | by apply H4]. }
    reflexivity.
Qed.

Lemma compute_utility_spec_witness :
  (exists delta, delta ∈ directions /\
                 line_through NMensMorris_default top_row_X (1, 2) X delta) /\
  NMM.compute_utility NMensMorris_default top_row_X (1, 2) X = 1.
Proof.
  assert (H : exists delta, delta ∈ directions /\
                line_through NMensMorris_default top_row_X (1, 2) X delta).
  { exists (0, 1). split; [by left |]. exists 2, 2. cbn [fst snd].
    repeat split; try (vm_compute; discriminate).
    - intros i Hi. assert (i = 0 \/ i = 1) as [-> | ->] by lia; reflexivity.
    - intros i Hi. assert (i = 0 \/ i = 1) as [-> | ->] by lia; reflexivity. }
  split; [exact H |].
  exact (proj1 (proj2 (compute_utility_spec NMensMorris_default top_row_X (1, 2) X)) H).
Defined.

(** ** gen_state *)

Lemma lookup_foldl_insert (m : player) (l : list pos) : forall (b : gmap pos player) q,
  foldl (fun b p => <[p := m]> b) b l !! q
  = if decide (q ∈ l) then Some m else b !! q.
Proof.
  induction l as [| a l IH]; intros b q; cbn [foldl].
  - rewrite decide_False by apply not_elem_of_nil. reflexivity.
  - rewrite IH. destruct (decide (q ∈ l)) as [Hl | Hl].
    + rewrite decide_True by (by right). reflexivity.
    + destruct (decide (q = a)) as [-> | Hne].
      * rewrite decide_True by (by left). apply lookup_insert_eq.
      * rewrite decide_False.
        -- by apply lookup_insert_ne.
        -- intros Hq. apply elem_of_cons in Hq as [? | ?]; done.
Qed.

(** X9: in the state built by [gen_state] the moves are, without
    repetition, exactly the squares of the [h] x [v] grid that appear in
    neither position list; the board gives O to every square of
    [o_positions], X to the squares of [x_positions] that are not also in
    [o_positions], and nothing to any other square; the utility is 0. *)
Theorem gen_state_spec (to_move : player) (x_positions o_positions : list pos)
    (h v : Z) :
  let state := gen_state to_move x_positions o_positions h v in
  NoDup (gs_moves state) /\
  (forall p, p ∈ gs_moves state <->
             1 <= p.1 <= h /\ 1 <= p.2 <= v /\
             (p ∉ x_positions) /\ (p ∉ o_positions)) /\
  (forall p, gs_board state !! p =
             if decide (p ∈ o_positions) then Some O
             else if decide (p ∈ x_positions) then Some X else None) /\
  gs_utility state = 0 /\ gs_to_move state = to_move.
Proof.
  cbn. split; [apply NoDup_elements |]. split; [| split; [| done]].
  - intros [x y]. rewrite elem_of_elements, !elem_of_difference,
      !elem_of_list_to_set. cbn [fst snd].
    assert ((x, y) ∈ (x0 ← seqZ 1 h; y0 ← seqZ 1 v; [(x0, y0)])
            <-> 1 <= x <= h /\ 1 <= y <= v) as ->; [| tauto].
    rewrite list_elem_of_bind. split.
    + intros (x0 & Hin & Hx0). apply list_elem_of_bind in Hin as (y0 & Hin & Hy0).
      apply list_elem_of_singleton in Hin as [= -> ->].
      apply elem_of_seqZ in Hx0, Hy0. lia.
    + intros [Hx Hy]. exists x. split; [| apply elem_of_seqZ; lia].
      apply list_elem_of_bind. exists y. split; [by left | apply elem_of_seqZ; lia].
  - intros p. rewrite !lookup_foldl_insert. by rewrite lookup_empty.
Qed.

End NMMFacts.

(** * More on BoardGui *)

Module GuiMoreFacts.
Import Gui GuiFacts GuiMore.

(** ** What the pieces of [on_click] keep *)

Lemma kept_refl s : kept s s.
Proof. by repeat split. Qed.

Lemma kept_trans s1 s2 s3 : kept s1 s2 -> kept s2 s3 -> kept s1 s3.
Proof.
  intros (A1 & A2 & A3 & A4 & A5 & A6) (B1 & B2 & B3 & B4 & B5 & B6).
  repeat split; congruence.
Qed.

Lemma map_alter_same {A B : Type} (f : A -> B) (g : A -> A) (l : list A) :
  (forall x, f (g x) = f x) -> forall i, map f (alter g i l) = map f l.
Proof.
  intros Hfg. induction l as [| a l IH]; intros [| i]; cbn; try done.
  - by rewrite Hfg.
  - f_equal. apply IH.
Qed.

Lemma layout_set_text r i t s : layout (set_text r i t s) = layout s.
Proof.
  unfold layout, set_text. cbn [cells set_cells].
  apply map_alter_same. intros row. by apply map_alter_same.
Qed.

Lemma kept_set_text r i t s : kept s (set_text r i t s).
Proof. split; [apply layout_set_text | by repeat split]. Qed.

Lemma kept_check3inRow pl p s : kept s (check3inRow pl p s).2.
Proof.
  rewrite check3inRow_spec. cbn [snd].
  destruct (in_mill _ p); [destruct pl |]; by repeat split.
Qed.

Lemma kept_move_inner s sr si sCell er end_ erow s' :
  move_inner s sr si sCell er end_ erow = Some s' -> kept s s'.
Proof.
  induction erow as [| [ei eCell] rest IH]; cbn [move_inner]; [discriminate |].
  repeat case_decide; try exact IH.
  intros [= <-]. eapply kept_trans; apply kept_set_text.
Qed.

Lemma kept_move_outer s sr a start end_ srow b s' :
  move_outer s sr a start end_ srow = Ok (b, s') -> kept s s'.
Proof.
  induction srow as [| [si sCell] rest IH]; cbn [move_outer].
  - intros [= <- <-]. apply kept_refl.
  - repeat case_decide; try exact IH; try discriminate.
    destruct (norm_index _ a) as [er |]; [| discriminate].
    destruct (py_index (cells s) a) as [erow | |]; cbn [rbind]; try discriminate.
    destruct (move_inner _ _ _ _ _ _ _) as [s1 |] eqn:Hin; [| exact IH].
    intros [= <- <-]. by apply kept_move_inner in Hin.
Qed.

Lemma kept_move start end_ s b s' : move start end_ s = Ok (b, s') -> kept s s'.
Proof.
  unfold move. destruct (negb _).
  - intros [= <- <-]. apply kept_refl.
  - destruct start as [x y], end_ as [a c].
    destruct (norm_index _ x) as [sr |]; [| discriminate].
    destruct (py_index (cells s) x) as [srow | |]; cbn [rbind]; try discriminate.
    apply kept_move_outer.
Qed.

Lemma kept_config_button p t s s' : config_button p t s = Ok s' -> kept s s'.
Proof.
  unfold config_button. destruct (getButton p s) as [[[r i] |] | |];
    cbn [rbind]; try discriminate.
  intros [= <-]. apply kept_set_text.
Qed.

Lemma kept_chooseRandomToRemove lst rng s sol s' rng' :
  chooseRandomToRemove lst rng s = Ok (sol, s', rng') -> kept s s'.
Proof.
  intros H. apply chooseRandomToRemove_frame in H as [n ->]. by repeat split.
Qed.

Lemma material_le_refl s : material_le s s.
Proof. unfold material_le. repeat split; try lia; done. Qed.

Lemma material_le_trans s1 s2 s3 :
  material_le s1 s2 -> material_le s2 s3 -> material_le s1 s3.
Proof. unfold material_le. intros A B. intuition lia. Qed.

Lemma step_ok_of_kept s s' : kept s s' -> step_ok s s'.
Proof.
  intros (K1 & K2 & K3 & K4 & K5 & K6).
  repeat split; try done; unfold material1, material2; rewrite ?K3, ?K4; lia.
Qed.

Lemma step_ok_trans s1 s2 s3 : step_ok s1 s2 -> step_ok s2 s3 -> step_ok s1 s3.
Proof.
  intros (A1 & A2 & A3) (B1 & B2 & B3).
  split; [congruence | split; [congruence | by eapply material_le_trans]].
Qed.

(** A state that differs from [s] by the fields of the two players and
    the tokens only. *)
Lemma step_ok_fields s s' :
  cells s' = cells s -> to_move s' = to_move s ->
  player1tokens s' <= player1tokens s -> player2tokens s' <= player2tokens s ->
  (0 <= player1tokens s -> 0 <= player1tokens s') ->
  (0 <= player2tokens s -> 0 <= player2tokens s') ->
  material1 s' <= material1 s -> material2 s' <= material2 s ->
  step_ok s s'.
Proof.
  intros Hc. repeat split; try done. unfold layout. by rewrite Hc.
Qed.

Ltac step_ok_tac :=
  apply step_ok_fields; unfold material1, material2; cbn;
  rewrite ?length_app; cbn; try done; try lia.

Lemma step_ok_p1_setup button xy s : step_ok s (p1_setup button xy s).2.
Proof.
  unfold p1_setup.
  set (s1 := if 1 <? player1tokens s then _ else _).
  assert (H1 : step_ok s s1).
  { subst s1. destruct (Z.ltb_spec 1 (player1tokens s)) as [Hlt | Hge];
      [| destruct (Z.eqb_spec (player1tokens s) 1) as [Heq | Hne]].
    - eapply step_ok_trans; [| apply step_ok_of_kept, kept_set_text]. step_ok_tac.
    - eapply step_ok_trans; [| apply step_ok_of_kept, kept_set_text]. step_ok_tac.
    - apply step_ok_of_kept, kept_refl. }
  pose proof (kept_check3inRow (to_move s1) xy s1) as H2.
  destruct (check3inRow (to_move s1) xy s1) as [[] s2]; cbn [snd] in *.
  - eapply step_ok_trans; [exact H1 |].
    eapply step_ok_trans; [apply step_ok_of_kept, H2 |]. step_ok_tac.
  - eapply step_ok_trans; [exact H1 | apply step_ok_of_kept, H2].
Qed.

Lemma step_ok_p1_move xy s b s' : p1_move xy s = Ok (b, s') -> step_ok s s'.
Proof.
  unfold p1_move. case_bool_decide as Hin.
  { intros [= <- <-]. step_ok_tac. }
  destruct (picked (player1 s)) as [start |]; [| intros [= <- <-]; apply step_ok_of_kept, kept_refl].
  destruct (move start xy s) as [[[] s1] | |] eqn:Hmove; cbn [rbind]; try discriminate.
  - apply kept_move in Hmove.
    destruct (list_remove start _) as [l | |] eqn:Hrem; cbn [rbind]; try discriminate.
    apply list_remove_length in Hrem.
    set (s2 := set_player1 (set_picked None _) _).
    assert (H2 : step_ok s1 s2).
    { subst s2. step_ok_tac. }
    pose proof (kept_check3inRow (to_move s2) xy s2) as H3.
    destruct (check3inRow (to_move s2) xy s2) as [[] s3]; cbn [snd] in *;
      intros [= <- <-];
      (eapply step_ok_trans; [apply step_ok_of_kept, Hmove |]);
      (eapply step_ok_trans; [exact H2 |]);
      (eapply step_ok_trans; [apply step_ok_of_kept, H3 |]).
    + step_ok_tac.
    + apply step_ok_of_kept, kept_refl.
  - intros [= <- <-]. apply step_ok_of_kept. by apply kept_move in Hmove.
Qed.

Lemma step_ok_p1_remove button xy s b s' :
  p1_remove button xy s = Ok (b, s') -> step_ok s s'.
Proof.
  unfold p1_remove. case_bool_decide as Hin;
    [| intros [= <- <-]; apply step_ok_of_kept, kept_refl].
  pose proof (kept_check3inRow O xy s) as H1.
  destruct (check3inRow O xy s) as [c s1]; cbn [snd] in *.
  destruct (c && _).
  { intros [= <- <-]. by apply step_ok_of_kept. }
  destruct (list_remove xy _) as [l | |] eqn:Hrem; cbn [rbind]; try discriminate.
  apply list_remove_length in Hrem.
  set (s2 := set_text _ _ _ _).
  assert (H2 : step_ok s1 s2).
  { subst s2. eapply step_ok_trans; [| apply step_ok_of_kept, kept_set_text].
    step_ok_tac. }
  assert (H : step_ok s s2)
    by (eapply step_ok_trans; [apply step_ok_of_kept, H1 | exact H2]).
  destruct (check_win s2); [| destruct (player1tokens s2 =? 0)];
    intros [= <- <-]; try exact H;
    (eapply step_ok_trans; [exact H |]); step_ok_tac.
Qed.

Lemma step_ok_p2_remove rng s b s' rng' :
  p2_remove rng s = Ok (b, s', rng') ->
  step_ok s s' /\ (b = true -> check_win s' = true).
Proof.
  unfold p2_remove.
  destruct (chooseRandomToRemove _ rng s) as [[[rem s1] rng1] | |] eqn:Hch;
    cbn [rbind]; try discriminate.
  apply kept_chooseRandomToRemove in Hch.
  destruct (list_remove rem (poses (player1 s1))) as [l | |] eqn:Hrem;
    cbn [rbind]; try discriminate.
  apply list_remove_length in Hrem.
  destruct (config_button rem None _) as [s2 | |] eqn:Hcfg;
    cbn [rbind]; try discriminate.
  apply kept_config_button in Hcfg.
  assert (H : step_ok s s2).
  { eapply step_ok_trans; [apply step_ok_of_kept, Hch |].
    eapply step_ok_trans; [| apply step_ok_of_kept, Hcfg]. step_ok_tac. }
  destruct (check_win s2) eqn:Hwin; [| destruct (player2tokens s2 =? 0)];
    intros [= <- <- <-]; (split; [| done]); try exact H;
    (eapply step_ok_trans; [exact H |]); step_ok_tac.
Qed.

Lemma step_ok_p2_check pos rng s b s' rng' :
  p2_check pos rng s = Ok (b, s', rng') ->
  step_ok s s' /\ (b = true -> check_win s' = true).
Proof.
  unfold p2_check.
  pose proof (kept_check3inRow (to_move s) pos s) as H1.
  destruct (check3inRow (to_move s) pos s) as [[] s1]; cbn [snd] in *.
  - intros H. apply step_ok_p2_remove in H as [H Hb]. split; [| exact Hb].
    eapply step_ok_trans; [apply step_ok_of_kept, H1 | exact H].
  - intros [= <- <- <-]. split; [by apply step_ok_of_kept | done].
Qed.

Lemma step_ok_p2_setup r i pos rng s b s' rng' :
  p2_setup r i pos rng s = Ok (b, s', rng') ->
  step_ok s s' /\ (b = true -> check_win s' = true).
Proof.
  unfold p2_setup.
  set (s1 := if 1 <? player2tokens s then _ else _).
  assert (H1 : step_ok s s1).
  { subst s1. destruct (Z.ltb_spec 1 (player2tokens s)) as [Hlt | Hge];
      [| destruct (Z.eqb_spec (player2tokens s) 1) as [Heq | Hne]].
    - eapply step_ok_trans; [| apply step_ok_of_kept, kept_set_text]. step_ok_tac.
    - eapply step_ok_trans; [| apply step_ok_of_kept, kept_set_text]. step_ok_tac.
    - apply step_ok_of_kept, kept_refl. }
  intros H. apply step_ok_p2_check in H as [H Hb]. split; [| exact Hb].
  eapply step_ok_trans; [exact H1 | exact H].
Qed.

Lemma step_ok_p2_move rng s b s' rng' :
  p2_move rng s = Ok (b, s', rng') ->
  step_ok s s' /\ (b = true -> check_win s' = true).
Proof.
  unfold p2_move.
  destruct (makeRandomMove rng s) as [[[ab xy] rng1] | |]; cbn [rbind]; try discriminate.
  match goal with |- context [rbind ?m _] => destruct m as [s1 | |] eqn:Hs1 end;
    cbn [rbind]; try discriminate.
  assert (H1 : step_ok s s1).
  { case_bool_decide as Hin; [| injection Hs1 as <-; apply step_ok_of_kept, kept_refl].
    destruct (move ab xy _) as [[moved s2] | |] eqn:Hmove; cbn [rbind] in Hs1;
      try discriminate.
    apply kept_move in Hmove.
    match type of Hs1 with rbind ?m _ = _ => destruct m as [s3 | |] eqn:Hs3 end;
      cbn [rbind] in Hs1; try discriminate.
    injection Hs1 as <-.
    assert (H23 : step_ok s2 s3).
    { destruct moved; [| injection Hs3 as <-; apply step_ok_of_kept, kept_refl].
      destruct (list_remove ab _) as [l | |] eqn:Hrem; cbn [rbind] in Hs3;
        try discriminate.
      apply list_remove_length in Hrem.
      destruct (config_button xy _ _) as [s4 | |] eqn:Hc1; cbn [rbind] in Hs3;
        try discriminate.
      apply kept_config_button in Hc1. apply kept_config_button in Hs3.
      eapply step_ok_trans; [| apply step_ok_of_kept, Hs3].
      eapply step_ok_trans; [| apply step_ok_of_kept, Hc1]. step_ok_tac. }
    eapply step_ok_trans; [| eapply step_ok_trans;
      [eapply step_ok_trans; [apply step_ok_of_kept, Hmove | exact H23] |]];
      step_ok_tac. }
  intros H. apply step_ok_p2_check in H as [H Hb]. split; [| exact Hb].
  eapply step_ok_trans; [exact H1 | exact H].
Qed.

Lemma layout_disable_game s : layout (disable_game s) = layout s.
Proof.
  unfold layout, disable_game. cbn [cells set_cells].
  rewrite map_map. apply map_ext. intros row. rewrite map_map. by apply map_ext.
Qed.

Lemma all_blank_disable_game s : all_blank (disable_game s).
Proof.
  unfold all_blank, disable_game. cbn [cells set_cells]. intros c Hc.
  apply list_elem_of_In, in_concat in Hc as (row & Hrow & Hc).
  apply in_map_iff in Hrow as (row0 & <- & _).
  by apply in_map_iff in Hc as (c0 & <- & _).
Qed.

Lemma toggle_toggle s : to_move (toggle (toggle s)) = to_move s.
Proof. unfold toggle. cbn. by destruct (to_move s). Qed.

(** One call of [on_click]: the buttons stay where they are, no material
    is gained, and [to_move] is what it was unless the game has ended. *)
Lemma on_click_inv button rng s s' rng' :
  on_click button rng s = Ok (s', rng') ->
  layout s' = layout s /\ material_le s s' /\
  (to_move s' = to_move s \/ check_win s' = true \/ all_blank s').
Proof.
  unfold on_click.
  destruct (getCoordinates button s) as [xy | |]; cbn [rbind]; try discriminate.
  match goal with |- context [rbind ?m _] => destruct m as [[returned s1] | |] eqn:Hp1 end;
    cbn [rbind]; try discriminate.
  assert (H1 : step_ok s s1).
  { destruct (step (player1 s)).
    - injection Hp1 as Hp1. pose proof (step_ok_p1_setup button xy s) as H.
      destruct (p1_setup button xy s) as [b0 s0]. cbn in H. by simplify_eq.
    - by apply step_ok_p1_move in Hp1.
    - by apply step_ok_p1_remove in Hp1. }
  destruct H1 as (L1 & T1 & M1).
  destruct returned.
  { intros [= <- <-]. split; [exact L1 | split; [exact M1 | by left]]. }
  destruct (randomMove rng (toggle s1)) as [[[a b] rng1] | |]; cbn [rbind];
    try discriminate.
  destruct (cell_at a b (toggle s1)) as [[[r i] cell] | |]; cbn [rbind];
    try discriminate.
  destruct (negb (a =? -1) && negb (b =? -1)).
  - match goal with |- context [rbind ?m _] =>
      destruct m as [[[returned s2] rng2] | |] eqn:Hp2 end;
      cbn [rbind]; try discriminate.
    assert (H2 : step_ok (toggle s1) s2 /\ (returned = true -> check_win s2 = true)).
    { destruct (step (player2 (toggle s1))).
      - by apply step_ok_p2_setup in Hp2.
      - by apply step_ok_p2_move in Hp2.
      - injection Hp2 as <- <- <-. split; [apply step_ok_of_kept, kept_refl | done]. }
    destruct H2 as [(L2 & T2 & M2) Hb].
    assert (M : material_le s s2).
    { eapply material_le_trans; [exact M1 |]. exact M2. }
    destruct returned; intros [= <- <-].
    + split; [exact (eq_trans L2 L1) | split; [exact M | right; left; by apply Hb]].
    + split; [exact (eq_trans L2 L1) | split; [exact M |]].
      left. rewrite <- T1, <- (toggle_toggle s1). unfold toggle at 1 3. cbn.
      by rewrite T2.
  - intros [= <- <-].
    split; [by rewrite layout_disable_game | split; [exact M1 |]].
    right; right. apply all_blank_disable_game.
Qed.

Lemma run_inv clicks : forall rng s s' rng',
  run clicks rng s = Ok (s', rng') ->
  layout s' = layout s /\ material_le s s'.
Proof.
  induction clicks as [| button rest IH]; intros rng s s' rng'; cbn [run].
  - intros [= <- <-]. split; [done | apply material_le_refl].
  - destruct (on_click button rng s) as [[s1 rng1] | |] eqn:Hc; cbn [rbind];
      try discriminate.
    cbn [fst snd]. intros H.
    apply IH in H as [L M]. apply on_click_inv in Hc as (L1 & M1 & _).
    split; [congruence | by eapply material_le_trans].
Qed.

(** ** Invariants of the event loop *)

(** X10. Whatever is clicked and whatever the generator hands out, a
    sequence of calls of [on_click] that returns leaves every button at
    its place in [cells], never raises a token count, never makes a
    non-negative token count negative, and never raises a player's
    material (pieces in [poses] plus tokens). From the state built by
    [__init__], both token counts therefore stay between 0 and 9 and no
    player ever has more than nine men. *)
Theorem clicks_never_add_material clicks rng s s' rng' :
  run clicks rng s = Ok (s', rng') ->
  layout s' = layout s /\
  material_le s s' /\
  (s = init ->
   0 <= player1tokens s' <= 9 /\ 0 <= player2tokens s' <= 9 /\
   material1 s' <= 9 /\ material2 s' <= 9).
Proof.
  intros H. apply run_inv in H as [L M].
  split; [exact L | split; [exact M |]]. intros ->.
  destruct M as (A & B & C & D & E & F).
  change (player1tokens init) with 9 in *. change (player2tokens init) with 9 in *.
  change (material1 init) with 9 in E. change (material2 init) with 9 in F.
  lia.
Qed.

Lemma clicks_never_add_material_witness :
  run [(0, 1); (1, 1)]%nat [3; 3; 3; 4]%nat init = Ok (two_each, []) /\
  layout two_each = layout init /\
  material_le init two_each /\
  (init = init ->
   0 <= player1tokens two_each <= 9 /\ 0 <= player2tokens two_each <= 9 /\
   material1 two_each <= 9 /\ material2 two_each <= 9).
Proof.
  assert (H : run [(0, 1); (1, 1)]%nat [3; 3; 3; 4]%nat init = Ok (two_each, []))
    by (vm_compute; reflexivity).
  refine (conj H _).
  exact (clicks_never_add_material _ _ _ _ _ H).
Defined.

(** X11. A call of [on_click] that returns leaves [to_move] as it found
    it (player 1 has to click again, or both players have played),
    unless it ended the game: [check_win] holds in the returned state,
    or [randomMove] found no free cell and [disable_game] blanked the
    board. *)
Theorem click_returns_the_turn button rng s s' rng' :
  on_click button rng s = Ok (s', rng') ->
  to_move s' = to_move s \/ check_win s' = true \/ all_blank s'.
Proof. intros H. by apply on_click_inv in H as (_ & _ & H). Qed.

Lemma click_returns_the_turn_witness :
  on_click (6, 2)%nat [3; 5; 2]%nat two_each = Ok (after_O_mill, []) /\
  (to_move after_O_mill = to_move two_each \/ check_win after_O_mill = true \/
   all_blank after_O_mill).
Proof.
  assert (H : on_click (6, 2)%nat [3; 5; 2]%nat two_each = Ok (after_O_mill, []))
    by (vm_compute; reflexivity).
  refine (conj H _).
  exact (click_returns_the_turn _ _ _ _ _ H).
Defined.

(** ** move *)

Lemma py_index_lookup {A} (l : list A) i n a :
  norm_index (length l) i = Some n -> py_index l i = Ok a -> l !! n = Some a.
Proof.
  unfold py_index. intros ->. destruct (l !! n); [| discriminate]. by intros [= ->].
Qed.

Lemma enumerate_lookup {A} (l : list A) i a :
  (i, a) ∈ enumerate l -> l !! i = Some a.
Proof.
  unfold enumerate. intros H.
  apply elem_of_lookup_imap in H as (j & x & [= -> ->] & H). exact H.
Qed.

Lemma count_mark_cons p c l :
  count_mark p (c :: l) = (mark_weight p (text c) + count_mark p l)%nat.
Proof.
  unfold count_mark, mark_weight. rewrite filter_cons.
  by destruct (decide (text c = Some p)).
Qed.

Lemma count_mark_app p l1 l2 :
  count_mark p (l1 ++ l2) = (count_mark p l1 + count_mark p l2)%nat.
Proof. unfold count_mark. by rewrite filter_app, length_app. Qed.

Lemma count_mark_alter p f (row : list Cell) : forall i c,
  row !! i = Some c ->
  (count_mark p (alter f i row) + mark_weight p (text c)
   = count_mark p row + mark_weight p (text (f c)))%nat.
Proof.
  induction row as [| c0 row IH]; intros [| i] c; cbn -[count_mark mark_weight];
    try discriminate.
  - intros [= ->]. rewrite !count_mark_cons. lia.
  - intros H. rewrite !count_mark_cons. specialize (IH i c H). lia.
Qed.

Lemma count_mark_concat_alter p g (rows : list (list Cell)) : forall r row,
  rows !! r = Some row ->
  (count_mark p (concat (alter g r rows)) + count_mark p row
   = count_mark p (concat rows) + count_mark p (g row))%nat.
Proof.
  induction rows as [| row0 rows IH]; intros [| r] row; cbn -[count_mark];
    try discriminate.
  - intros [= ->]. rewrite !count_mark_app. lia.
  - intros H. rewrite !count_mark_app. specialize (IH r row H). lia.
Qed.

Lemma marks_set_text p r i t s c :
  button_at r i s = Some c ->
  (marks p (set_text r i t s) + mark_weight p (text c)
   = marks p s + mark_weight p t)%nat.
Proof.
  unfold button_at, marks, set_text. cbn [cells set_cells].
  destruct (cells s !! r) as [row |] eqn:Hrow; cbn; [| discriminate].
  intros Hc.
  pose proof (count_mark_concat_alter p
    (alter (fun c => {| cpos := cpos c; text := t |}) i) _ _ _ Hrow) as H1.
  pose proof (count_mark_alter p (fun c => {| cpos := cpos c; text := t |}) _ _ _ Hc)
    as H2.
  cbn in H2. lia.
Qed.

Lemma button_at_set_text r i t s r' i' :
  (r', i') <> (r, i) -> button_at r' i' (set_text r i t s) = button_at r' i' s.
Proof.
  unfold button_at, set_text. cbn [cells set_cells]. intros Hne.
  destruct (decide (r' = r)) as [-> | Hr].
  - rewrite list_lookup_alter_eq. destruct (cells s !! r) as [row |]; [| reflexivity].
    cbn. apply list_lookup_alter_ne. congruence.
  - by rewrite list_lookup_alter_ne.
Qed.

Lemma move_inner_spec s sr si sCell er end_ erow s' :
  move_inner s sr si sCell er end_ erow = Some s' ->
  exists ei eCell, (ei, eCell) ∈ erow /\ cpos eCell = end_ /\ text eCell = None /\
                   s' = set_text sr si None (set_text er ei (text sCell) s).
Proof.
  induction erow as [| [ei eCell] rest IH]; cbn [move_inner]; [discriminate |].
  assert (Hrest : move_inner s sr si sCell er end_ rest = Some s' ->
                  exists ei0 eCell0, (ei0, eCell0) ∈ (ei, eCell) :: rest /\
                    cpos eCell0 = end_ /\ text eCell0 = None /\
                    s' = set_text sr si None (set_text er ei0 (text sCell) s)).
  { intros H. apply IH in H as (ei' & eCell' & H1 & H2).
    exists ei', eCell'. split; [by right | exact H2]. }
  repeat case_decide; try exact Hrest.
  intros [= <-]. exists ei, eCell. split; [by left | done].
Qed.

Lemma move_outer_spec s sr a start end_ srow b s' :
  move_outer s sr a start end_ srow = Ok (b, s') ->
  (b = false -> s' = s) /\
  (b = true ->
   exists si sCell er erow ei eCell,
     (si, sCell) ∈ srow /\ cpos sCell = start /\ text sCell <> None /\
     norm_index (length (cells s)) a = Some er /\ py_index (cells s) a = Ok erow /\
     (ei, eCell) ∈ enumerate erow /\ cpos eCell = end_ /\ text eCell = None /\
     s' = set_text sr si None (set_text er ei (text sCell) s)).
Proof.
  induction srow as [| [si sCell] rest IH]; cbn [move_outer].
  - intros [= <- <-]. split; [done | discriminate].
  - assert (Hrest : move_outer s sr a start end_ rest = Ok (b, s') ->
      (b = false -> s' = s) /\
      (b = true ->
       exists si0 sCell0 er erow ei eCell,
         (si0, sCell0) ∈ (si, sCell) :: rest /\ cpos sCell0 = start /\
         text sCell0 <> None /\
         norm_index (length (cells s)) a = Some er /\ py_index (cells s) a = Ok erow /\
         (ei, eCell) ∈ enumerate erow /\ cpos eCell = end_ /\ text eCell = None /\
         s' = set_text sr si0 None (set_text er ei (text sCell0) s))).
    { intros H. apply IH in H as [H1 H2]. split; [exact H1 |]. intros Hb.
      destruct (H2 Hb) as (si0 & sCell0 & er & erow & ei & eCell & Hin & Hx).
      exists si0, sCell0, er, erow, ei, eCell. split; [by right | exact Hx]. }
    repeat case_decide; try exact Hrest; try discriminate.
    destruct (norm_index _ a) as [er |] eqn:Hn; [| discriminate].
    destruct (py_index (cells s) a) as [erow | |] eqn:Hrow; cbn [rbind];
      try discriminate.
    destruct (move_inner _ _ _ _ _ _ _) as [s1 |] eqn:Hin; [| exact Hrest].
    intros [= <- <-]. split; [discriminate |]. intros _.
    apply move_inner_spec in Hin as (ei & eCell & Hin & Hp & Ht & ->).
    exists si, sCell, er, erow, ei, eCell. split; [by left | done].
Qed.

Lemma move_true_spec start end_ s s' :
  move start end_ s = Ok (true, s') ->
  end_ ∈ getAvailableMoves start s /\
  exists sr si er ei m,
    button_at sr si s = Some {| cpos := start; text := Some m |} /\
    button_at er ei s = Some {| cpos := end_; text := None |} /\
    s' = set_text sr si None (set_text er ei (Some m) s).
Proof.
  unfold move. case_bool_decide as Hlegal; cbn [negb]; [| discriminate].
  split; [exact Hlegal |].
  destruct start as [x y], end_ as [a c].
  destruct (norm_index _ x) as [sr |] eqn:Hn; [| discriminate].
  destruct (py_index (cells s) x) as [srow | |] eqn:Hrow; cbn [rbind] in *;
    try discriminate.
  apply move_outer_spec in H as [_ H].
  destruct (H eq_refl) as (si & sCell & er & erow & ei & eCell & Hs & Hps & Hts &
                           Her & Herow & He & Hpe & Hte & ->).
  pose proof (py_index_lookup _ _ _ _ Hn Hrow) as Hsr.
  pose proof (py_index_lookup _ _ _ _ Her Herow) as Her'.
  apply enumerate_lookup in Hs, He.
  destruct sCell as [ps [m |]]; [| done]. destruct eCell as [pe te].
  cbn in *. subst.
  exists sr, si, er, ei, m. unfold button_at. rewrite Hsr, Her'. cbn.
  by rewrite Hs, He.
Qed.

Lemma move_false_spec start end_ s s' : move start end_ s = Ok (false, s') -> s' = s.
Proof.
  unfold move. destruct (negb _); [by intros [= <-] |].
  destruct start as [x y], end_ as [a c].
  destruct (norm_index _ x) as [sr |]; [| discriminate].
  destruct (py_index (cells s) x) as [srow | |]; cbn [rbind]; try discriminate.
  intros H. apply move_outer_spec in H as [H _]. by apply H.
Qed.

Lemma move_marks start end_ s b s' p :
  move start end_ s = Ok (b, s') -> marks p s' = marks p s.
Proof.
  destruct b; [| by intros ->%move_false_spec].
  intros H. apply move_true_spec in H
    as (_ & sr & si & er & ei & m & Hs & He & ->).
  pose proof (marks_set_text p er ei (Some m) s _ He) as H1.
  assert (Hne : (sr, si) <> (er, ei)).
  { intros [= -> ->]. rewrite Hs in He. discriminate He. }
  pose proof (button_at_set_text er ei (Some m) s sr si Hne) as H2.
  rewrite Hs in H2.
  pose proof (marks_set_text p sr si None _ _ H2) as H3.
  cbn [text] in *. unfold mark_weight in *.
  repeat case_decide; try discriminate; lia.
Qed.

(** X12. [move(start, end)] either returns [False] and changes nothing,
    or returns [True]; then [end] was one of the available moves of
    [start], a cell with [pos = start] showed a mark, a cell with
    [pos = end] was vacant, and the only change is that the mark has
    gone from the first to the second. In both cases the number of
    buttons showing each mark is the same before and after. *)
Theorem move_carries_one_mark start end_ s b s' :
  move start end_ s = Ok (b, s') ->
  (b = false -> s' = s) /\
  (b = true ->
   end_ ∈ getAvailableMoves start s /\
   exists sr si er ei m,
     button_at sr si s = Some {| cpos := start; text := Some m |} /\
     button_at er ei s = Some {| cpos := end_; text := None |} /\
     s' = set_text sr si None (set_text er ei (Some m) s)) /\
  (forall p, marks p s' = marks p s).
Proof.
  intros H. split; [| split].
  - intros ->. by apply move_false_spec in H.
  - intros ->. by apply move_true_spec in H.
  - intros p. by apply move_marks with (p := p) in H.
Qed.

Lemma move_carries_one_mark_witness :
  move (4, 2) (3, 2) piece_picked = Ok (true, piece_moved) /\
  (true = false -> piece_moved = piece_picked) /\
  (true = true ->
   (3, 2) ∈ getAvailableMoves (4, 2) piece_picked /\
   exists sr si er ei m,
     button_at sr si piece_picked = Some {| cpos := (4, 2); text := Some m |} /\
     button_at er ei piece_picked = Some {| cpos := (3, 2); text := None |} /\
     piece_moved = set_text sr si None (set_text er ei (Some m) piece_picked)) /\
  (forall p, marks p piece_moved = marks p piece_picked).
Proof.
  assert (H : move (4, 2) (3, 2) piece_picked = Ok (true, piece_moved))
    by (vm_compute; reflexivity).
  refine (conj H _).
  exact (move_carries_one_mark _ _ _ _ _ H).
Defined.

(** ** The functions that draw at random *)

Lemma makeRandomMove_ok rng s : forall ab xy rng',
  makeRandomMove rng s = Ok (ab, xy, rng') ->
  ab ∈ poses (player2 s) /\ xy ∈ getAvailableMovesForPos ab.1 ab.2 s /\
  suffix rng' rng.
Proof.
  induction rng as [| r rng IH]; intros ab xy rng'; cbn [makeRandomMove];
    [discriminate |].
  destruct (choice (poses (player2 s)) r) as [ab0 | |] eqn:Hab; cbn [rbind];
    try discriminate.
  apply choice_elem in Hab.
  destruct (getAvailableMovesForPos ab0.1 ab0.2 s) as [| m ms] eqn:Hav.
  - intros H. apply IH in H as (H1 & H2 & H3).
    split; [exact H1 | split; [exact H2 | by apply suffix_cons_r]].
  - destruct rng as [| r' rng'']; [discriminate |].
    destruct (choice (m :: ms) r') as [xy0 | |] eqn:Hxy; cbn [rbind];
      try discriminate.
    apply choice_elem in Hxy. intros [= <- <- <-].
    split; [exact Hab | split; [by rewrite Hav |]].
    by do 2 apply suffix_cons_r.
Qed.

Lemma makeRandomMove_blocked rng s :
  poses (player2 s) <> [] ->
  (forall ab, ab ∈ poses (player2 s) -> getAvailableMovesForPos ab.1 ab.2 s = []) ->
  makeRandomMove rng s = OutOfFuel.
Proof.
  intros Hne Hblocked. induction rng as [| r rng IH]; cbn [makeRandomMove]; [done |].
  destruct (choice_nonempty (poses (player2 s)) r Hne) as (ab & -> & Hab).
  cbn [rbind]. by rewrite (Hblocked ab Hab).
Qed.

Lemma chooseRandomToRemove_loop_ok lst rng : forall sol s sol' s' rng',
  sol ∈ lst ->
  chooseRandomToRemove_loop lst sol rng s = Ok (sol', s', rng') ->
  sol' ∈ lst /\ suffix rng' rng.
Proof.
  induction rng as [| r rng IH]; intros sol s sol' s' rng' Hsol;
    cbn [chooseRandomToRemove_loop];
    destruct (check3inRow X sol s) as [c s1]; destruct (c && _).
  - discriminate.
  - by intros [= <- <- <-].
  - destruct (choice lst r) as [sol1 | |] eqn:Hch; cbn [rbind]; try discriminate.
    apply choice_elem in Hch. intros H. apply IH in H as [H1 H2]; [| exact Hch].
    split; [exact H1 | by apply suffix_cons_r].
  - by intros [= <- <- <-].
Qed.

Lemma chooseRandomToRemove_loop_protected lst rng : forall sol s,
  (3 < length lst)%nat ->
  (forall p, p ∈ lst -> in_mill (poses (player1 s)) p = true) ->
  sol ∈ lst ->
  chooseRandomToRemove_loop lst sol rng s = OutOfFuel.
Proof.
  induction rng as [| r rng IH]; intros sol s Hlen Hall Hsol;
    cbn [chooseRandomToRemove_loop]; rewrite check3inRow_spec; cbn [poses_of];
    rewrite (Hall sol Hsol); apply Nat.ltb_lt in Hlen as Hlen'; rewrite Hlen';
    cbn [andb]; [done |].
  assert (Hne : lst <> []) by (intros ->; cbn in Hlen; lia).
  destruct (choice_nonempty lst r Hne) as (sol1 & -> & Hsol1). cbn [rbind].
  apply IH; [exact Hlen | exact Hall | exact Hsol1].
Qed.

Lemma choice_raise {A} (l : list A) r e : choice l r = Raise e -> e = IndexError.
Proof.
  unfold choice. destruct l as [| x l]; [by intros [= <-] |].
  destruct (_ !! _); [discriminate | by intros [= <-]].
Qed.

Lemma chooseRandomToRemove_loop_raise lst rng : forall sol s e,
  chooseRandomToRemove_loop lst sol rng s = Raise e -> e = IndexError.
Proof.
  induction rng as [| r rng IH]; intros sol s e; cbn [chooseRandomToRemove_loop];
    destruct (check3inRow X sol s) as [c s1]; destruct (c && _); try discriminate.
  destruct (choice lst r) as [sol1 | e1 |] eqn:Hch; cbn [rbind]; try discriminate.
  - apply IH.
  - intros [= <-]. by apply choice_raise in Hch.
Qed.

Lemma chooseRandomToRemove_ok lst rng s sol s' rng' :
  chooseRandomToRemove lst rng s = Ok (sol, s', rng') ->
  sol ∈ lst /\ suffix rng' rng.
Proof.
  unfold chooseRandomToRemove. destruct rng as [| r rng]; [discriminate |].
  destruct (choice lst r) as [sol1 | |] eqn:Hch; cbn [rbind]; try discriminate.
  apply choice_elem in Hch. intros H.
  apply chooseRandomToRemove_loop_ok in H as [H1 H2]; [| exact Hch].
  split; [exact H1 | by apply suffix_cons_r].
Qed.

Lemma chooseRandomToRemove_raise lst rng s e :
  chooseRandomToRemove lst rng s = Raise e -> e = IndexError.
Proof.
  unfold chooseRandomToRemove. destruct rng as [| r rng]; [discriminate |].
  destruct (choice lst r) as [sol1 | e1 |] eqn:Hch; cbn [rbind]; try discriminate.
  - apply chooseRandomToRemove_loop_raise.
  - intros [= <-]. by apply choice_raise in Hch.
Qed.

Lemma getButton_raise p s e : getButton p s = Raise e -> e = IndexError.
Proof.
  unfold getButton. destruct (getButton_rows _ _); [discriminate |].
  destruct (_ <? _)%nat; [by intros [= <-] | discriminate].
Qed.

(** X13. [makeRandomMove] returns only a piece of player 2 together
    with a vacant cell of the 3 x 3 block of squares around it. With no piece
    at all the first [random.choice] raises IndexError, and when player 2
    has pieces but none of them has such a cell the [while] loop never
    ends, whatever the generator hands out. *)
Theorem makeRandomMove_needs_a_movable_piece rng s :
  (forall ab xy rng',
     makeRandomMove rng s = Ok (ab, xy, rng') ->
     ab ∈ poses (player2 s) /\ xy ∈ neighbourhood ab.1 ab.2 /\
     xy ∈ vacant_cells s /\ suffix rng' rng) /\
  (poses (player2 s) = [] -> rng <> [] -> makeRandomMove rng s = Raise IndexError) /\
  (poses (player2 s) <> [] ->
   (forall ab, ab ∈ poses (player2 s) -> getAvailableMovesForPos ab.1 ab.2 s = []) ->
   makeRandomMove rng s = OutOfFuel).
Proof.
  split; [| split].
  - intros ab xy rng' H. apply makeRandomMove_ok in H as (H1 & H2 & H3).
    unfold getAvailableMovesForPos in H2. apply list_elem_of_filter in H2 as [H2 H4].
    done.
  - intros Hnil Hrng. destruct rng as [| r rng]; [done |].
    cbn [makeRandomMove]. by rewrite Hnil.
  - apply makeRandomMove_blocked.
Qed.

Lemma makeRandomMove_needs_a_movable_piece_witness :
  makeRandomMove [0; 0]%nat three_left = Ok ((2, 2), (1, 1), []) /\
  ((2, 2) ∈ poses (player2 three_left) /\ (1, 1) ∈ neighbourhood 2 2 /\
   (1, 1) ∈ vacant_cells three_left /\ suffix [] [0; 0]%nat) /\
  poses (player2 blocked_O) <> [] /\
  (forall ab, ab ∈ poses (player2 blocked_O) ->
              getAvailableMovesForPos ab.1 ab.2 blocked_O = []) /\
  makeRandomMove [0; 1; 2]%nat blocked_O = OutOfFuel.
Proof.
  assert (H : makeRandomMove [0; 0]%nat three_left = Ok ((2, 2), (1, 1), []))
    by (vm_compute; reflexivity).
  assert (Hne : poses (player2 blocked_O) <> []) by discriminate.
  assert (Hblocked : forall ab, ab ∈ poses (player2 blocked_O) ->
                                getAvailableMovesForPos ab.1 ab.2 blocked_O = []).
  { intros ab Hab. apply list_elem_of_singleton in Hab as ->. vm_compute. reflexivity. }
  refine (conj H (conj _ (conj Hne (conj Hblocked _)))).
  - exact (proj1 (makeRandomMove_needs_a_movable_piece [0; 0]%nat three_left) _ _ _ H).
  - exact (proj2 (proj2 (makeRandomMove_needs_a_movable_piece [0; 1; 2]%nat blocked_O))
             Hne Hblocked).
Defined.

(** X14. The piece returned by [chooseRandomToRemove(list)] is an
    element of [list], so the [poses.remove] that follows it succeeds,
    and the removal code of player 2 never raises ValueError. When the
    list has more than three elements and every one of them stands in a
    completed triple of player 1, the [while] loop never ends, whatever
    the generator hands out. *)
Theorem chooseRandomToRemove_needs_a_free_piece lst rng s :
  (forall sol s' rng',
     chooseRandomToRemove lst rng s = Ok (sol, s', rng') ->
     sol ∈ lst /\ (exists l, list_remove sol lst = Ok l) /\ suffix rng' rng) /\
  p2_remove rng s <> Raise ValueError /\
  ((3 < length lst)%nat ->
   (forall p, p ∈ lst -> in_mill (poses (player1 s)) p = true) ->
   chooseRandomToRemove lst rng s = OutOfFuel).
Proof.
  split; [| split].
  - intros sol s' rng' H. apply chooseRandomToRemove_ok in H as [H1 H2].
    split; [exact H1 | split; [by apply list_remove_elem | exact H2]].
  - unfold p2_remove.
    destruct (chooseRandomToRemove _ rng s) as [[[rem s1] rng1] | e |] eqn:Hch;
      cbn [rbind]; try discriminate.
    + pose proof Hch as Hk. apply kept_chooseRandomToRemove in Hk as (_ & _ & Hp & _).
      apply chooseRandomToRemove_ok in Hch as [Hin _]. rewrite <- Hp in Hin.
      destruct (list_remove_elem _ _ Hin) as [l ->]. cbn [rbind].
      destruct (config_button rem None _) as [s2 | e |] eqn:Hcfg; cbn [rbind];
        try discriminate.
      * destruct (check_win s2); [| destruct (_ =? 0)]; discriminate.
      * unfold config_button in Hcfg.
        destruct (getButton rem _) as [[[r i] |] | e1 |] eqn:Hb; cbn [rbind] in Hcfg;
          try discriminate.
        -- by injection Hcfg as <-.
        -- injection Hcfg as <-. apply getButton_raise in Hb as ->. discriminate.
    + apply chooseRandomToRemove_raise in Hch as ->. discriminate.
  - intros Hlen Hall. unfold chooseRandomToRemove. destruct rng as [| r rng]; [done |].
    assert (Hne : lst <> []) by (intros ->; cbn in Hlen; lia).
    destruct (choice_nonempty lst r Hne) as (sol1 & -> & Hsol1). cbn [rbind].
    by apply chooseRandomToRemove_loop_protected.
Qed.

Lemma chooseRandomToRemove_needs_a_free_piece_witness :
  chooseRandomToRemove (poses (player1 two_each)) [1]%nat two_each
  = Ok ((1, 3), two_each, []) /\
  ((1, 3) ∈ poses (player1 two_each) /\
   (exists l, list_remove (1, 3) (poses (player1 two_each)) = Ok l) /\
   suffix [] [1]%nat) /\
  (3 < length (poses (player1 all_protected)))%nat /\
  (forall p, p ∈ poses (player1 all_protected) ->
             in_mill (poses (player1 all_protected)) p = true) /\
  chooseRandomToRemove (poses (player1 all_protected)) [1; 2; 3; 4]%nat all_protected
  = OutOfFuel.
Proof.
  assert (Hlen : (3 < length (poses (player1 all_protected)))%nat) by (cbn; lia).
  assert (Hall : forall p, p ∈ poses (player1 all_protected) ->
                           in_mill (poses (player1 all_protected)) p = true).
  { intros p Hp.
    repeat (apply elem_of_cons in Hp as [-> | Hp]; [vm_compute; reflexivity |]).
    by apply elem_of_nil in Hp. }
  assert (H : chooseRandomToRemove (poses (player1 two_each)) [1]%nat two_each
              = Ok ((1, 3), two_each, [])) by (vm_compute; reflexivity).
  refine (conj H (conj _ (conj Hlen (conj Hall _)))).
  - exact (proj1 (chooseRandomToRemove_needs_a_free_piece
                    (poses (player1 two_each)) [1]%nat two_each) _ _ _ H).
  - exact (proj2 (proj2 (chooseRandomToRemove_needs_a_free_piece
                           (poses (player1 all_protected)) [1; 2; 3; 4]%nat
                           all_protected))
             Hlen Hall).
Defined.

Lemma py_index_nonneg {A} (l : list A) i a :
  0 <= i -> py_index l i = Ok a ->
  norm_index (length l) i = Some (Z.to_nat i) /\ l !! Z.to_nat i = Some a.
Proof.
  intros Hi. unfold py_index, norm_index.
  destruct (Z.leb_spec 0 i); [| lia]. destruct (Z.ltb_spec i (Z.of_nat (length l))).
  - cbn [andb]. destruct (l !! Z.to_nat i); [| discriminate]. by intros [= ->].
  - cbn [andb]. destruct (Z.ltb_spec i 0); [lia |]. rewrite andb_false_r. discriminate.
Qed.

Lemma randomMove_loop_ok upperCap : forall rng s a b rng',
  randomMove_loop upperCap rng s = Ok (a, b, rng') ->
  ((a, b) = (-1, -1) /\ length rng = (2 * upperCap + length rng')%nat) \/
  (0 <= a < 7 /\ 0 <= b /\
   exists c, cell_at a b s = Ok (Z.to_nat a, Z.to_nat b, c) /\ text c = None).
Proof.
  induction upperCap as [| n IH]; intros rng s a b rng'; cbn [randomMove_loop].
  - intros [= <- <- <-]. left. split; [done | cbn; lia].
  - destruct rng as [| r1 [| r2 rng]]; try discriminate.
    assert (Ha : 0 <= Z.of_nat (r1 mod 7) < 7).
    { pose proof (Nat.mod_upper_bound r1 7). lia. }
    set (a0 := Z.of_nat (r1 mod 7)) in *.
    destruct (py_index (cells s) a0) as [row | |] eqn:Hrow; cbn [rbind];
      try discriminate.
    destruct row as [| c0 row]; [discriminate |].
    assert (Hb : 0 <= Z.of_nat (r2 mod length (c0 :: row))) by lia.
    set (b0 := Z.of_nat (r2 mod length (c0 :: row))) in *.
    destruct (py_index (c0 :: row) b0) as [c | |] eqn:Hc; cbn [rbind];
      try discriminate.
    case_decide as Ht.
    + intros H. injection H as <- <- <-. right.
      split; [exact Ha | split; [exact Hb |]]. exists c. split; [| exact Ht].
      destruct (py_index_nonneg _ _ _ (proj1 Ha) Hrow) as [Hn1 _].
      destruct (py_index_nonneg _ _ _ Hb Hc) as [Hn2 _].
      unfold cell_at. rewrite Hn1, Hrow. cbn [rbind]. rewrite Hn2, Hc. reflexivity.
    + intros H. apply IH in H as [[H1 H2] | H]; [left | by right].
      split; [exact H1 | cbn [length]; lia].
Qed.

(** X15. [randomMove] returns either (-1,-1), after fifty trials that
    all hit an occupied cell (a hundred draws), or the indices [a, b] of
    a cell of rows 0..6 whose button is vacant: [self.cells[a][b]] then
    is that cell. *)
Theorem randomMove_finds_a_vacant_cell rng s a b rng' :
  randomMove rng s = Ok (a, b, rng') ->
  ((a, b) = (-1, -1) /\ length rng = (100 + length rng')%nat) \/
  (0 <= a < 7 /\ 0 <= b /\
   exists c, cell_at a b s = Ok (Z.to_nat a, Z.to_nat b, c) /\ text c = None).
Proof. intros H. by apply randomMove_loop_ok in H. Qed.

Lemma randomMove_finds_a_vacant_cell_witness :
  randomMove [3; 3]%nat init = Ok (3, 3, []) /\
  (((3, 3) = (-1, -1) /\ length [3; 3]%nat = (100 + length (@nil nat))%nat) \/
   (0 <= 3 < 7 /\ 0 <= 3 /\
    exists c, cell_at 3 3 init = Ok (Z.to_nat 3, Z.to_nat 3, c) /\ text c = None)).
Proof.
  assert (H : randomMove [3; 3]%nat init = Ok (3, 3, [])) by (vm_compute; reflexivity).
  refine (conj H _).
  exact (randomMove_finds_a_vacant_cell _ _ _ _ _ H).
Defined.

(** ** reset *)

Lemma reset_cells s :
  cells (reset s)
  = map (map (fun p => {| cpos := p; text := None |})) (layout s).
Proof.
  unfold reset, layout. cbn [cells set_cells]. rewrite map_map.
  apply map_ext. intros row. by rewrite map_map.
Qed.

Lemma reset_on_layout s :
  layout s = layout init -> reset s = set_to_move (to_move s) init.
Proof.
  intros L. pose proof (reset_cells s) as Hc. rewrite L in Hc.
  change (map _ (layout init)) with (cells init) in Hc.
  change (reset s) with (set_cells (cells (reset s)) (set_to_move (to_move s) init)).
  by rewrite Hc.
Qed.

(** X16. After any sequence of clicks from the state built by
    [__init__], [reset] gives back that state except for [to_move],
    which it leaves as it is. *)
Theorem reset_restores_all_but_to_move clicks rng s rng' :
  run clicks rng init = Ok (s, rng') ->
  reset s = set_to_move (to_move s) init.
Proof. intros H. apply run_inv in H as [L _]. by apply reset_on_layout. Qed.

Lemma reset_restores_all_but_to_move_witness :
  run [(0, 0)]%nat (replicate 100 0%nat) init = Ok (no_free_cell_found, []) /\
  reset no_free_cell_found = set_to_move (to_move no_free_cell_found) init.
Proof.
  assert (H : run [(0, 0)]%nat (replicate 100 0%nat) init = Ok (no_free_cell_found, []))
    by (vm_compute; reflexivity).
  refine (conj H _).
  exact (reset_restores_all_but_to_move _ _ _ _ H).
Defined.

(** A game that has ended during the turn of player 2 is restarted by
    [reset] with O to move. *)
Example reset_after_the_turn_of_O :
  run [(0, 0)]%nat (replicate 100 0%nat) init = Ok (no_free_cell_found, []) /\
  to_move (reset no_free_cell_found) = O /\
  reset no_free_cell_found <> init.
Proof. split; [vm_compute; reflexivity | split; [reflexivity | discriminate]]. Qed.

(** ** getButton and getCoordinates *)

Lemma find_in_row_sound p row : forall (g : nat -> nat) j,
  find_in_row p (imap (fun i a => (g i, a)) row) = Some j ->
  exists i c, j = g i /\ row !! i = Some c /\ cpos c = p.
Proof.
  induction row as [| c row IH]; intros g j; [discriminate |].
  cbn [imap find_in_row]. case_decide as Hc.
  - intros [= <-]. by exists 0%nat, c.
  - intros H. apply (IH (fun i => g (S i))) in H as (i & c' & -> & Hl & Hp).
    by exists (S i), c'.
Qed.

Lemma getButton_rows_sound p rows : forall (g : nat -> nat) r j,
  getButton_rows p (imap (fun i a => (g i, a)) rows) = Some (r, j) ->
  exists i row c, r = g i /\ rows !! i = Some row /\ row !! j = Some c /\ cpos c = p.
Proof.
  induction rows as [| row rows IH]; intros g r j; [discriminate |].
  cbn [imap getButton_rows].
  destruct (find_in_row p (enumerate row)) as [j0 |] eqn:Hj.
  - intros [= <- <-]. apply (find_in_row_sound p row (fun i => i)) in Hj
      as (i & c & -> & Hl & Hp).
    by exists 0%nat, row, c.
  - intros H. apply (IH (fun i => g (S i))) in H as (i & row' & c & -> & Hr & Hl & Hp).
    by exists (S i), row', c.
Qed.

Lemma getButton_sound p s r i :
  getButton p s = Ok (Some (r, i)) -> getCoordinates (r, i) s = Ok p.
Proof.
  unfold getButton.
  destruct (getButton_rows p _) as [[r0 i0] |] eqn:Hb;
    [| destruct (_ <? _)%nat; discriminate].
  intros [= -> ->].
  apply (getButton_rows_sound p _ (fun i => i)) in Hb as (r0 & row & c & -> & Hr & Hl & Hp).
  unfold getCoordinates. cbn [fst snd]. change (Z.to_nat dims) with 7%nat.
  rewrite Hr. cbn. rewrite Hl. by rewrite Hp.
Qed.

Lemma getButton_complete_init_layout s r i p :
  layout s = layout init ->
  getCoordinates (r, i) s = Ok p -> getButton p s = Ok (Some (r, i)).
Proof.
  destruct s as [cs tm p1 p2 t1 t2]. unfold layout. cbn [cells].
  intros L. remember (map (map cpos) cs) as lhs eqn:E in L.
  vm_compute in L. subst lhs.
  repeat match type of L with
         | map _ ?l = _ => destruct l as [| ? ?]; [discriminate L |];
                           cbn [map] in L; injection L as ? L
         end.
  destruct cs; [| discriminate L]. clear L.
  repeat match goal with
         | H : map _ ?l = _ :: _ |- _ =>
             destruct l as [| ? ?]; [discriminate H |]; cbn [map] in H;
             injection H as ? H
         | H : map _ ?l = [] |- _ => destruct l; [clear H | discriminate H]
         end.
  repeat match goal with c : Cell |- _ => destruct c as [? ?]; cbn [cpos] in * end.
  subst.
  unfold getCoordinates. cbn [cells fst snd]. change (Z.to_nat dims) with 7%nat.
  do 7 (destruct r as [| r]; [do 6 (destruct i as [| i]; [cbn; try discriminate;
        intros [= <-]; vm_compute; reflexivity |]); cbn; discriminate |]).
  cbn. discriminate.
Qed.

(** X17. [getButton(pos)] returns only a button whose cell has that
    [pos]; and as long as the buttons are where [__init__] put them, it
    raises nothing and returns, for the [pos] of any button, that very
    button: the positions of the 24 cells are pairwise different. *)
Theorem getButton_inverts_getCoordinates s r i p :
  (getButton p s = Ok (Some (r, i)) -> getCoordinates (r, i) s = Ok p) /\
  (layout s = layout init ->
   (exists b, getButton p s = Ok b) /\
   (getCoordinates (r, i) s = Ok p -> getButton p s = Ok (Some (r, i)))).
Proof.
  split; [apply getButton_sound |]. intros L.
  split; [| by apply getButton_complete_init_layout].
  unfold getButton. destruct (getButton_rows p _); [by eexists |].
  assert (Hlen : length (cells s) = 7%nat).
  { change 7%nat with (length (layout init)). rewrite <- L. unfold layout.
    by rewrite length_map. }
  rewrite Hlen. cbn. by eexists.
Qed.

Lemma getButton_inverts_getCoordinates_witness :
  layout two_each = layout init /\
  getCoordinates (3, 3)%nat two_each = Ok (3, 4) /\
  getButton (3, 4) two_each = Ok (Some (3, 3)%nat).
Proof.
  assert (L : layout two_each = layout init) by (vm_compute; reflexivity).
  assert (H : getCoordinates (3, 3)%nat two_each = Ok (3, 4)) by (vm_compute; reflexivity).
  refine (conj L (conj H _)).
  exact (proj2 (proj2 (getButton_inverts_getCoordinates two_each 3 3 (3, 4)) L) H).
Defined.

(** ** The end of the game *)

Lemma check_win_kept s s' :
  material_le s s' -> check_win s = true -> check_win s' = true.
Proof.
  unfold material_le, material1, material2, check_win.
  intros (A & B & C & D & E & F).
  destruct (Z.eqb_spec (player1tokens s) 0) as [H1 |]; [| discriminate].
  destruct (Z.eqb_spec (player2tokens s) 0) as [H2 |]; [| discriminate].
  cbn [andb].
  assert (H1' : player1tokens s' = 0) by lia.
  assert (H2' : player2tokens s' = 0) by lia.
  rewrite H1', H2'. cbn [Z.eqb andb].
  destruct (Nat.ltb_spec (length (poses (player1 s))) 3).
  - intros _. destruct (Nat.ltb_spec (length (poses (player1 s'))) 3); [done | lia].
  - destruct (Nat.ltb_spec (length (poses (player2 s))) 3); [| discriminate].
    intros _. destruct (Nat.ltb_spec (length (poses (player1 s'))) 3); [done |].
    destruct (Nat.ltb_spec (length (poses (player2 s'))) 3); [done | lia].
Qed.

(** X18. Once [check_win] holds it holds after every further sequence
    of clicks: with both token counts at 0 no piece can come back. *)
Theorem game_over_is_permanent clicks rng s s' rng' :
  check_win s = true ->
  run clicks rng s = Ok (s', rng') ->
  check_win s' = true.
Proof.
  intros Hwin H. apply run_inv in H as [_ M]. by apply (check_win_kept s).
Qed.

Lemma game_over_is_permanent_witness :
  check_win two_left = true /\
  run [(3, 0)]%nat [] two_left = Ok (two_left_picked, []) /\
  check_win two_left_picked = true.
Proof.
  assert (Hwin : check_win two_left = true) by (vm_compute; reflexivity).
  assert (H : run [(3, 0)]%nat [] two_left = Ok (two_left_picked, []))
    by (vm_compute; reflexivity).
  refine (conj Hwin (conj H _)).
  exact (game_over_is_permanent _ _ _ _ _ Hwin H).
Defined.

End GuiMoreFacts.
